(** * Verification of the spreadsheet translation engine

    Shallow embedding of [translation_engine.py]: the cell classifier
    ([is_already_translated], [check_and_adjust_translation_order]), the
    translation client ([baidu_translate]), the worksheet pass
    ([translate_worksheet_with_progress]) and the task engine
    ([translate_excel_with_progress]).  The classifier of
    [table_translator.py] is the same text, line for line. *)

From Stdlib Require Import ZArith NArith QArith Qround Qpower Lia Lqa List Bool Sorted.
From Stdlib Require Import Strings.String Strings.Ascii DecimalString.
From stdpp Require Import base option list gmap.

Set Default Proof Using "Type".
Local Open Scope Z_scope.

(** * Python strings *)

(** A Python [str] is a sequence of Unicode code points. *)
Definition str := list N.

(** ASCII literals of the source, as code points. *)
Definition py (s : string) : str :=
  map N_of_ascii (list_ascii_of_string s).

Definition NL : N := 10%N.

Definition in_range (lo hi c : N) : bool := ((lo <=? c) && (c <=? hi))%N.

Module Unicode.

(** [str.isspace], one character: the white space set of CPython's
    [_PyUnicode_IsWhitespace].  [str.strip()] and the [\s] class of [re]
    on [str] patterns use the same set. *)
Definition isspace (c : N) : bool :=
  in_range 0x09 0x0d c || in_range 0x1c 0x20 c || (c =? 0x85)%N
  || (c =? 0xa0)%N || (c =? 0x1680)%N || in_range 0x2000 0x200a c
  || (c =? 0x2028)%N || (c =? 0x2029)%N || (c =? 0x202f)%N
  || (c =? 0x205f)%N || (c =? 0x3000)%N.

(** The code points of general category L (Lu, Ll, Lt, Lm, Lo), Unicode
    14.0.0, as closed ranges: the characters on which [str.isalpha] holds. *)
Definition letters : list (N * N) := Eval cbv in (
  [
  (0x41, 0x5a); (0x61, 0x7a); (0xaa, 0xaa); (0xb5, 0xb5); (0xba, 0xba);
   (0xc0, 0xd6); (0xd8, 0xf6); (0xf8, 0x2c1); (0x2c6, 0x2d1); (0x2e0, 0x2e4);
   (0x2ec, 0x2ec); (0x2ee, 0x2ee); (0x370, 0x374); (0x376, 0x377);
   (0x37a, 0x37d); (0x37f, 0x37f); (0x386, 0x386); (0x388, 0x38a);
   (0x38c, 0x38c); (0x38e, 0x3a1); (0x3a3, 0x3f5); (0x3f7, 0x481);
   (0x48a, 0x52f); (0x531, 0x556); (0x559, 0x559); (0x560, 0x588);
   (0x5d0, 0x5ea); (0x5ef, 0x5f2); (0x620, 0x64a); (0x66e, 0x66f);
   (0x671, 0x6d3); (0x6d5, 0x6d5); (0x6e5, 0x6e6); (0x6ee, 0x6ef);
   (0x6fa, 0x6fc); (0x6ff, 0x6ff); (0x710, 0x710); (0x712, 0x72f);
   (0x74d, 0x7a5); (0x7b1, 0x7b1); (0x7ca, 0x7ea); (0x7f4, 0x7f5);
   (0x7fa, 0x7fa); (0x800, 0x815); (0x81a, 0x81a); (0x824, 0x824);
   (0x828, 0x828); (0x840, 0x858); (0x860, 0x86a); (0x870, 0x887);
   (0x889, 0x88e); (0x8a0, 0x8c9); (0x904, 0x939); (0x93d, 0x93d);
   (0x950, 0x950); (0x958, 0x961); (0x971, 0x980); (0x985, 0x98c);
   (0x98f, 0x990); (0x993, 0x9a8); (0x9aa, 0x9b0); (0x9b2, 0x9b2);
   (0x9b6, 0x9b9); (0x9bd, 0x9bd); (0x9ce, 0x9ce); (0x9dc, 0x9dd);
   (0x9df, 0x9e1); (0x9f0, 0x9f1); (0x9fc, 0x9fc); (0xa05, 0xa0a);
   (0xa0f, 0xa10); (0xa13, 0xa28); (0xa2a, 0xa30); (0xa32, 0xa33);
   (0xa35, 0xa36); (0xa38, 0xa39); (0xa59, 0xa5c); (0xa5e, 0xa5e);
   (0xa72, 0xa74); (0xa85, 0xa8d); (0xa8f, 0xa91); (0xa93, 0xaa8);
   (0xaaa, 0xab0); (0xab2, 0xab3); (0xab5, 0xab9); (0xabd, 0xabd);
   (0xad0, 0xad0); (0xae0, 0xae1); (0xaf9, 0xaf9); (0xb05, 0xb0c);
   (0xb0f, 0xb10); (0xb13, 0xb28); (0xb2a, 0xb30); (0xb32, 0xb33);
   (0xb35, 0xb39); (0xb3d, 0xb3d); (0xb5c, 0xb5d); (0xb5f, 0xb61);
   (0xb71, 0xb71); (0xb83, 0xb83); (0xb85, 0xb8a); (0xb8e, 0xb90);
   (0xb92, 0xb95); (0xb99, 0xb9a); (0xb9c, 0xb9c); (0xb9e, 0xb9f);
   (0xba3, 0xba4); (0xba8, 0xbaa); (0xbae, 0xbb9); (0xbd0, 0xbd0);
   (0xc05, 0xc0c); (0xc0e, 0xc10); (0xc12, 0xc28); (0xc2a, 0xc39);
   (0xc3d, 0xc3d); (0xc58, 0xc5a); (0xc5d, 0xc5d); (0xc60, 0xc61);
   (0xc80, 0xc80); (0xc85, 0xc8c); (0xc8e, 0xc90); (0xc92, 0xca8);
   (0xcaa, 0xcb3); (0xcb5, 0xcb9); (0xcbd, 0xcbd); (0xcdd, 0xcde);
   (0xce0, 0xce1); (0xcf1, 0xcf2); (0xd04, 0xd0c); (0xd0e, 0xd10);
   (0xd12, 0xd3a); (0xd3d, 0xd3d); (0xd4e, 0xd4e); (0xd54, 0xd56);
   (0xd5f, 0xd61); (0xd7a, 0xd7f); (0xd85, 0xd96); (0xd9a, 0xdb1);
   (0xdb3, 0xdbb); (0xdbd, 0xdbd); (0xdc0, 0xdc6); (0xe01, 0xe30);
   (0xe32, 0xe33); (0xe40, 0xe46); (0xe81, 0xe82); (0xe84, 0xe84);
   (0xe86, 0xe8a); (0xe8c, 0xea3); (0xea5, 0xea5); (0xea7, 0xeb0);
   (0xeb2, 0xeb3); (0xebd, 0xebd); (0xec0, 0xec4); (0xec6, 0xec6);
   (0xedc, 0xedf); (0xf00, 0xf00); (0xf40, 0xf47); (0xf49, 0xf6c);
   (0xf88, 0xf8c); (0x1000, 0x102a); (0x103f, 0x103f); (0x1050, 0x1055);
   (0x105a, 0x105d); (0x1061, 0x1061); (0x1065, 0x1066); (0x106e, 0x1070);
   (0x1075, 0x1081); (0x108e, 0x108e); (0x10a0, 0x10c5); (0x10c7, 0x10c7);
   (0x10cd, 0x10cd); (0x10d0, 0x10fa); (0x10fc, 0x1248); (0x124a, 0x124d);
   (0x1250, 0x1256); (0x1258, 0x1258); (0x125a, 0x125d); (0x1260, 0x1288);
   (0x128a, 0x128d); (0x1290, 0x12b0); (0x12b2, 0x12b5); (0x12b8, 0x12be);
   (0x12c0, 0x12c0); (0x12c2, 0x12c5); (0x12c8, 0x12d6); (0x12d8, 0x1310);
   (0x1312, 0x1315); (0x1318, 0x135a); (0x1380, 0x138f); (0x13a0, 0x13f5);
   (0x13f8, 0x13fd); (0x1401, 0x166c); (0x166f, 0x167f); (0x1681, 0x169a);
   (0x16a0, 0x16ea); (0x16f1, 0x16f8); (0x1700, 0x1711); (0x171f, 0x1731);
   (0x1740, 0x1751); (0x1760, 0x176c); (0x176e, 0x1770); (0x1780, 0x17b3);
   (0x17d7, 0x17d7); (0x17dc, 0x17dc); (0x1820, 0x1878); (0x1880, 0x1884);
   (0x1887, 0x18a8); (0x18aa, 0x18aa); (0x18b0, 0x18f5); (0x1900, 0x191e);
   (0x1950, 0x196d); (0x1970, 0x1974); (0x1980, 0x19ab); (0x19b0, 0x19c9);
   (0x1a00, 0x1a16); (0x1a20, 0x1a54); (0x1aa7, 0x1aa7); (0x1b05, 0x1b33);
   (0x1b45, 0x1b4c); (0x1b83, 0x1ba0); (0x1bae, 0x1baf); (0x1bba, 0x1be5);
   (0x1c00, 0x1c23); (0x1c4d, 0x1c4f); (0x1c5a, 0x1c7d); (0x1c80, 0x1c88);
   (0x1c90, 0x1cba); (0x1cbd, 0x1cbf); (0x1ce9, 0x1cec); (0x1cee, 0x1cf3);
   (0x1cf5, 0x1cf6); (0x1cfa, 0x1cfa); (0x1d00, 0x1dbf); (0x1e00, 0x1f15);
   (0x1f18, 0x1f1d); (0x1f20, 0x1f45); (0x1f48, 0x1f4d); (0x1f50, 0x1f57);
   (0x1f59, 0x1f59); (0x1f5b, 0x1f5b); (0x1f5d, 0x1f5d); (0x1f5f, 0x1f7d);
   (0x1f80, 0x1fb4); (0x1fb6, 0x1fbc); (0x1fbe, 0x1fbe); (0x1fc2, 0x1fc4);
   (0x1fc6, 0x1fcc); (0x1fd0, 0x1fd3); (0x1fd6, 0x1fdb); (0x1fe0, 0x1fec);
   (0x1ff2, 0x1ff4); (0x1ff6, 0x1ffc); (0x2071, 0x2071); (0x207f, 0x207f);
   (0x2090, 0x209c); (0x2102, 0x2102); (0x2107, 0x2107); (0x210a, 0x2113);
   (0x2115, 0x2115); (0x2119, 0x211d); (0x2124, 0x2124); (0x2126, 0x2126);
   (0x2128, 0x2128); (0x212a, 0x212d); (0x212f, 0x2139); (0x213c, 0x213f);
   (0x2145, 0x2149); (0x214e, 0x214e); (0x2183, 0x2184); (0x2c00, 0x2ce4);
   (0x2ceb, 0x2cee); (0x2cf2, 0x2cf3); (0x2d00, 0x2d25); (0x2d27, 0x2d27);
   (0x2d2d, 0x2d2d); (0x2d30, 0x2d67); (0x2d6f, 0x2d6f); (0x2d80, 0x2d96);
   (0x2da0, 0x2da6); (0x2da8, 0x2dae); (0x2db0, 0x2db6); (0x2db8, 0x2dbe);
   (0x2dc0, 0x2dc6); (0x2dc8, 0x2dce); (0x2dd0, 0x2dd6); (0x2dd8, 0x2dde);
   (0x2e2f, 0x2e2f); (0x3005, 0x3006); (0x3031, 0x3035); (0x303b, 0x303c);
   (0x3041, 0x3096); (0x309d, 0x309f); (0x30a1, 0x30fa); (0x30fc, 0x30ff);
   (0x3105, 0x312f); (0x3131, 0x318e); (0x31a0, 0x31bf); (0x31f0, 0x31ff);
   (0x3400, 0x4dbf); (0x4e00, 0xa48c); (0xa4d0, 0xa4fd); (0xa500, 0xa60c);
   (0xa610, 0xa61f); (0xa62a, 0xa62b); (0xa640, 0xa66e); (0xa67f, 0xa69d);
   (0xa6a0, 0xa6e5); (0xa717, 0xa71f); (0xa722, 0xa788); (0xa78b, 0xa7ca);
   (0xa7d0, 0xa7d1); (0xa7d3, 0xa7d3); (0xa7d5, 0xa7d9); (0xa7f2, 0xa801);
   (0xa803, 0xa805); (0xa807, 0xa80a); (0xa80c, 0xa822); (0xa840, 0xa873);
   (0xa882, 0xa8b3); (0xa8f2, 0xa8f7); (0xa8fb, 0xa8fb); (0xa8fd, 0xa8fe);
   (0xa90a, 0xa925); (0xa930, 0xa946); (0xa960, 0xa97c); (0xa984, 0xa9b2);
   (0xa9cf, 0xa9cf); (0xa9e0, 0xa9e4); (0xa9e6, 0xa9ef); (0xa9fa, 0xa9fe);
   (0xaa00, 0xaa28); (0xaa40, 0xaa42); (0xaa44, 0xaa4b); (0xaa60, 0xaa76);
   (0xaa7a, 0xaa7a); (0xaa7e, 0xaaaf); (0xaab1, 0xaab1); (0xaab5, 0xaab6);
   (0xaab9, 0xaabd); (0xaac0, 0xaac0); (0xaac2, 0xaac2); (0xaadb, 0xaadd);
   (0xaae0, 0xaaea); (0xaaf2, 0xaaf4); (0xab01, 0xab06); (0xab09, 0xab0e);
   (0xab11, 0xab16); (0xab20, 0xab26); (0xab28, 0xab2e); (0xab30, 0xab5a);
   (0xab5c, 0xab69); (0xab70, 0xabe2); (0xac00, 0xd7a3); (0xd7b0, 0xd7c6);
   (0xd7cb, 0xd7fb); (0xf900, 0xfa6d); (0xfa70, 0xfad9); (0xfb00, 0xfb06);
   (0xfb13, 0xfb17); (0xfb1d, 0xfb1d); (0xfb1f, 0xfb28); (0xfb2a, 0xfb36);
   (0xfb38, 0xfb3c); (0xfb3e, 0xfb3e); (0xfb40, 0xfb41); (0xfb43, 0xfb44);
   (0xfb46, 0xfbb1); (0xfbd3, 0xfd3d); (0xfd50, 0xfd8f); (0xfd92, 0xfdc7);
   (0xfdf0, 0xfdfb); (0xfe70, 0xfe74); (0xfe76, 0xfefc); (0xff21, 0xff3a);
   (0xff41, 0xff5a); (0xff66, 0xffbe); (0xffc2, 0xffc7); (0xffca, 0xffcf);
   (0xffd2, 0xffd7); (0xffda, 0xffdc); (0x10000, 0x1000b);
   (0x1000d, 0x10026); (0x10028, 0x1003a); (0x1003c, 0x1003d);
   (0x1003f, 0x1004d); (0x10050, 0x1005d); (0x10080, 0x100fa);
   (0x10280, 0x1029c); (0x102a0, 0x102d0); (0x10300, 0x1031f);
   (0x1032d, 0x10340); (0x10342, 0x10349); (0x10350, 0x10375);
   (0x10380, 0x1039d); (0x103a0, 0x103c3); (0x103c8, 0x103cf);
   (0x10400, 0x1049d); (0x104b0, 0x104d3); (0x104d8, 0x104fb);
   (0x10500, 0x10527); (0x10530, 0x10563); (0x10570, 0x1057a);
   (0x1057c, 0x1058a); (0x1058c, 0x10592); (0x10594, 0x10595);
   (0x10597, 0x105a1); (0x105a3, 0x105b1); (0x105b3, 0x105b9);
   (0x105bb, 0x105bc); (0x10600, 0x10736); (0x10740, 0x10755);
   (0x10760, 0x10767); (0x10780, 0x10785); (0x10787, 0x107b0);
   (0x107b2, 0x107ba); (0x10800, 0x10805); (0x10808, 0x10808);
   (0x1080a, 0x10835); (0x10837, 0x10838); (0x1083c, 0x1083c);
   (0x1083f, 0x10855); (0x10860, 0x10876); (0x10880, 0x1089e);
   (0x108e0, 0x108f2); (0x108f4, 0x108f5); (0x10900, 0x10915);
   (0x10920, 0x10939); (0x10980, 0x109b7); (0x109be, 0x109bf);
   (0x10a00, 0x10a00); (0x10a10, 0x10a13); (0x10a15, 0x10a17);
   (0x10a19, 0x10a35); (0x10a60, 0x10a7c); (0x10a80, 0x10a9c);
   (0x10ac0, 0x10ac7); (0x10ac9, 0x10ae4); (0x10b00, 0x10b35);
   (0x10b40, 0x10b55); (0x10b60, 0x10b72); (0x10b80, 0x10b91);
   (0x10c00, 0x10c48); (0x10c80, 0x10cb2); (0x10cc0, 0x10cf2);
   (0x10d00, 0x10d23); (0x10e80, 0x10ea9); (0x10eb0, 0x10eb1);
   (0x10f00, 0x10f1c); (0x10f27, 0x10f27); (0x10f30, 0x10f45);
   (0x10f70, 0x10f81); (0x10fb0, 0x10fc4); (0x10fe0, 0x10ff6);
   (0x11003, 0x11037); (0x11071, 0x11072); (0x11075, 0x11075);
   (0x11083, 0x110af); (0x110d0, 0x110e8); (0x11103, 0x11126);
   (0x11144, 0x11144); (0x11147, 0x11147); (0x11150, 0x11172);
   (0x11176, 0x11176); (0x11183, 0x111b2); (0x111c1, 0x111c4);
   (0x111da, 0x111da); (0x111dc, 0x111dc); (0x11200, 0x11211);
   (0x11213, 0x1122b); (0x11280, 0x11286); (0x11288, 0x11288);
   (0x1128a, 0x1128d); (0x1128f, 0x1129d); (0x1129f, 0x112a8);
   (0x112b0, 0x112de); (0x11305, 0x1130c); (0x1130f, 0x11310);
   (0x11313, 0x11328); (0x1132a, 0x11330); (0x11332, 0x11333);
   (0x11335, 0x11339); (0x1133d, 0x1133d); (0x11350, 0x11350);
   (0x1135d, 0x11361); (0x11400, 0x11434); (0x11447, 0x1144a);
   (0x1145f, 0x11461); (0x11480, 0x114af); (0x114c4, 0x114c5);
   (0x114c7, 0x114c7); (0x11580, 0x115ae); (0x115d8, 0x115db);
   (0x11600, 0x1162f); (0x11644, 0x11644); (0x11680, 0x116aa);
   (0x116b8, 0x116b8); (0x11700, 0x1171a); (0x11740, 0x11746);
   (0x11800, 0x1182b); (0x118a0, 0x118df); (0x118ff, 0x11906);
   (0x11909, 0x11909); (0x1190c, 0x11913); (0x11915, 0x11916);
   (0x11918, 0x1192f); (0x1193f, 0x1193f); (0x11941, 0x11941);
   (0x119a0, 0x119a7); (0x119aa, 0x119d0); (0x119e1, 0x119e1);
   (0x119e3, 0x119e3); (0x11a00, 0x11a00); (0x11a0b, 0x11a32);
   (0x11a3a, 0x11a3a); (0x11a50, 0x11a50); (0x11a5c, 0x11a89);
   (0x11a9d, 0x11a9d); (0x11ab0, 0x11af8); (0x11c00, 0x11c08);
   (0x11c0a, 0x11c2e); (0x11c40, 0x11c40); (0x11c72, 0x11c8f);
   (0x11d00, 0x11d06); (0x11d08, 0x11d09); (0x11d0b, 0x11d30);
   (0x11d46, 0x11d46); (0x11d60, 0x11d65); (0x11d67, 0x11d68);
   (0x11d6a, 0x11d89); (0x11d98, 0x11d98); (0x11ee0, 0x11ef2);
   (0x11fb0, 0x11fb0); (0x12000, 0x12399); (0x12480, 0x12543);
   (0x12f90, 0x12ff0); (0x13000, 0x1342e); (0x14400, 0x14646);
   (0x16800, 0x16a38); (0x16a40, 0x16a5e); (0x16a70, 0x16abe);
   (0x16ad0, 0x16aed); (0x16b00, 0x16b2f); (0x16b40, 0x16b43);
   (0x16b63, 0x16b77); (0x16b7d, 0x16b8f); (0x16e40, 0x16e7f);
   (0x16f00, 0x16f4a); (0x16f50, 0x16f50); (0x16f93, 0x16f9f);
   (0x16fe0, 0x16fe1); (0x16fe3, 0x16fe3); (0x17000, 0x187f7);
   (0x18800, 0x18cd5); (0x18d00, 0x18d08); (0x1aff0, 0x1aff3);
   (0x1aff5, 0x1affb); (0x1affd, 0x1affe); (0x1b000, 0x1b122);
   (0x1b150, 0x1b152); (0x1b164, 0x1b167); (0x1b170, 0x1b2fb);
   (0x1bc00, 0x1bc6a); (0x1bc70, 0x1bc7c); (0x1bc80, 0x1bc88);
   (0x1bc90, 0x1bc99); (0x1d400, 0x1d454); (0x1d456, 0x1d49c);
   (0x1d49e, 0x1d49f); (0x1d4a2, 0x1d4a2); (0x1d4a5, 0x1d4a6);
   (0x1d4a9, 0x1d4ac); (0x1d4ae, 0x1d4b9); (0x1d4bb, 0x1d4bb);
   (0x1d4bd, 0x1d4c3); (0x1d4c5, 0x1d505); (0x1d507, 0x1d50a);
   (0x1d50d, 0x1d514); (0x1d516, 0x1d51c); (0x1d51e, 0x1d539);
   (0x1d53b, 0x1d53e); (0x1d540, 0x1d544); (0x1d546, 0x1d546);
   (0x1d54a, 0x1d550); (0x1d552, 0x1d6a5); (0x1d6a8, 0x1d6c0);
   (0x1d6c2, 0x1d6da); (0x1d6dc, 0x1d6fa); (0x1d6fc, 0x1d714);
   (0x1d716, 0x1d734); (0x1d736, 0x1d74e); (0x1d750, 0x1d76e);
   (0x1d770, 0x1d788); (0x1d78a, 0x1d7a8); (0x1d7aa, 0x1d7c2);
   (0x1d7c4, 0x1d7cb); (0x1df00, 0x1df1e); (0x1e100, 0x1e12c);
   (0x1e137, 0x1e13d); (0x1e14e, 0x1e14e); (0x1e290, 0x1e2ad);
   (0x1e2c0, 0x1e2eb); (0x1e7e0, 0x1e7e6); (0x1e7e8, 0x1e7eb);
   (0x1e7ed, 0x1e7ee); (0x1e7f0, 0x1e7fe); (0x1e800, 0x1e8c4);
   (0x1e900, 0x1e943); (0x1e94b, 0x1e94b); (0x1ee00, 0x1ee03);
   (0x1ee05, 0x1ee1f); (0x1ee21, 0x1ee22); (0x1ee24, 0x1ee24);
   (0x1ee27, 0x1ee27); (0x1ee29, 0x1ee32); (0x1ee34, 0x1ee37);
   (0x1ee39, 0x1ee39); (0x1ee3b, 0x1ee3b); (0x1ee42, 0x1ee42);
   (0x1ee47, 0x1ee47); (0x1ee49, 0x1ee49); (0x1ee4b, 0x1ee4b);
   (0x1ee4d, 0x1ee4f); (0x1ee51, 0x1ee52); (0x1ee54, 0x1ee54);
   (0x1ee57, 0x1ee57); (0x1ee59, 0x1ee59); (0x1ee5b, 0x1ee5b);
   (0x1ee5d, 0x1ee5d); (0x1ee5f, 0x1ee5f); (0x1ee61, 0x1ee62);
   (0x1ee64, 0x1ee64); (0x1ee67, 0x1ee6a); (0x1ee6c, 0x1ee72);
   (0x1ee74, 0x1ee77); (0x1ee79, 0x1ee7c); (0x1ee7e, 0x1ee7e);
   (0x1ee80, 0x1ee89); (0x1ee8b, 0x1ee9b); (0x1eea1, 0x1eea3);
   (0x1eea5, 0x1eea9); (0x1eeab, 0x1eebb); (0x20000, 0x2a6df);
   (0x2a700, 0x2b738); (0x2b740, 0x2b81d); (0x2b820, 0x2cea1);
   (0x2ceb0, 0x2ebe0); (0x2f800, 0x2fa1d); (0x30000, 0x3134a)
  ] : list (N * N))%N.

Definition isalpha (c : N) : bool :=
  existsb (fun r => in_range (fst r) (snd r) c) letters.

End Unicode.

(** ** The [str] methods the engine calls *)

Fixpoint lstrip (s : str) : str :=
  match s with
  | c :: s' => if Unicode.isspace c then lstrip s' else s
  | [] => []
  end.

Definition rstrip (s : str) : str := rev (lstrip (rev s)).

(** [s.strip()] *)
Definition strip (s : str) : str := rstrip (lstrip s).

(** [s.split('\n')]: never empty, one more piece than separators. *)
Fixpoint split (sep : N) (s : str) : list str :=
  match s with
  | [] => [[]]
  | c :: s' =>
      if (c =? sep)%N then [] :: split sep s'
      else match split sep s' with
           | l :: ls => (c :: l) :: ls
           | [] => [[c]]
           end
  end.

(** ['\n' in s] *)
Definition contains (c : N) (s : str) : bool := existsb (N.eqb c) s.

(** [s.count('\n')] *)
Definition count (c : N) (s : str) : Z :=
  Z.of_nat (length (filter (fun x => N.eqb c x = true) s)).

(** [len(s)] *)
Definition len (s : str) : Z := Z.of_nat (length s).

(** Truth value of a string: [if s] / [if not s]. *)
Definition nonempty (s : str) : bool :=
  match s with [] => false | _ => true end.

Definition str_eqb (a b : str) : bool := bool_decide (a = b).

(** * Regular expressions

    The patterns of the source, run by a backtracking matcher that explores
    alternatives in the order of Python's [re]: a greedy repeat tries the
    longest run first, a lazy repeat the shortest.  Every repeat of the
    source is over a single character class. *)

Module Re.

Inductive node :=
| In (cls : N -> bool)          (* one character of the class *)
| MaxRepeat (cls : N -> bool)   (* [cls*], greedy *)
| MinRepeat (cls : N -> bool)   (* [cls*?], lazy *)
| Mark (slot : nat)             (* group [g] opens at slot [2g-2], closes at [2g-1] *)
| AtBeginning                   (* [^] *)
| AtEnd.                        (* [$]: at the end, or before a final newline *)

Definition pattern := list node.

(** Saved group boundaries, most recent first. *)
Definition marks := list (nat * nat).

Definition at_end (rest : str) : bool :=
  match rest with
  | [] => true
  | [c] => (c =? NL)%N
  | _ => false
  end.

(** [run p pos rest ms]: match [p] against [rest], the text from offset
    [pos] on; the result is the offset where the match ends and the marks. *)
Fixpoint run (p : pattern) : nat -> str -> marks -> option (nat * marks) :=
  match p with
  | [] => fun pos _ ms => Some (pos, ms)
  | n :: p' =>
      let k := run p' in
      match n with
      | In cls => fun pos rest ms =>
          match rest with
          | c :: rest' => if cls c then k (S pos) rest' ms else None
          | [] => None
          end
      | MaxRepeat cls =>
          fix more (pos : nat) (rest : str) (ms : marks) :=
            match rest with
            | c :: rest' =>
                if cls c then
                  match more (S pos) rest' ms with
                  | Some r => Some r
                  | None => k pos rest ms
                  end
                else k pos rest ms
            | [] => k pos rest ms
            end
      | MinRepeat cls =>
          fix more (pos : nat) (rest : str) (ms : marks) :=
            match k pos rest ms with
            | Some r => Some r
            | None =>
                match rest with
                | c :: rest' => if cls c then more (S pos) rest' ms else None
                | [] => None
                end
            end
      | Mark slot => fun pos rest ms => k pos rest ((slot, pos) :: ms)
      | AtBeginning => fun pos rest ms =>
          if Nat.eqb pos 0 then k pos rest ms else None
      | AtEnd => fun pos rest ms =>
          if at_end rest then k pos rest ms else None
      end
  end.

(** [re.match(p, s)] *)
Definition rmatch (p : pattern) (s : str) : option (nat * marks) :=
  run p 0%nat s [].

(** [re.search(p, s)]: the first offset at which [p] matches. *)
Fixpoint search_from (p : pattern) (pos : nat) (rest : str)
  : option (nat * marks) :=
  match run p pos rest [] with
  | Some r => Some r
  | None =>
      match rest with
      | _ :: rest' => search_from p (S pos) rest'
      | [] => None
      end
  end.

Definition search (p : pattern) (s : str) : option (nat * marks) :=
  search_from p 0%nat s.

(** Truth value of a match result: [if m] / [bool(m)]. *)
Definition found (m : option (nat * marks)) : bool :=
  match m with Some _ => true | None => false end.

Fixpoint slot (n : nat) (ms : marks) : option nat :=
  match ms with
  | (m, pos) :: ms' => if Nat.eqb m n then Some pos else slot n ms'
  | [] => None
  end.

(** [m.group(g)] for a group that took part in the match. *)
Definition group (s : str) (ms : marks) (g : nat) : str :=
  match slot (2 * g - 2) ms, slot (2 * g - 1) ms with
  | Some b, Some e => take (e - b) (drop b s)
  | _, _ => []
  end.

(** Character classes of the source's patterns. *)
Definition lit (a : N) : N -> bool := N.eqb a.
Definition any : N -> bool := fun c => negb (c =? NL)%N.        (* [.] *)
Definition latin : N -> bool :=                                  (* [[a-zA-Z]] *)
  fun c => in_range 0x61 0x7a c || in_range 0x41 0x5a c.
Definition space : N -> bool := Unicode.isspace.                 (* [\s] *)
Definition latin_or_space : N -> bool :=                         (* [[A-Za-z\s]] *)
  fun c => in_range 0x41 0x5a c || in_range 0x61 0x7a c || space c.
Definition cjk : N -> bool := in_range 0x4e00 0x9fa5.            (* [[一-龥]] *)
Definition not_paren : N -> bool :=                              (* [[^()]] *)
  fun c => negb ((c =? 0x28)%N || (c =? 0x29)%N).

End Re.

Definition LPAREN : N := 0x28%N.
Definition RPAREN : N := 0x29%N.

(** * Cell classifier *)

(** [r'\([a-zA-Z].*\)$'] *)
Definition translated_re : Re.pattern :=
  [Re.In (Re.lit LPAREN); Re.In Re.latin; Re.MaxRepeat Re.any;
   Re.In (Re.lit RPAREN); Re.AtEnd].

(** [r'^(.*?)\s*\(([A-Za-z\s].*?)\)\s*$'] *)
Definition bracket_re : Re.pattern :=
  [Re.AtBeginning; Re.Mark 0; Re.MinRepeat Re.any; Re.Mark 1;
   Re.MaxRepeat Re.space; Re.In (Re.lit LPAREN);
   Re.Mark 2; Re.In Re.latin_or_space; Re.MinRepeat Re.any; Re.Mark 3;
   Re.In (Re.lit RPAREN); Re.MaxRepeat Re.space; Re.AtEnd].

(** [r'[一-龥]'] *)
Definition chinese_re : Re.pattern := [Re.In Re.cjk].

(** [is_already_translated], on a [str] argument. *)
Definition is_already_translated (cell_value : str) : bool :=
  if Re.found (Re.search translated_re cell_value) then true
  else if contains NL cell_value then
    let parts := split NL cell_value in
    if (2 <=? Z.of_nat (length parts)) then
      let first_part := strip (hd [] parts) in
      if existsb Unicode.isalpha first_part then true else false
    else false
  else false.

(** [check_and_adjust_translation_order], on a [str] argument. *)
Definition check_and_adjust_translation_order (cell_value : str) : str :=
  match Re.rmatch bracket_re cell_value with
  | Some (_, ms) =>
      let chinese_part := strip (Re.group cell_value ms 1) in
      let english_part := strip (Re.group cell_value ms 2) in
      english_part ++ [NL] ++ chinese_part
  | None =>
      if contains NL cell_value then
        let parts :=
          filter (fun part => nonempty part = true)
                 (map strip (split NL cell_value)) in
        match parts with
        | [part1; part2] =>
            let has_chinese1 := Re.found (Re.search chinese_re part1) in
            let has_chinese2 := Re.found (Re.search chinese_re part2) in
            if has_chinese1 && negb has_chinese2 then part2 ++ [NL] ++ part1
            else if negb has_chinese1 && has_chinese2 then cell_value
            else cell_value
        | _ => cell_value
        end
      else cell_value
  end.

(** * Floating point

    Python's [float] is IEEE 754 binary64.  A finite double is a rational;
    [fl] rounds a rational to the nearest one with a 53-bit significand,
    ties to even.  The exponent is not bounded: overflow and subnormals do
    not arise for cell counts and text lengths. *)

Module Float.
Local Open Scope Q_scope.

(** [floor (log2 x)] for [0 < x]. *)
Definition ilog2 (x : Q) : Z :=
  let k := (Z.log2 (Qnum x) - Z.log2 (Zpos (Qden x)))%Z in
  if Qle_bool (2 ^ k) x then k else (k - 1)%Z.

(** Nearest integer, ties to even. *)
Definition rne (y : Q) : Z :=
  let f := Qfloor y in
  match Qcompare (y - inject_Z f) (1 # 2) with
  | Lt => f
  | Gt => (f + 1)%Z
  | Eq => if Z.even f then f else (f + 1)%Z
  end.

(** Spacing of the doubles in the binade of [x]. *)
Definition ulp (x : Q) : Q := 2 ^ (ilog2 x - 52).

Definition round_pos (x : Q) : Q := inject_Z (rne (x / ulp x)) * ulp x.

Definition fl (x : Q) : Q :=
  match Qcompare 0 x with
  | Eq => 0
  | Lt => round_pos x
  | Gt => - round_pos (- x)
  end.

(** [a / b] on two [int]s: the correctly rounded quotient. *)
Definition truediv (a b : Z) : Q := fl (inject_Z a / inject_Z b).

(** [x * y] and [x + y] on floats. *)
Definition mul (x y : Q) : Q := fl (x * y).
Definition add (x y : Q) : Q := fl (x + y).

(** [float(n)] and the literal of a decimal constant. *)
Definition of_int (n : Z) : Q := fl (inject_Z n).
Definition literal (x : Q) : Q := fl x.

(** [int(x)]: truncation toward zero. *)
Definition to_int (x : Q) : Z := if Qle_bool 0 x then Qfloor x else Qceiling x.

End Float.

(** * Translation client *)

(** [str(n)] for an [int]. *)
Definition str_of_int (n : Z) : str := py (NilZero.string_of_int (Z.to_int n)).

(** [s.encode()]: UTF-8; a surrogate code point raises [UnicodeEncodeError]. *)
Definition encode_char (c : N) : option (list Z) :=
  let z := Z.of_N c in
  if z <? 0x80 then Some [z]
  else if z <? 0x800 then
    Some [Z.lor 0xc0 (Z.shiftr z 6); Z.lor 0x80 (Z.land z 0x3f)]
  else if (0xd800 <=? z) && (z <=? 0xdfff) then None
  else if z <? 0x10000 then
    Some [Z.lor 0xe0 (Z.shiftr z 12); Z.lor 0x80 (Z.land (Z.shiftr z 6) 0x3f);
          Z.lor 0x80 (Z.land z 0x3f)]
  else if z <? 0x110000 then
    Some [Z.lor 0xf0 (Z.shiftr z 18); Z.lor 0x80 (Z.land (Z.shiftr z 12) 0x3f);
          Z.lor 0x80 (Z.land (Z.shiftr z 6) 0x3f); Z.lor 0x80 (Z.land z 0x3f)]
  else None.

Fixpoint encode (s : str) : option (list Z) :=
  match s with
  | [] => Some []
  | c :: s' =>
      match encode_char c, encode s' with
      | Some b, Some bs => Some (b ++ bs)
      | _, _ => None
      end
  end.

(** [hashlib.md5], after RFC 1321; 32-bit words as [Z] with the wrap-around
    written out. *)
Module Md5.

Definition mask32 (x : Z) : Z := Z.land x 0xffffffff.
Definition add32 (x y : Z) : Z := mask32 (x + y).
Definition not32 (x : Z) : Z := Z.lxor x 0xffffffff.
Definition rotl32 (x c : Z) : Z :=
  mask32 (Z.lor (Z.shiftl x c) (Z.shiftr x (32 - c))).

Definition S : list Z :=
  [7; 12; 17; 22; 7; 12; 17; 22; 7; 12; 17; 22; 7; 12; 17; 22;
   5; 9; 14; 20; 5; 9; 14; 20; 5; 9; 14; 20; 5; 9; 14; 20;
   4; 11; 16; 23; 4; 11; 16; 23; 4; 11; 16; 23; 4; 11; 16; 23;
   6; 10; 15; 21; 6; 10; 15; 21; 6; 10; 15; 21; 6; 10; 15; 21].

(** [K i = floor (2^32 * abs (sin (i + 1)))] *)
Definition K : list Z :=
  [0xd76aa478; 0xe8c7b756; 0x242070db; 0xc1bdceee; 0xf57c0faf; 0x4787c62a;
   0xa8304613; 0xfd469501; 0x698098d8; 0x8b44f7af; 0xffff5bb1; 0x895cd7be;
   0x6b901122; 0xfd987193; 0xa679438e; 0x49b40821; 0xf61e2562; 0xc040b340;
   0x265e5a51; 0xe9b6c7aa; 0xd62f105d; 0x02441453; 0xd8a1e681; 0xe7d3fbc8;
   0x21e1cde6; 0xc33707d6; 0xf4d50d87; 0x455a14ed; 0xa9e3e905; 0xfcefa3f8;
   0x676f02d9; 0x8d2a4c8a; 0xfffa3942; 0x8771f681; 0x6d9d6122; 0xfde5380c;
   0xa4beea44; 0x4bdecfa9; 0xf6bb4b60; 0xbebfbc70; 0x289b7ec6; 0xeaa127fa;
   0xd4ef3085; 0x04881d05; 0xd9d4d039; 0xe6db99e5; 0x1fa27cf8; 0xc4ac5665;
   0xf4292244; 0x432aff97; 0xab9423a7; 0xfc93a039; 0x655b59c3; 0x8f0ccc92;
   0xffeff47d; 0x85845dd1; 0x6fa87e4f; 0xfe2ce6e0; 0xa3014314; 0x4e0811a1;
   0xf7537e82; 0xbd3af235; 0x2ad7d2bb; 0xeb86d391].

(** The [n] low bytes of [x], least significant first. *)
Definition le_bytes (n : nat) (x : Z) : list Z :=
  map (fun i => Z.land (Z.shiftr x (8 * Z.of_nat i)) 0xff) (seq 0 n).

Fixpoint le_word (bs : list Z) : Z :=
  match bs with
  | [] => 0
  | b :: bs' => b + 256 * le_word bs'
  end.

Definition padding (msg : list Z) : list Z :=
  let l := Z.of_nat (length msg) in
  msg ++ [0x80] ++ repeat 0 (Z.to_nat ((55 - l) mod 64))
      ++ le_bytes 8 ((8 * l) mod 2 ^ 64).

(** The first [k] chunks of [n] elements. *)
Fixpoint chunks (n k : nat) (l : list Z) : list (list Z) :=
  match k with
  | O => []
  | Datatypes.S k' => take n l :: chunks n k' (drop n l)
  end.

Definition step (M : list Z) (st : Z * Z * Z * Z) (i : nat) : Z * Z * Z * Z :=
  let '(A, B, C, D) := st in
  let iz := Z.of_nat i in
  let '(F, g) :=
    if (i <? 16)%nat then (Z.lor (Z.land B C) (Z.land (not32 B) D), iz)
    else if (i <? 32)%nat then
      (Z.lor (Z.land D B) (Z.land (not32 D) C), (5 * iz + 1) mod 16)
    else if (i <? 48)%nat then (Z.lxor (Z.lxor B C) D, (3 * iz + 5) mod 16)
    else (Z.lxor C (Z.lor B (not32 D)), (7 * iz) mod 16) in
  let F' := add32 (add32 (add32 F A) (nth i K 0)) (nth (Z.to_nat g) M 0) in
  (D, add32 B (rotl32 F' (nth i S 0)), B, C).

Definition block (st : Z * Z * Z * Z) (blk : list Z) : Z * Z * Z * Z :=
  let M := map le_word (chunks 4 16 blk) in
  let '(a0, b0, c0, d0) := st in
  let '(A, B, C, D) := fold_left (step M) (seq 0 64) st in
  (add32 a0 A, add32 b0 B, add32 c0 C, add32 d0 D).

Definition digest (msg : list Z) : list Z :=
  let p := padding msg in
  let '(a, b, c, d) :=
    fold_left block (chunks 64 (length p / 64) p)
              (0x67452301, 0xefcdab89, 0x98badcfe, 0x10325476) in
  le_bytes 4 a ++ le_bytes 4 b ++ le_bytes 4 c ++ le_bytes 4 d.

Definition hex_digit (d : Z) : N :=
  Z.to_N (if d <? 10 then 0x30 + d else 0x61 + (d - 10)).

(** [hashlib.md5(msg).hexdigest()] *)
Definition hexdigest (msg : list Z) : str :=
  flat_map (fun b => [hex_digit (b / 16); hex_digit (b mod 16)]) (digest msg).

End Md5.

(** [random.randint(a, b)] returns an integer [N] with [a <= N <= b]; [u] is
    the generator's raw output. *)
Definition randint (a b u : Z) : Z := a + u mod (b - a + 1).

(** The query parameters of the request. *)
Record params := {
  q : str;
  from_ : str;
  to_ : str;
  appid : str;
  salt : Z;
  sign : str
}.

(** What comes back from [requests.get] and [response.json()]. *)
Inductive reply :=
| RequestException              (* transport failure, HTTP error status *)
| NotJson                       (* [ValueError] of [response.json()] *)
| ErrorCode (error_code : str)  (* [{'error_code': ..., 'error_msg': ...}] *)
| TransResult (dst : str)       (* [{'trans_result': [{'dst': ...}, ...]}] *)
| Malformed.                    (* any other shape: [KeyError], [IndexError] *)

Definition ERROR_54003 : str := py "ERROR_54003".

(** The signed request of [baidu_translate]: lines up to the [try]. *)
Definition baidu_request (query app_id app_key : str) (u : Z) : option params :=
  let salt := randint 32768 65536 u in
  let sign_str := app_id ++ query ++ str_of_int salt ++ app_key in
  match encode sign_str with
  | Some bytes =>
      Some {| q := query; from_ := py "zh"; to_ := py "en"; appid := app_id;
              salt := salt; sign := Md5.hexdigest bytes |}
  | None => None
  end.

(** The classification of the response: the [try] block. *)
Definition baidu_result (r : reply) : option str :=
  match r with
  | ErrorCode error_code =>
      if str_eqb error_code (py "54003") then Some ERROR_54003
      else if str_eqb error_code (py "52003") then None
      else None
  | TransResult dst => Some dst
  | RequestException => None
  | NotJson => None
  | Malformed => None
  end.

(** * The document store (openpyxl) *)

Record PatternFill := {
  start_color : str;
  end_color : str;
  fill_type : str
}.

Record Font := {
  color : str;
  bold : bool
}.

Record Alignment := {
  wrap_text : bool;
  vertical : str
}.

(** What a cell can hold. *)
Inductive cell_value :=
| Empty                     (* [None] *)
| Text (s : str)
| Number (n : Z)
| Boolean (b : bool).

Record cell := {
  value : cell_value;
  fill : option PatternFill;
  font : option Font;
  alignment : option Alignment
}.

Definition blank_cell : cell :=
  {| value := Empty; fill := None; font := None; alignment := None |}.

(** A worksheet: its cells by (row, column), the last row, and the
    dimensions the pass writes. *)
Record worksheet := {
  cells : gmap (Z * Z) cell;
  max_row : Z;
  column_width : gmap Z Q;
  row_height : gmap Z Z
}.

Definition blank_sheet : worksheet :=
  {| cells := ∅; max_row := 1; column_width := ∅; row_height := ∅ |}.

(** A workbook: its worksheets by title, in order. *)
Definition workbook := list (str * worksheet).

Definition sheetnames (b : workbook) : list str := map fst b.

Definition has_title (ws : str) (p : str * worksheet) : bool :=
  bool_decide (fst p = ws).

(** [wb[ws]]; a worksheet object is named by its title. *)
Definition sheet (ws : str) (b : workbook) : worksheet :=
  match find (has_title ws) b with
  | Some p => snd p
  | None => blank_sheet
  end.

Definition with_sheet (ws : str) (f : worksheet -> worksheet) (b : workbook)
  : workbook :=
  map (fun p => if has_title ws p then (fst p, f (snd p)) else p) b.

Definition cell_at (sh : worksheet) (row column : Z) : cell :=
  match cells sh !! (row, column) with
  | Some c => c
  | None => blank_cell
  end.

Definition with_cell (row column : Z) (f : cell -> cell) (sh : worksheet)
  : worksheet :=
  {| cells := <[(row, column) := f (cell_at sh row column)]> (cells sh);
     max_row := max_row sh;
     column_width := column_width sh;
     row_height := row_height sh |}.

(** Reading a cell creates it: past the last row, the last row moves. *)
Definition touch (row : Z) (sh : worksheet) : worksheet :=
  {| cells := cells sh;
     max_row := Z.max (max_row sh) row;
     column_width := column_width sh;
     row_height := row_height sh |}.

Definition with_width (column : Z) (w : Q) (sh : worksheet) : worksheet :=
  {| cells := cells sh;
     max_row := max_row sh;
     column_width := <[column := w]> (column_width sh);
     row_height := row_height sh |}.

Definition with_height (row : Z) (h : Z) (sh : worksheet) : worksheet :=
  {| cells := cells sh;
     max_row := max_row sh;
     column_width := column_width sh;
     row_height := <[row := h]> (row_height sh) |}.

Definition set_value (v : cell_value) (c : cell) : cell :=
  {| value := v; fill := fill c; font := font c; alignment := alignment c |}.
Definition set_fill (x : PatternFill) (c : cell) : cell :=
  {| value := value c; fill := Some x; font := font c; alignment := alignment c |}.
Definition set_font (x : Font) (c : cell) : cell :=
  {| value := value c; fill := fill c; font := Some x; alignment := alignment c |}.
Definition set_alignment (x : Alignment) (c : cell) : cell :=
  {| value := value c; fill := fill c; font := font c; alignment := Some x |}.

(** The characters a cell text may not hold: [[\000-\010]|[\013-\014]|[\016-\037]]. *)
Definition illegal_character (c : N) : bool :=
  in_range 0 8 c || in_range 11 12 c || in_range 14 31 c.

(** [Cell.check_string], which the setter of [cell.value] applies to a
    [str]: the text is cut at 32767 characters, and a control character
    left in it is an [IllegalCharacterError] ([None]). *)
Definition check_string (value : str) : option str :=
  let value := take (Z.to_nat 32767) value in
  if existsb illegal_character value then None else Some value.

(** [str.upper()], as far as a column name can tell.  The upper case of a
    character is given as it is wherever it holds a letter of [A-Z]: the
    letters [a-z], and the characters with a special upper case ([ß] is
    [SS], [ŉ] is [ʼN], [ﬃ] is [FFI], ...).  Any other character stands for
    its own upper case, which like it is not empty and holds no letter of
    [A-Z]. *)
Definition upper_char (c : N) : str :=
  if in_range 0x61 0x7a c then [(c - 0x20)%N]
  else if (c =? 0xdf)%N then py "SS"
  else if (c =? 0x131)%N then py "I"
  else if (c =? 0x149)%N then [0x2bc; 0x4e]%N
  else if (c =? 0x17f)%N then py "S"
  else if (c =? 0x1f0)%N then [0x4a; 0x30c]%N
  else if (c =? 0x1e96)%N then [0x48; 0x331]%N
  else if (c =? 0x1e97)%N then [0x54; 0x308]%N
  else if (c =? 0x1e98)%N then [0x57; 0x30a]%N
  else if (c =? 0x1e99)%N then [0x59; 0x30a]%N
  else if (c =? 0x1e9a)%N then [0x41; 0x2be]%N
  else if (c =? 0xfb00)%N then py "FF"
  else if (c =? 0xfb01)%N then py "FI"
  else if (c =? 0xfb02)%N then py "FL"
  else if (c =? 0xfb03)%N then py "FFI"
  else if (c =? 0xfb04)%N then py "FFL"
  else if (c =? 0xfb05)%N then py "ST"
  else if (c =? 0xfb06)%N then py "ST"
  else [c].

Definition upper (s : str) : str := flat_map upper_char s.

(** The loop of [column_index_from_string] over
    [zip(reversed(col.upper()), (1, 26, 676))]: a character that is not a
    letter of [A-Z] is a [ValueError] ([None]). *)
Fixpoint column_sum (letters : str) (powers : list Z) (idx : Z) : option Z :=
  match letters, powers with
  | letter :: letters', power :: powers' =>
      if in_range 0x41 0x5a letter then
        column_sum letters' powers' (idx + (Z.of_N letter - 0x40) * power)
      else None
  | _, _ => Some idx
  end.

(** [column_index_from_string] (openpyxl 3.1): a name of more than three
    characters is a [ValueError] ([None]); the last three characters of its
    upper case are read as a number in base 26, which must lie between 1
    (['A']) and 18278 (['ZZZ']). *)
Definition column_index_from_string (col : str) : option Z :=
  if len col >? 3 then None
  else
    match column_sum (rev (upper col)) [1; 26; 676] 0 with
    | Some idx => if (0 <? idx) && (idx <? 18279) then Some idx else None
    | None => None
    end.

(** * Task record *)

Inductive task_status := Pending | Running | Completed | Failed.

(** The texts assigned to [task.message], by format string. *)
Inductive message_text :=
| MsgNone                                   (* [""] *)
| MsgBadRange (start_row end_row : Z)
| MsgProgress (sheet cell : str) (translated skipped errors : Z)
| MsgRateLimited
| MsgTesting
| MsgTestFailed
| MsgTestPassed
| MsgLoading (filename : str)
| MsgNoFile (filename : str)
| MsgLoaded
| MsgLoadError
| MsgNoSheets
| MsgCounting
| MsgNothing
| MsgFound (translatable skippable : Z)
| MsgSheet (sheet_name : str)
| MsgSaved
| MsgSaveFailed
| MsgError.

Record Task := MkTask {
  task_id : str;
  filename : str;
  columns : list str;
  start_row : Z;
  end_row : option Z;
  sheet_names : option (list str);
  app_id : str;
  app_key : str;
  status : task_status;
  progress : Z;
  total_cells : Z;
  translated_cells : Z;
  error_cells : Z;
  skipped_cells : Z;
  current_sheet : str;
  current_cell : str;
  message : message_text;
  output_file : str;
  start_time : option Q;
  end_time : option Q
}.

(** [TranslationTask.__init__] *)
Definition TranslationTask (task_id filename : str) (columns : list str)
    (start_row : Z) (end_row : option Z) (sheet_names : option (list str))
    (app_id app_key : str) : Task :=
  MkTask task_id filename columns start_row end_row sheet_names app_id app_key
         Pending 0 0 0 0 0 [] [] MsgNone [] None None.

(** Attribute assignment, one function per assigned attribute. *)
Definition with_sheet_names (v : option (list str)) (t : Task) : Task :=
  let 'MkTask a b c d e _ g h i j k l m n o p q r s u := t in
  MkTask a b c d e v g h i j k l m n o p q r s u.
Definition with_status (v : task_status) (t : Task) : Task :=
  let 'MkTask a b c d e f g h _ j k l m n o p q r s u := t in
  MkTask a b c d e f g h v j k l m n o p q r s u.
Definition with_progress (v : Z) (t : Task) : Task :=
  let 'MkTask a b c d e f g h i _ k l m n o p q r s u := t in
  MkTask a b c d e f g h i v k l m n o p q r s u.
Definition with_total_cells (v : Z) (t : Task) : Task :=
  let 'MkTask a b c d e f g h i j _ l m n o p q r s u := t in
  MkTask a b c d e f g h i j v l m n o p q r s u.
Definition with_translated_cells (v : Z) (t : Task) : Task :=
  let 'MkTask a b c d e f g h i j k _ m n o p q r s u := t in
  MkTask a b c d e f g h i j k v m n o p q r s u.
Definition with_error_cells (v : Z) (t : Task) : Task :=
  let 'MkTask a b c d e f g h i j k l _ n o p q r s u := t in
  MkTask a b c d e f g h i j k l v n o p q r s u.
Definition with_skipped_cells (v : Z) (t : Task) : Task :=
  let 'MkTask a b c d e f g h i j k l m _ o p q r s u := t in
  MkTask a b c d e f g h i j k l m v o p q r s u.
Definition with_current_sheet (v : str) (t : Task) : Task :=
  let 'MkTask a b c d e f g h i j k l m n _ p q r s u := t in
  MkTask a b c d e f g h i j k l m n v p q r s u.
Definition with_current_cell (v : str) (t : Task) : Task :=
  let 'MkTask a b c d e f g h i j k l m n o _ q r s u := t in
  MkTask a b c d e f g h i j k l m n o v q r s u.
Definition with_message (v : message_text) (t : Task) : Task :=
  let 'MkTask a b c d e f g h i j k l m n o p _ r s u := t in
  MkTask a b c d e f g h i j k l m n o p v r s u.
Definition with_output_file (v : str) (t : Task) : Task :=
  let 'MkTask a b c d e f g h i j k l m n o p q _ s u := t in
  MkTask a b c d e f g h i j k l m n o p q v s u.
Definition with_start_time (v : option Q) (t : Task) : Task :=
  let 'MkTask a b c d e f g h i j k l m n o p q r _ u := t in
  MkTask a b c d e f g h i j k l m n o p q r v u.
Definition with_end_time (v : option Q) (t : Task) : Task :=
  let 'MkTask a b c d e f g h i j k l m n o p q r s _ := t in
  MkTask a b c d e f g h i j k l m n o p q r s v.

(** [translated_cells + error_cells + skipped_cells] *)
Definition total_processed (t : Task) : Z :=
  translated_cells t + error_cells t + skipped_cells t.

(** * The engine's world and state *)

(** The attributes of the task that the engine assigns. *)
Inductive attribute :=
| a_sheet_names | a_status | a_progress | a_total_cells | a_translated_cells
| a_error_cells | a_skipped_cells | a_current_sheet | a_current_cell
| a_message | a_output_file | a_start_time | a_end_time.

(** What an outside observer can see of a run, in order. *)
Inductive event :=
| Assign (a : attribute) (t : Task)   (* [task.a = ...]; the record after it *)
| Sleep (seconds : Q)                 (* [time.sleep] *)
| Get (p : params)                    (* [requests.get] *)
| Save (path : str) (b : workbook).   (* [wb.save] *)

(** A file on disk, as [os.path.exists] and [load_workbook] see it. *)
Inductive file :=
| Missing
| Unreadable
| Xlsx (b : workbook).

(** Everything the engine does not decide. *)
Record world := {
  random : nat -> Z;         (* raw output of the generator, per call *)
  network : nat -> reply;    (* what the n-th request gets back *)
  clock : nat -> Q;          (* [time.time()] *)
  now : str;                 (* [datetime.now().strftime("%Y%m%d_%H%M%S")] *)
  disk : str -> file;
  writable : str -> bool     (* whether [wb.save(path)] succeeds *)
}.

Record state := {
  wb : workbook;             (* the loaded document *)
  task : Task;               (* the task record *)
  calls : nat;               (* requests sent so far *)
  trace : list event         (* most recent first *)
}.

Inductive exn := ValueError | UnicodeEncodeError | IllegalCharacterError.

Inductive outcome (A : Type) :=
| Val (a : A)
| Raise (e : exn).
Arguments Val {A} a.
Arguments Raise {A} e.

(** A statement: it may change the state, and ends in a value or an
    exception. *)
Definition M (A : Type) : Type := state -> outcome A * state.

Definition ret {A} (a : A) : M A := fun s => (Val a, s).

Definition bind {A B} (m : M A) (k : A -> M B) : M B :=
  fun s =>
    match m s with
    | (Val a, s') => k a s'
    | (Raise e, s') => (Raise e, s')
    end.

Definition raise {A} (e : exn) : M A := fun s => (Raise e, s).

(** [try: m except e: h] *)
Definition try_except {A} (m : M A) (h : exn -> M A) : M A :=
  fun s =>
    match m s with
    | (Val a, s') => (Val a, s')
    | (Raise e, s') => h e s'
    end.

Declare Scope M_scope.
Delimit Scope M_scope with M.
Bind Scope M_scope with M.
Notation "'let*' x ':=' m 'in' k" := (bind m (fun x => k))
  (at level 10, x name, m at level 100, k at level 200) : M_scope.
Notation "m ';;' k" := (bind m (fun _ => k))
  (at level 100, k at level 200, right associativity) : M_scope.
Local Open Scope M_scope.

Definition get_task : M Task := fun s => (Val (task s), s).
Definition get_wb : M workbook := fun s => (Val (wb s), s).

Definition emit (e : event) : M unit :=
  fun s =>
    (Val tt, {| wb := wb s; task := task s; calls := calls s;
                trace := e :: trace s |}).

Definition assign (a : attribute) (f : Task -> Task) : M unit :=
  fun s =>
    let t := f (task s) in
    (Val tt, {| wb := wb s; task := t; calls := calls s;
                trace := Assign a t :: trace s |}).

Definition set_wb (b : workbook) : M unit :=
  fun s =>
    (Val tt, {| wb := b; task := task s; calls := calls s; trace := trace s |}).

Definition update_sheet (ws : str) (f : worksheet -> worksheet) : M unit :=
  fun s =>
    (Val tt, {| wb := with_sheet ws f (wb s); task := task s;
                calls := calls s; trace := trace s |}).

(** [cell.value = text], for the cell at [(row, column)] of [ws] and a
    [str]: the cell holds the checked text, or the assignment raises and
    the cell is as before. *)
Definition assign_cell_text (ws : str) (row column : Z) (text : str) : M unit :=
  match check_string text with
  | Some stored => update_sheet ws (with_cell row column (set_value (Text stored)))
  | None => raise IllegalCharacterError
  end.

Definition set_sheet_names v := assign a_sheet_names (with_sheet_names v).
Definition set_status v := assign a_status (with_status v).
Definition set_progress v := assign a_progress (with_progress v).
Definition set_total_cells v := assign a_total_cells (with_total_cells v).
Definition set_translated_cells v :=
  assign a_translated_cells (with_translated_cells v).
Definition set_error_cells v := assign a_error_cells (with_error_cells v).
Definition set_skipped_cells v := assign a_skipped_cells (with_skipped_cells v).
Definition set_current_sheet v := assign a_current_sheet (with_current_sheet v).
Definition set_current_cell v := assign a_current_cell (with_current_cell v).
Definition set_message v := assign a_message (with_message v).
Definition set_output_file v := assign a_output_file (with_output_file v).
Definition set_start_time v := assign a_start_time (with_start_time v).
Definition set_end_time v := assign a_end_time (with_end_time v).

(** [time.sleep(seconds)] *)
Definition sleep (seconds : Q) : M unit := emit (Sleep seconds).

(** Leaving a loop body: on to the next iteration, or out of the function. *)
Inductive flow (S R : Type) :=
| Next (acc : S)
| Return (r : R).
Arguments Next {S R} acc.
Arguments Return {S R} r.

(** [for x in l: body], threading the local variables [acc]. *)
Fixpoint for_each {A S R} (l : list A) (body : A -> S -> M (flow S R)) (acc : S)
  : M (flow S R) :=
  match l with
  | [] => ret (Next acc)
  | x :: l' =>
      let* r := body x acc in
      match r with
      | Next acc' => for_each l' body acc'
      | Return v => ret (Return v)
      end
  end.

(** [range(a, b)] *)
Definition range (a b : Z) : list Z := seqZ a (b - a).

Section Engine.

Context (W : world).

(** ** [baidu_translate] *)

(** [None] is Python's [None]; the rate limit comes back as the string
    ["ERROR_54003"]. *)
Definition baidu_translate (query app_id app_key : str) : M (option str) :=
  fun s =>
    let n := calls s in
    match baidu_request query app_id app_key (random W n) with
    | None => (Raise UnicodeEncodeError, s)
    | Some p =>
        (Val (baidu_result (network W n)),
         {| wb := wb s; task := task s; calls := S n;
            trace := Get p :: trace s |})
    end.

(** ** [translate_worksheet_with_progress] *)

Definition highlight_fill : PatternFill :=
  {| start_color := py "FFFF00"; end_color := py "FFFF00";
     fill_type := py "solid" |}.
Definition highlight_font : Font := {| color := py "FF0000"; bold := true |}.
Definition wrap_alignment : Alignment :=
  {| wrap_text := true; vertical := py "top" |}.

(** [ws.cell(row=row, column=column)] *)
Definition ws_cell (ws : str) (row column : Z) : M cell :=
  if (row <? 1) || (column <? 1) then raise ValueError
  else
    let* b := get_wb in
    update_sheet ws (touch row);;
    ret (cell_at (sheet ws b) row column).

(** [min(100, int((total_processed / total_cells) * 100))] *)
Definition percent (total_processed total_cells : Z) : Z :=
  Z.min 100
    (Float.to_int (Float.mul (Float.truediv total_processed total_cells) 100)).

(** The progress update that follows a processed cell; the source has it
    three times.  Its two warnings only print. *)
Definition update_progress : M unit :=
  let* t := get_task in
  let total_processed := translated_cells t + error_cells t + skipped_cells t in
  if 0 <? total_cells t then
    set_progress (percent total_processed (total_cells t));;
    if (0 <? translated_cells t) || (0 <? skipped_cells t) then
      set_message (MsgProgress (current_sheet t) (current_cell t)
                     (translated_cells t) (skipped_cells t) (error_cells t))
    else ret tt
  else ret tt.

(** The local dictionary [columns_to_adjust]: column index to
    [max_length], in insertion order. *)
Definition widths := list (Z * Z).

Fixpoint dict_set (k v : Z) (d : widths) : widths :=
  match d with
  | [] => [(k, v)]
  | (k', v') :: d' =>
      if k' =? k then (k, v) :: d' else (k', v') :: dict_set k v d'
  end.

Fixpoint dict_get (k : Z) (d : widths) : Z :=
  match d with
  | [] => 0
  | (k', v') :: d' => if k' =? k then v' else dict_get k d'
  end.

(** A cell counts when it holds text that is not blank. *)
Definition countable (v : cell_value) : bool :=
  match v with
  | Text s => nonempty s && nonempty (strip s)
  | _ => false
  end.

(** A cell that already holds a translation: its order is put right, it
    is counted as skipped, and the loop goes on.  [adjusted_value] is made
    of pieces of [cell_value] and is not longer: the setter stores it as it
    is whenever the text of the cell is itself within the limits of a cell
    text ([check_string]), and the path is modelled for such texts. *)
Definition skip_translated (ws : str) (col_index row_idx : Z) (cell_value : str)
  : M unit :=
  let adjusted_value := check_and_adjust_translation_order cell_value in
  (if str_eqb adjusted_value cell_value then ret tt
   else update_sheet ws
          (with_cell row_idx col_index (set_value (Text adjusted_value))));;
  (let* t := get_task in set_skipped_cells (skipped_cells t + 1));;
  update_progress.

(** A cell that needs a translation: the call, its one retry after the
    cooldown, and what follows.  The result is [columns_to_adjust]. *)
Definition attempt_translation (ws : str) (col_index row_idx : Z)
    (cell_value : str) (columns_to_adjust : widths) : M widths :=
  let* t := get_task in
  let* english_text := baidu_translate cell_value (app_id t) (app_key t) in
  let* r :=
    if bool_decide (english_text = Some ERROR_54003) then
      set_message MsgRateLimited;;
      sleep 10;;
      let* english_text := baidu_translate cell_value (app_id t) (app_key t) in
      ret (english_text, bool_decide (english_text = Some ERROR_54003))
    else ret (english_text, false) in
  let '(english_text, limited_again) := r in
  if limited_again : bool then
    (let* t := get_task in set_error_cells (error_cells t + 1));;
    update_sheet ws (with_cell row_idx col_index (set_fill highlight_fill));;
    update_sheet ws (with_cell row_idx col_index (set_font highlight_font));;
    update_progress;;
    ret columns_to_adjust
  else
    let* columns_to_adjust :=
      match english_text with
      | Some e =>
          if nonempty e && negb (str_eqb e ERROR_54003) then
            assign_cell_text ws row_idx col_index (e ++ [NL] ++ cell_value);;
            update_sheet ws
              (with_cell row_idx col_index (set_alignment wrap_alignment));;
            (let* t := get_task in
             set_translated_cells (translated_cells t + 1));;
            let text_length := Z.max (len cell_value) (len e) in
            if text_length >? dict_get col_index columns_to_adjust then
              ret (dict_set col_index text_length columns_to_adjust)
            else ret columns_to_adjust
          else ret columns_to_adjust
      | None => ret columns_to_adjust
      end in
    update_progress;;
    sleep 1.5;;
    ret columns_to_adjust.

(** The body of the row loop.  The two guards of the source, [if not
    cell.value or not isinstance(cell.value, str): continue] and, after
    [cell_value = cell.value.strip()], [if not cell_value: continue], are
    the one test [countable]: between them nothing is assigned. *)
Definition translate_cell (ws col_letter : str) (col_index row_idx : Z)
    (columns_to_adjust : widths) : M (flow widths bool) :=
  let* t := get_task in
  match status t with
  | Failed => ret (Return false)
  | _ =>
    let* c := ws_cell ws row_idx col_index in
    if countable (value c) then
      let cell_value :=
        match value c with Text s => strip s | _ => [] end in
      set_current_cell (col_letter ++ str_of_int row_idx);;
      if is_already_translated cell_value then
        skip_translated ws col_index row_idx cell_value;;
        ret (Next columns_to_adjust)
      else
        let* columns_to_adjust :=
          attempt_translation ws col_index row_idx cell_value columns_to_adjust in
        ret (Next columns_to_adjust)
    else ret (Next columns_to_adjust)
  end.

(** The body of the column loop. *)
Definition translate_column (ws : str) (start_row end_row : Z)
    (col_letter : str) (columns_to_adjust : widths) : M (flow widths bool) :=
  match column_index_from_string col_letter with
  | None => ret (Next columns_to_adjust)
  | Some col_index =>
      for_each (range start_row (end_row + 1))
               (translate_cell ws col_letter col_index)
               (dict_set col_index 0 columns_to_adjust)
  end.

(** [min(max_length * 1.2 + 5, 50)] *)
Definition column_width_for (max_length : Z) : Q :=
  let w := Float.add (Float.mul (Float.of_int max_length) (Float.literal 1.2)) 5 in
  if Qle_bool w 50 then w else 50.

Definition adjust_widths (ws : str) (columns_to_adjust : widths) : M unit :=
  let* _ :=
    for_each columns_to_adjust
      (fun entry (_ : unit) =>
         update_sheet ws (with_width (fst entry) (column_width_for (snd entry)));;
         ret (Next (R := unit) tt)) tt in
  ret tt.

(** The lines of one cell, for the row height. *)
Definition row_lines (ws : str) (row_idx : Z) (col_letter : str) (max_lines : Z)
  : M (flow Z unit) :=
  try_except
    (match column_index_from_string col_letter with
     | None => raise ValueError
     | Some col_index =>
         let* c := ws_cell ws row_idx col_index in
         match value c with
         | Text s =>
             if nonempty s then
               let lines := count NL s + 1 in
               if lines >? max_lines then ret (Next lines) else ret (Next max_lines)
             else ret (Next max_lines)
         | _ => ret (Next max_lines)
         end
     end)
    (fun e =>
       match e with
       | ValueError => ret (Next max_lines)
       | _ => raise e
       end).

Definition adjust_heights (ws : str) (columns : list str) (start_row end_row : Z)
  : M unit :=
  let base_line_height := 15 in
  let* _ :=
    for_each (range start_row (end_row + 1))
      (fun row_idx (_ : unit) =>
         let* r := for_each columns (row_lines ws row_idx) 1 in
         let max_lines := match r with Next n => n | Return _ => 1 end in
         let height := base_line_height + (max_lines - 1) * 10 in
         update_sheet ws (with_height row_idx (Z.min height 100));;
         ret (Next (R := unit) tt)) tt in
  ret tt.

Definition translate_worksheet_with_progress (ws : str) (columns : list str)
    (start_row : Z) (end_row : option Z) : M bool :=
  let* b := get_wb in
  let last := max_row (sheet ws b) in
  let end_row :=
    match end_row with
    | None => last
    | Some e => if e =? 0 then last else e
    end in
  let start_row := if start_row <? 1 then 1 else start_row in
  let end_row := if end_row >? last then last else end_row in
  if start_row >? end_row then
    set_message (MsgBadRange start_row end_row);;
    ret false
  else
    let* r := for_each columns (translate_column ws start_row end_row) [] in
    match r with
    | Return v => ret v
    | Next columns_to_adjust =>
        adjust_widths ws columns_to_adjust;;
        adjust_heights ws columns start_row end_row;;
        ret true
    end.

(** ** [translate_excel_with_progress] *)

(** [time.time()] *)
Definition time_time : M Q :=
  fun s => (Val (clock W (length (trace s))), s).

(** ["测试"], the text of the connection test. *)
Definition TEST_TEXT : str := [0x6d4b; 0x8bd5]%N.

Definition SLASH : N := 0x2f%N.
Definition DOT : N := 0x2e%N.

(** [os.path.basename] *)
Definition basename (p : str) : str :=
  fold_left (fun acc c => if (c =? SLASH)%N then [] else acc ++ [c]) p [].

Fixpoint split_last_dot (p : str) : option (str * str) :=
  match p with
  | [] => None
  | c :: p' =>
      match split_last_dot p' with
      | Some (a, b) => Some (c :: a, b)
      | None => if (c =? DOT)%N then Some ([], p') else None
      end
  end.

(** [os.path.splitext(p)[0]] for a path without directory. *)
Definition splitext_root (p : str) : str :=
  match split_last_dot p with
  | Some (a, _) => if existsb (fun c => negb (c =? DOT)%N) a then a else p
  | None => p
  end.

(** The pre-scan of one cell; the accumulator is
    [(total_translatable, total_skippable)].  A [ValueError] leaves the
    rows of this column. *)
Definition count_cell (ws : str) (col_index row_idx : Z) (acc : Z * Z)
  : M (flow (Z * Z) (Z * Z)) :=
  try_except
    (let* c := ws_cell ws row_idx col_index in
     match value c with
     | Text s =>
         if nonempty s && nonempty (strip s) then
           if is_already_translated s then ret (Next (fst acc, snd acc + 1))
           else ret (Next (fst acc + 1, snd acc))
         else ret (Next acc)
     | _ => ret (Next acc)
     end)
    (fun e =>
       match e with
       | ValueError => ret (Return acc)
       | _ => raise e
       end).

Definition count_column (ws : str) (start_row : Z) (end_row : option Z)
    (col_letter : str) (acc : Z * Z) : M (flow (Z * Z) unit) :=
  match column_index_from_string col_letter with
  | None => ret (Next acc)
  | Some col_index =>
      let* b := get_wb in
      let last :=
        match end_row with
        | None => max_row (sheet ws b)
        | Some e => if e =? 0 then max_row (sheet ws b) else e
        end in
      let* r := for_each (range start_row (last + 1)) (count_cell ws col_index) acc in
      match r with
      | Next acc' => ret (Next acc')
      | Return acc' => ret (Next acc')
      end
  end.

Definition count_sheet (columns : list str) (start_row : Z) (end_row : option Z)
    (sheet_name : str) (acc : Z * Z) : M (flow (Z * Z) unit) :=
  for_each columns (count_column sheet_name start_row end_row) acc.

(** The body of the loop over the worksheets; [Return tt] is the [return]
    after a failed pass, [Next false] records the [break]. *)
Definition process_sheet (sheet_name : str) (go : bool) : M (flow bool unit) :=
  if negb go then ret (Next false)
  else
    let* t := get_task in
    match status t with
    | Failed => ret (Next false)
    | _ =>
        set_current_sheet sheet_name;;
        set_message (MsgSheet sheet_name);;
        let* success :=
          translate_worksheet_with_progress sheet_name (columns t)
            (start_row t) (end_row t) in
        if success : bool then ret (Next true)
        else set_status Failed;; ret (Return tt)
    end.

Definition save_result : M unit :=
  let* t := get_task in
  match status t with
  | Failed => ret tt
  | _ =>
      if writable W (output_file t) then
        (let* b := get_wb in emit (Save (output_file t) b));;
        set_message MsgSaved;;
        set_status Completed;;
        (let* now := time_time in set_end_time (Some now));;
        set_progress 100
      else
        set_message MsgSaveFailed;;
        set_status Failed
  end.

(** From the pre-scan on, with the workbook loaded and the worksheets
    chosen. *)
Definition translate_sheets (names : list str) : M unit :=
  set_message MsgCounting;;
  let* t := get_task in
  let* r := for_each names (count_sheet (columns t) (start_row t) (end_row t)) (0, 0) in
  let '(total_translatable, total_skippable) :=
    match r with Next acc => acc | Return _ => (0, 0) end in
  let total_cells_to_process := total_translatable + total_skippable in
  set_total_cells total_cells_to_process;;
  set_translated_cells 0;;
  set_error_cells 0;;
  set_skipped_cells 0;;
  set_progress 0;;
  if total_cells_to_process =? 0 then
    set_message MsgNothing;;
    set_status Completed;;
    (let* now := time_time in set_end_time (Some now))
  else
    set_message (MsgFound total_translatable total_skippable);;
    let base_name := splitext_root (basename (filename t)) in
    set_output_file
      (py "uploads/" ++ base_name ++ py "_translated_" ++ now W ++ py ".xlsx");;
    let* r := for_each names process_sheet true in
    match r with
    | Return _ => ret tt
    | Next _ => save_result
    end.

Definition translate_excel_with_progress : M unit :=
  try_except
    ((let* now := time_time in set_start_time (Some now));;
     set_status Running;;
     set_message MsgTesting;;
     let* t := get_task in
     let* test_result := baidu_translate TEST_TEXT (app_id t) (app_key t) in
     match test_result with
     | None => set_message MsgTestFailed;; set_status Failed
     | Some r =>
       if str_eqb r ERROR_54003 then set_message MsgTestFailed;; set_status Failed
       else
         set_message MsgTestPassed;;
         set_message (MsgLoading (filename t));;
         match disk W (filename t) with
         | Missing => set_message (MsgNoFile (filename t));; set_status Failed
         | Unreadable => set_message MsgLoadError;; set_status Failed
         | Xlsx b =>
             set_wb b;;
             set_message MsgLoaded;;
             let all_sheet_names := sheetnames b in
             match sheet_names t with
             | None =>
                 set_sheet_names (Some all_sheet_names);;
                 translate_sheets all_sheet_names
             | Some names =>
                 let valid_sheets :=
                   filter (fun name => name ∈ all_sheet_names) names in
                 match valid_sheets with
                 | [] => set_message MsgNoSheets;; set_status Failed
                 | _ =>
                     set_sheet_names (Some valid_sheets);;
                     translate_sheets valid_sheets
                 end
             end
         end
     end)
    (fun _ => set_message MsgError;; set_status Failed).

(** A run of the engine on a task created by the submitter. *)
Definition start (t : Task) : state :=
  {| wb := []; task := t; calls := 0; trace := [] |}.

Definition run (t : Task) : state :=
  snd (translate_excel_with_progress (start t)).

End Engine.

(** ** What a poller can see *)

(** The task records observed after each assignment, oldest first. *)
Definition observations (tr : list event) : list Task :=
  omap (fun e => match e with Assign _ t => Some t | _ => None end) (rev tr).

(** The values assigned to [task.progress], oldest first. *)
Definition progress_values (tr : list event) : list Z :=
  omap (fun e =>
          match e with
          | Assign a_progress t => Some (progress t)
          | _ => None
          end) (rev tr).

(** The requested delays, oldest first. *)
Definition sleeps (tr : list event) : list Q :=
  omap (fun e => match e with Sleep d => Some d | _ => None end) (rev tr).

(** * The specification's wording, for comparison with the code *)

(** The classifier as the specification words it: a trailing parenthesized
    group that starts with a Latin letter, or a newline and a Latin letter
    in the trimmed first line. *)
Definition spec_is_bilingual (s : str) : bool :=
  Re.found (Re.search translated_re s)
  || (contains NL s && existsb Re.latin (strip (hd [] (split NL s)))).

(** The pattern of the specification for the bracket form: any prefix, an
    opening parenthesis, a Latin letter, characters other than parentheses,
    a closing parenthesis, the end.  Group 1 is the prefix, group 2 the
    parenthesized content. *)
Definition spec_bracket_re : Re.pattern :=
  [Re.AtBeginning; Re.Mark 0; Re.MaxRepeat Re.any; Re.Mark 1;
   Re.In (Re.lit LPAREN); Re.Mark 2; Re.In Re.latin;
   Re.MaxRepeat Re.not_paren; Re.Mark 3; Re.In (Re.lit RPAREN); Re.AtEnd].

(** The text holds an opening parenthesis that is directly followed by a
    Latin letter or a white-space character: a place where the bracket
    pattern of the code can open its second group. *)
Fixpoint opens_early (s : str) : bool :=
  match s with
  | a :: s' =>
      match s' with
      | b :: _ => (a =? LPAREN)%N && Re.latin_or_space b
      | [] => false
      end
      || opens_early s'
  | [] => false
  end.

(** The lines that are left after trimming each line and dropping the
    blank ones: the [parts] of [check_and_adjust_translation_order]. *)
Definition nonblank_lines (s : str) : list str :=
  filter (fun part => nonempty part = true) (map strip (split NL s)).

(** The cells a pass may write: a valid target column, a row in the
    clamped range. *)
Definition clamped_start (start_row : Z) : Z :=
  if start_row <? 1 then 1 else start_row.

Definition clamped_end (end_row : option Z) (last : Z) : Z :=
  let e :=
    match end_row with
    | None => last
    | Some e => if e =? 0 then last else e
    end in
  if e >? last then last else e.

Definition target_column (columns : list str) (column : Z) : Prop :=
  exists col_letter,
    col_letter ∈ columns /\ column_index_from_string col_letter = Some column.

Definition target_row (start_row : Z) (end_row : option Z) (last : Z) (row : Z)
  : Prop :=
  clamped_start start_row <= row <= clamped_end end_row last.

(** * Judgments used in the proofs *)

(** ** Reasoning about statements *)

(** [hoare P m Q]: from a state in [P], [m] ends in an outcome and a state
    in [Q].  [preserves P m] is the case of an invariant. *)
Definition hoare {A} (P : state -> Prop) (m : M A)
    (Q : outcome A -> state -> Prop) : Prop :=
  forall s, P s -> Q (fst (m s)) (snd (m s)).

Definition preserves {A} (P : state -> Prop) (m : M A) : Prop :=
  forall s, P s -> P (snd (m s)).

(** ** What a pass may write *)

(** The worksheets of [s] are those of [b0] except for the cells, widths
    and heights of worksheet [ws] that [Tr] (rows) and [Tc] (columns)
    select. *)
Definition frame (b0 : workbook) (ws : str) (Tr Tc : Z -> Prop) (s : state)
  : Prop :=
  forall name,
    max_row (sheet name (wb s)) = max_row (sheet name b0)
    /\ (forall r c, ~ (name = ws /\ Tr r /\ Tc c) ->
          cell_at (sheet name (wb s)) r c = cell_at (sheet name b0) r c)
    /\ (forall c, ~ (name = ws /\ Tc c) ->
          column_width (sheet name (wb s)) !! c = column_width (sheet name b0) !! c)
    /\ (forall r, ~ (name = ws /\ Tr r) ->
          row_height (sheet name (wb s)) !! r = row_height (sheet name b0) !! r).

(** [returns V m]: whatever the state, the outcome of [m] is in [V]. *)
Definition returns {A} (V : outcome A -> Prop) (m : M A) : Prop :=
  forall s, V (fst (m s)).

(** The outcome of a loop body or a loop: the local variables satisfy [I]
    when the loop goes on. *)
Definition next_in {S R} (I : S -> Prop) (o : outcome (flow S R)) : Prop :=
  match o with
  | Val (Next acc) => I acc
  | _ => True
  end.

Definition val_in {A} (I : A -> Prop) (o : outcome A) : Prop :=
  match o with
  | Val a => I a
  | Raise _ => True
  end.

(** The keys of [columns_to_adjust] are in [Tc]. *)
Definition keys_in (Tc : Z -> Prop) (d : widths) : Prop :=
  forall k v, In (k, v) d -> Tc k.

(** The [n]-th request, sent for [query], comes back as [r]. *)
Definition call_returns (W : world) (query app_id app_key : str) (n : nat)
    (r : option str) : Prop :=
  baidu_request query app_id app_key (random W n) <> None
  /\ baidu_result (network W n) = r.

(** The requests and delays of a run, oldest first. *)
Inductive tick :=
| Call
| Wait (seconds : Q).

Definition timeline (tr : list event) : list tick :=
  omap (fun e =>
          match e with
          | Get _ => Some Call
          | Sleep d => Some (Wait d)
          | _ => None
          end) (rev tr).

(** The values assigned to [task.error_cells], oldest first. *)
Definition error_cells_values (tr : list event) : list Z :=
  omap (fun e =>
          match e with
          | Assign a_error_cells t => Some (error_cells t)
          | _ => None
          end) (rev tr).

(** * Sample inputs *)

Module Sample.

Definition text_cell (s : str) : cell :=
  {| value := Text s; fill := None; font := None; alignment := None |}.

(** ["报告问题"], ["已修复"], ["Fixed\n已修复"] *)
Definition report : str := [0x62a5; 0x544a; 0x95ee; 0x9898]%N.
Definition fixed_zh : str := [0x5df2; 0x4fee; 0x590d]%N.
Definition fixed : str := py "Fixed" ++ [NL] ++ fixed_zh.

(** D2 waits for a translation, D3 holds one in the right order. *)
Definition half_done : worksheet :=
  {| cells := {[ (2, 4) := text_cell report; (3, 4) := text_cell fixed ]};
     max_row := 3; column_width := ∅; row_height := ∅ |}.

(** D2 and D3 both wait for a translation. *)
Definition untranslated : worksheet :=
  {| cells := {[ (2, 4) := text_cell report; (3, 4) := text_cell fixed_zh ]};
     max_row := 3; column_width := ∅; row_height := ∅ |}.

(** Only a header in A1: nothing in column D. *)
Definition header_only : worksheet :=
  {| cells := {[ (1, 1) := text_cell (py "Title") ]};
     max_row := 1; column_width := ∅; row_height := ∅ |}.

Definition title : str := py "RT301".

(** A service that answers every request. *)
Definition answering (b : workbook) : world :=
  {| random := fun n => Z.of_nat n;
     network := fun _ => TransResult (py "Report a problem");
     clock := fun n => inject_Z (Z.of_nat n);
     now := py "20250627_101500";
     disk := fun _ => Xlsx b;
     writable := fun _ => true |}.

(** A service that answers the connection test, then limits the next two
    requests, then answers again. *)
Definition limiting (b : workbook) : world :=
  {| random := fun n => Z.of_nat n;
     network := fun n =>
       match n with
       | 1%nat | 2%nat => ErrorCode (py "54003")
       | _ => TransResult (py "Fixed")
       end;
     clock := fun n => inject_Z (Z.of_nat n);
     now := py "20250627_101500";
     disk := fun _ => Xlsx b;
     writable := fun _ => true |}.

(** Column D, rows 2 to 3 of the worksheet. *)
Definition job : Task :=
  TranslationTask (py "task-1") (py "uploads/cases.xlsx") [py "D"] 2 (Some 3)
    (Some [title]) (py "appid") (py "appkey").

End Sample.

(** The largest progress value a pass can have assigned so far. *)
Definition progress_bound (total processed : Z) : Z :=
  if 0 <? total then percent processed total else 0.

(** Between the pre-scan and the save: the total is fixed, the values
    assigned to [progress] so far are in order and below the value the
    counters would give now. *)
Definition progress_inv (total : Z) (s : state) : Prop :=
  total_cells (task s) = total
  /\ StronglySorted Z.le (progress_values (trace s))
  /\ Forall (fun v => v <= progress_bound total (total_processed (task s)))
            (progress_values (trace s)).

(** At any time: the values assigned to [progress] are in order and at
    most 100. *)
Definition progress_ok (s : state) : Prop :=
  StronglySorted Z.le (progress_values (trace s))
  /\ Forall (fun v => v <= 100) (progress_values (trace s)).

(** Before the pre-scan ends nothing was assigned to [progress]. *)
Definition progress_unset (s : state) : Prop := progress_values (trace s) = [].

(** A statement that assigns neither [progress] nor a counter nor the
    total. *)
Definition quiet {A} (m : M A) : Prop :=
  forall s,
    progress_values (trace (snd (m s))) = progress_values (trace s)
    /\ total_cells (task (snd (m s))) = total_cells (task s)
    /\ total_processed (task (snd (m s))) = total_processed (task s).

(** ** What the pre-scan counts *)

Definition sum_of {A} (f : A -> Z) (l : list A) : Z :=
  fold_right (fun x n => f x + n) 0 l.

(** [end_row or ws.max_row] *)
Definition last_row (end_row : option Z) (sh : worksheet) : Z :=
  match end_row with
  | None => max_row sh
  | Some e => if e =? 0 then max_row sh else e
  end.

Definition countable_at (b : workbook) (ws : str) (column row : Z) : bool :=
  countable (value (cell_at (sheet ws b) row column)).

Definition one_if (c : bool) : Z := if c then 1 else 0.

(** The cells of workbook [b] that the pre-scan counts: in one column of
    one worksheet, in one worksheet, in all the worksheets of the task. *)
Definition column_count (b : workbook) (start_row : Z) (end_row : option Z)
    (ws col_letter : str) : Z :=
  match column_index_from_string col_letter with
  | None => 0
  | Some column =>
      sum_of (fun row => one_if (countable_at b ws column row))
             (range start_row (last_row end_row (sheet ws b) + 1))
  end.

Definition sheet_count (b : workbook) (columns : list str) (start_row : Z)
    (end_row : option Z) (ws : str) : Z :=
  sum_of (column_count b start_row end_row ws) columns.

Definition scan_total (b : workbook) (columns : list str) (start_row : Z)
    (end_row : option Z) (names : list str) : Z :=
  if start_row <? 1 then 0
  else sum_of (sheet_count b columns start_row end_row) names.

(** ** The counters and the total *)

(** [translated_cells + error_cells + skipped_cells <= total_cells] *)
Definition within_total (t : Task) : Prop := total_processed t <= total_cells t.

(** The fields of the request, which a run never assigns. *)
Definition same_request (t0 t : Task) : Prop :=
  columns t = columns t0 /\ start_row t = start_row t0 /\ end_row t = end_row t0.

(** Workbook [b] against the loaded workbook [b0]: the last row of the
    range is the same, and a cell that counts in [b] counts in [b0]. *)
Definition kept (end_row : option Z) (b0 b : workbook) : Prop :=
  forall ws,
    last_row end_row (sheet ws b) = last_row end_row (sheet ws b0)
    /\ forall r c, countable_at b ws c r = true -> countable_at b0 ws c r = true.

Definition counted (T n : Z) (t : Task) : Prop :=
  total_cells t = T
  /\ 0 <= translated_cells t /\ 0 <= error_cells t /\ 0 <= skipped_cells t
  /\ total_processed t <= n.

(** The total is [T], at most [n] cells were processed, and [n] is within
    the total; so was every record a poller could see. *)
Definition budget (b0 : workbook) (t0 : Task) (T n : Z) (s : state) : Prop :=
  n <= T
  /\ same_request t0 (task s)
  /\ kept (end_row t0) b0 (wb s)
  /\ counted T n (task s)
  /\ Forall within_total (observations (trace s)).

Definition sound (s : state) : Prop :=
  within_total (task s) /\ Forall within_total (observations (trace s)).

(** The pre-scan reads: from [s] to [s'] no cell changes, nothing is
    assigned, no request is sent. *)
Definition scanned (end_row : option Z) (s s' : state) : Prop :=
  task s' = task s /\ trace s' = trace s
  /\ forall ws,
       cells (sheet ws (wb s')) = cells (sheet ws (wb s))
       /\ last_row end_row (sheet ws (wb s')) = last_row end_row (sheet ws (wb s)).


(** * More sample inputs *)

Module Fixture.

(** A service that cannot be reached. *)
Definition unreachable (b : workbook) : world :=
  {| random := fun n => Z.of_nat n;
     network := fun _ => RequestException;
     clock := fun n => inject_Z (Z.of_nat n);
     now := py "20250627_101500";
     disk := fun _ => Xlsx b;
     writable := fun _ => true |}.

(** A service whose answers hold a control character (["Bell\a"]). *)
Definition garbling (b : workbook) : world :=
  {| random := fun n => Z.of_nat n;
     network := fun _ => TransResult (py "Bell" ++ [7%N]);
     clock := fun n => inject_Z (Z.of_nat n);
     now := py "20250627_101500";
     disk := fun _ => Xlsx b;
     writable := fun _ => true |}.

(** The state of a pass over the sample worksheet, before cell D2. *)
Definition at_D2 (sh : worksheet) : state :=
  {| wb := [(Sample.title, sh)]; task := Sample.job; calls := 1; trace := [] |}.

End Fixture.

(** * How a run ends *)

(** The workbooks written by [wb.save], with their paths, oldest first. *)
Definition saves (tr : list event) : list (str * workbook) :=
  omap (fun e => match e with Save p b => Some (p, b) | _ => None end) (rev tr).

(** Invariants of the statements of the engine: nothing was saved; the
    requests and delays so far are [tl]; a field [f] of the task record has
    the value [x]. *)
Definition nothing_saved (s : state) : Prop := saves (trace s) = [].

Definition timeline_is (tl : list tick) (s : state) : Prop :=
  timeline (trace s) = tl.

Definition task_keeps {X} (f : Task -> X) (x : X) (s : state) : Prop :=
  f (task s) = x.

Definition both (P Q : state -> Prop) (s : state) : Prop := P s /\ Q s.

(** The three ways a run ends: failed; completed with nothing to
    translate; completed and saved. *)
Definition ends_failed (t : Task) (s : state) : Prop :=
  status (task s) = Failed
  /\ saves (trace s) = []
  /\ end_time (task s) = end_time t.

Definition ends_idle (t : Task) (s : state) : Prop :=
  status (task s) = Completed
  /\ saves (trace s) = []
  /\ total_cells (task s) = 0
  /\ message (task s) = MsgNothing
  /\ output_file (task s) = output_file t
  /\ end_time (task s) <> None.

(** [os.path.join("uploads", f"{base_name}_translated_{timestamp}.xlsx")] *)
Definition output_path (W : world) (filename : str) : str :=
  py "uploads/" ++ splitext_root (basename filename) ++ py "_translated_"
  ++ now W ++ py ".xlsx".

Definition ends_saved (W : world) (t : Task) (s : state) : Prop :=
  status (task s) = Completed
  /\ saves (trace s) = [(output_file (task s), wb s)]
  /\ output_file (task s) = output_path W (filename t)
  /\ total_cells (task s) <> 0
  /\ progress (task s) = 100
  /\ message (task s) = MsgSaved
  /\ end_time (task s) <> None.

(** Before the pre-scan: nothing saved, and the three fields as the task
    was created. *)
Definition unsaved_run (t : Task) : state -> Prop :=
  both (both (both nothing_saved (task_keeps end_time (end_time t)))
             (task_keeps output_file (output_file t)))
       (task_keeps filename (filename t)).

(** During the passes: nothing saved, the total and the output path
    fixed. *)
Definition unsaved_pass (W : world) (t : Task) (X : Z) : state -> Prop :=
  both (both (both nothing_saved (task_keeps end_time (end_time t)))
             (task_keeps output_file (output_path W (filename t))))
       (task_keeps total_cells X).

Definition unsaved (t : Task) : state -> Prop :=
  both nothing_saved (task_keeps end_time (end_time t)).

(** * The command-line translator ([table_translator.py])

    Its [baidu_translate], [is_already_translated] and
    [check_and_adjust_translation_order] are those of the engine, with
    messages printed where the engine is silent; the printed messages and
    the variables that only feed them ([processed], [error_54003_occurred],
    the estimate of the time left) are not part of the model.  The task
    record of the state is not used. *)

(** What [translate_worksheet] returns: [(False, 0, 0)] for a bad row
    range, [(True, total_translated, total_errors, elapsed)] otherwise. *)
Inductive pass_tuple :=
| Tuple3 (success : bool) (translated errors : Z)
| Tuple4 (success : bool) (translated errors : Z) (elapsed : Q).

(** The local variables of [translate_worksheet]. *)
Record totals := {
  total_translated : Z;
  total_errors : Z;
  total_skipped : Z;
  columns_to_adjust : widths
}.

Definition no_totals : totals :=
  {| total_translated := 0; total_errors := 0; total_skipped := 0;
     columns_to_adjust := [] |}.

Definition with_widths (d : widths) (a : totals) : totals :=
  {| total_translated := total_translated a; total_errors := total_errors a;
     total_skipped := total_skipped a; columns_to_adjust := d |}.

(** [time.time() - start_time] *)
Definition elapsed_since (start_time now : Q) : Q := Float.fl (now - start_time).

(** The worksheets [translate_excel] and the engine go through: all of
    them, or the requested ones that exist; [None] when none is left. *)
Definition select_sheets (all_sheet_names : list str)
    (sheet_names : option (list str)) : option (list str) :=
  match sheet_names with
  | None => Some all_sheet_names
  | Some names =>
      match filter (fun name => name ∈ all_sheet_names) names with
      | [] => None
      | valid_sheets => Some valid_sheets
      end
  end.

Section Cli.

Context (W : world).

(** The body of the loop that counts the cells of a column that need a
    translation. *)
Definition cli_count_cell (ws : str) (col_index row_idx : Z)
    (translatable_cells : Z) : M (flow Z unit) :=
  let* c := ws_cell ws row_idx col_index in
  match value c with
  | Text s =>
      if nonempty s && nonempty (strip s) then
        if negb (is_already_translated s) then ret (Next (translatable_cells + 1))
        else ret (Next translatable_cells)
      else ret (Next translatable_cells)
  | _ => ret (Next translatable_cells)
  end.

(** The body of the loop that translates the cells of a column.  As in
    the engine, the limits of the setter are modelled where the translation
    is written, not where the order of a translated cell is put right. *)
Definition cli_translate_cell (ws : str) (app_id app_key : str)
    (col_index row_idx : Z) (acc : totals) : M (flow totals unit) :=
  let* c := ws_cell ws row_idx col_index in
  if countable (value c) then
    let cell_value :=
      match value c with Text s => strip s | _ => [] end in
    if is_already_translated cell_value then
      let adjusted_value := check_and_adjust_translation_order cell_value in
      (if str_eqb adjusted_value cell_value then ret tt
       else update_sheet ws
              (with_cell row_idx col_index (set_value (Text adjusted_value))));;
      ret (Next {| total_translated := total_translated acc;
                   total_errors := total_errors acc;
                   total_skipped := total_skipped acc + 1;
                   columns_to_adjust := columns_to_adjust acc |})
    else
      let* english_text := baidu_translate W cell_value app_id app_key in
      let* r :=
        if bool_decide (english_text = Some ERROR_54003) then
          sleep 10;;
          let* english_text := baidu_translate W cell_value app_id app_key in
          ret (english_text, bool_decide (english_text = Some ERROR_54003))
        else ret (english_text, false) in
      let '(english_text, limited_again) := r in
      if limited_again : bool then
        update_sheet ws (with_cell row_idx col_index (set_fill highlight_fill));;
        update_sheet ws (with_cell row_idx col_index (set_font highlight_font));;
        ret (Next {| total_translated := total_translated acc;
                     total_errors := total_errors acc + 1;
                     total_skipped := total_skipped acc;
                     columns_to_adjust := columns_to_adjust acc |})
      else
        let* acc :=
          match english_text with
          | Some e =>
              if nonempty e && negb (str_eqb e ERROR_54003) then
                assign_cell_text ws row_idx col_index (e ++ [NL] ++ cell_value);;
                update_sheet ws
                  (with_cell row_idx col_index (set_alignment wrap_alignment));;
                let text_length := Z.max (len cell_value) (len e) in
                ret {| total_translated := total_translated acc + 1;
                       total_errors := total_errors acc;
                       total_skipped := total_skipped acc;
                       columns_to_adjust :=
                         if text_length
                            >? dict_get col_index (columns_to_adjust acc)
                         then dict_set col_index text_length
                                (columns_to_adjust acc)
                         else columns_to_adjust acc |}
              else ret acc
          | None => ret acc
          end in
        sleep 1.5;;
        ret (Next acc)
  else ret (Next acc).

(** The body of the column loop: a column in which the count finds
    nothing to translate is left after the count. *)
Definition cli_translate_column (ws : str) (app_id app_key : str)
    (start_row end_row : Z) (col_letter : str) (acc : totals)
  : M (flow totals unit) :=
  match column_index_from_string col_letter with
  | None => ret (Next acc)
  | Some col_index =>
      let acc := with_widths (dict_set col_index 0 (columns_to_adjust acc)) acc in
      let* r :=
        for_each (range start_row (end_row + 1)) (cli_count_cell ws col_index) 0 in
      let translatable_cells := match r with Next n => n | Return _ => 0 end in
      if translatable_cells =? 0 then ret (Next acc)
      else
        for_each (range start_row (end_row + 1))
                 (cli_translate_cell ws app_id app_key col_index) acc
  end.

(** [translate_worksheet] *)
Definition translate_worksheet (ws : str) (app_id app_key : str)
    (columns : list str) (start_row : Z) (end_row : option Z) : M pass_tuple :=
  let* b := get_wb in
  let last := max_row (sheet ws b) in
  let end_row :=
    match end_row with
    | None => last
    | Some e => if e =? 0 then last else e
    end in
  let start_row := if start_row <? 1 then 1 else start_row in
  let end_row := if end_row >? last then last else end_row in
  if start_row >? end_row then ret (Tuple3 false 0 0)
  else
    let* start_time := time_time W in
    let* r :=
      for_each columns (cli_translate_column ws app_id app_key start_row end_row)
               no_totals in
    let acc := match r with Next a => a | Return _ => no_totals end in
    adjust_widths ws (columns_to_adjust acc);;
    adjust_heights ws columns start_row end_row;;
    let* now := time_time W in
    ret (Tuple4 true (total_translated acc) (total_errors acc)
                (elapsed_since start_time now)).

(** The body of the loop over the worksheets in [translate_excel]; the
    accumulator is [(total_translated, total_errors, total_time,
    processed_sheets)].  The result of [translate_worksheet] is unpacked
    into four names: a triple makes that a [ValueError]. *)
Definition cli_process_sheet (app_id app_key : str) (columns : list str)
    (start_row : Z) (end_row : option Z) (sheet_name : str)
    (acc : Z * Z * Q * Z) : M (flow (Z * Z * Q * Z) unit) :=
  let* result :=
    translate_worksheet sheet_name app_id app_key columns start_row end_row in
  match result with
  | Tuple3 _ _ _ => raise ValueError
  | Tuple4 success translated errors elapsed =>
      let '(total_translated, total_errors, total_time, processed_sheets) := acc in
      if success then
        ret (Next (total_translated + translated, total_errors + errors,
                   Float.add total_time elapsed, processed_sheets + 1))
      else ret (Next acc)
  end.

(** [translate_excel] *)
Definition translate_excel (input_file output_file app_id app_key : str)
    (columns : list str) (start_row : Z) (end_row : option Z)
    (sheet_names : option (list str)) : M bool :=
  let* test_result := baidu_translate W TEST_TEXT app_id app_key in
  match test_result with
  | None => ret false
  | Some r =>
    if str_eqb r ERROR_54003 then ret false
    else
      match disk W input_file with
      | Missing => ret false
      | Unreadable => ret false
      | Xlsx b =>
          set_wb b;;
          match select_sheets (sheetnames b) sheet_names with
          | None => ret false
          | Some sheet_names =>
              let* r :=
                for_each sheet_names
                  (cli_process_sheet app_id app_key columns start_row end_row)
                  (0, 0, 0%Q, 0) in
              let processed_sheets :=
                match r with Next (_, _, _, n) => n | Return _ => 0 end in
              if processed_sheets >? 0 then
                if writable W output_file then
                  (let* b := get_wb in emit (Save output_file b));;
                  ret true
                else ret false
              else ret false
          end
      end
  end.

End Cli.

(** * The web application ([app.py]) *)

(** [translation_tasks]: the tasks by id. *)
Definition registry := gmap str Task.

(** The error texts of the routes: ['任务不存在'], ['文件未准备好'],
    ['文件不存在']. *)
Inductive error_text := NoSuchTask | FileNotReady | NoSuchFile.

(** The answer of the download route: an error with its HTTP code, or the
    file sent as an attachment. *)
Inductive download_response :=
| JsonError (error : error_text) (code : Z)
| SendFile (path : str).

(** [os.path.exists] once the events [tr] have happened: a workbook that
    was saved is there, and so is what the disk held before. *)
Definition path_exists (W : world) (tr : list event) (p : str) : bool :=
  existsb (fun e => match e with Save q _ => str_eqb q p | _ => false end) tr
  || match disk W p with Missing => false | _ => true end.

(** [task.status == "completed"] *)
Definition is_completed (st : task_status) : bool :=
  match st with Completed => true | _ => false end.

(** [download_file] *)
Definition download_file (W : world) (tr : list event)
    (translation_tasks : registry) (task_id : str) : download_response :=
  match translation_tasks !! task_id with
  | None => JsonError NoSuchTask 404
  | Some task =>
      if negb (is_completed (status task)) || negb (nonempty (output_file task))
      then JsonError FileNotReady 400
      else if negb (path_exists W tr (output_file task))
      then JsonError NoSuchFile 404
      else SendFile (output_file task)
  end.

(** * Column widths and row heights *)

(** The worksheet is one of the workbook. *)
Definition has_sheet (ws : str) (s : state) : Prop := ws ∈ sheetnames (wb s).

(** [columns_to_adjust] has an entry for column [k]; its lengths are not
    negative. *)
Definition has_key (k : Z) (d : widths) : Prop := exists v, In (k, v) d.

Definition nonneg_values (d : widths) : Prop := forall k v, In (k, v) d -> 0 <= v.

(** Column [c] has a width between 5 and 50; row [r] has a height between
    15 and 100. *)
Definition width_set (ws : str) (c : Z) (s : state) : Prop :=
  exists w, column_width (sheet ws (wb s)) !! c = Some w /\ (5 <= w /\ w <= 50)%Q.

Definition height_set (ws : str) (r : Z) (s : state) : Prop :=
  exists h, row_height (sheet ws (wb s)) !! r = Some h /\ 15 <= h <= 100.
(** * Properties *)

(** ** Rounding is monotone *)

Section FloatFacts.
Import Float.
Local Open Scope Q_scope.

Lemma pow2_pos e : 0 < 2 ^ e.
Proof. apply Qpower_0_lt. reflexivity. Qed.

Lemma pow2_nz e : ~ 2 ^ e == 0.
Proof. intros H. pose proof (pow2_pos e) as P. rewrite H in P. discriminate. Qed.

Lemma pow2_Z a : (0 <= a)%Z -> inject_Z (2 ^ a) == 2 ^ a.
Proof. intros H. apply (Zpower_Qpower 2 a H). Qed.

Lemma pow2_succ e : 2 ^ (e + 1) == 2 * 2 ^ e.
Proof. rewrite Qpower_plus by (intros H; discriminate). rewrite Qmult_comm. reflexivity. Qed.

Lemma pow2_le a b : (a <= b)%Z -> 2 ^ a <= 2 ^ b.
Proof. intros H. apply Qpower_le_compat_l; [exact H | discriminate]. Qed.

Lemma Q_as_div x : x == inject_Z (Qnum x) / inject_Z (Zpos (Qden x)).
Proof. destruct x as [n d]. simpl. rewrite Qmake_Qdiv. reflexivity. Qed.

Lemma ilog2_spec x : 0 < x -> 2 ^ ilog2 x <= x /\ x < 2 ^ (ilog2 x + 1).
Proof.
  intros Hx.
  assert (Hn : (0 < Qnum x)%Z).
  { destruct x as [n d]. unfold Qlt in Hx. simpl in *. lia. }
  set (n := Qnum x) in *. set (d := Zpos (Qden x)).
  assert (Hd : (0 < d)%Z) by (unfold d; lia).
  pose proof (Z.log2_spec n Hn) as [Ha1 Ha2].
  pose proof (Z.log2_spec d Hd) as [Hb1 Hb2].
  pose proof (Z.log2_nonneg n) as Ha0. pose proof (Z.log2_nonneg d) as Hb0.
  set (a := Z.log2 n) in *. set (b := Z.log2 d) in *.
  assert (Hxd : x == inject_Z n / inject_Z d) by apply Q_as_div.
  assert (HdQ : 0 < inject_Z d).
  { change 0 with (inject_Z 0). rewrite <- Zlt_Qlt. exact Hd. }
  assert (U : x < 2 ^ (a - b + 1)).
  { replace (a - b + 1)%Z with ((a + 1) - b)%Z by lia.
    rewrite Qpower_minus by (intros H; discriminate).
    apply Qlt_shift_div_l; [apply pow2_pos|].
    rewrite Hxd. unfold Qdiv. rewrite <- Qmult_assoc, (Qmult_comm (/ _)), Qmult_assoc.
    apply Qlt_shift_div_r; [exact HdQ|].
    rewrite <- !pow2_Z by lia. rewrite <- !inject_Z_mult. rewrite <- Zlt_Qlt.
    nia. }
  assert (L : 2 ^ (a - b - 1) <= x).
  { replace (a - b - 1)%Z with (a - (b + 1))%Z by lia.
    rewrite Qpower_minus by (intros H; discriminate).
    apply Qle_shift_div_r; [apply pow2_pos|].
    rewrite Hxd. unfold Qdiv. rewrite <- Qmult_assoc, (Qmult_comm (/ _)), Qmult_assoc.
    apply Qle_shift_div_l; [exact HdQ|].
    rewrite <- !pow2_Z by lia. rewrite <- !inject_Z_mult. rewrite <- Zle_Qle.
    nia. }
  unfold ilog2. fold n d a b.
  destruct (Qle_bool (2 ^ (a - b)) x) eqn:E.
  - apply Qle_bool_iff in E. split; assumption.
  - split; [exact L|].
    replace (a - b - 1 + 1)%Z with (a - b)%Z by lia.
    apply Qnot_le_lt. intros H. apply Qle_bool_iff in H. congruence.
Qed.

Lemma rne_bounds y : (Qfloor y <= rne y <= Qfloor y + 1)%Z.
Proof.
  unfold rne. destruct (Qcompare _ _); [destruct (Z.even _)| |]; lia.
Qed.

Lemma rne_Z z : rne (inject_Z z) = z.
Proof.
  unfold rne. rewrite Qfloor_Z.
  assert (H : inject_Z z - inject_Z z < 1 # 2).
  { setoid_replace (inject_Z z - inject_Z z) with 0 using relation Qeq by ring. reflexivity. }
  apply Qlt_alt in H.
  change (Qcompare (inject_Z z - inject_Z z) (1 # 2) = Lt) in H.
  rewrite H. reflexivity.
Qed.

Lemma rne_mono x y : x <= y -> (rne x <= rne y)%Z.
Proof.
  intros H. pose proof (Qfloor_resp_le _ _ H) as Hf.
  pose proof (rne_bounds x) as Bx. pose proof (rne_bounds y) as By.
  destruct (Z.eq_dec (Qfloor x) (Qfloor y)) as [E|NE]; [|lia].
  unfold rne in *. rewrite <- E in *.
  set (f := Qfloor x) in *.
  assert (Hd : x - inject_Z f <= y - inject_Z f).
  { apply Qplus_le_l with (z := inject_Z f). ring_simplify. exact H. }
  destruct (Qcompare (x - inject_Z f) (1 # 2)) eqn:Cx;
    destruct (Qcompare (y - inject_Z f) (1 # 2)) eqn:Cy;
    try (destruct (Z.even f)); try lia; exfalso;
    repeat match goal with
      | H : Qcompare _ _ = Eq |- _ => apply Qeq_alt in H
      | H : Qcompare _ _ = Lt |- _ => apply Qlt_alt in H
      | H : Qcompare _ _ = Gt |- _ => apply Qgt_alt in H
      end; lra.
Qed.

Lemma ulp_pos x : 0 < ulp x.
Proof. apply pow2_pos. Qed.

Lemma ulp_scale x k : (0 <= k)%Z ->
  inject_Z (2 ^ k) * ulp x == 2 ^ (ilog2 x - 52 + k).
Proof.
  intros Hk. unfold ulp. rewrite pow2_Z by exact Hk.
  rewrite Qpower_plus by (intros H; discriminate). apply Qmult_comm.
Qed.

Lemma round_pos_bounds x : 0 < x ->
  2 ^ ilog2 x <= round_pos x /\ round_pos x <= 2 ^ (ilog2 x + 1).
Proof.
  intros Hx. destruct (ilog2_spec x Hx) as [L U].
  pose proof (ulp_pos x) as Hu. unfold round_pos.
  split.
  - setoid_replace (2 ^ ilog2 x) with (inject_Z (2 ^ 52) * ulp x) using relation Qeq.
    2:{ rewrite ulp_scale by lia. replace (ilog2 x - 52 + 52)%Z with (ilog2 x) by lia.
        reflexivity. }
    apply Qmult_le_compat_r; [|apply Qlt_le_weak; exact Hu].
    rewrite <- Zle_Qle. rewrite <- (rne_Z (2 ^ 52)) at 1. apply rne_mono.
    apply Qle_shift_div_l; [exact Hu|].
    rewrite ulp_scale by lia. replace (ilog2 x - 52 + 52)%Z with (ilog2 x) by lia.
    exact L.
  - setoid_replace (2 ^ (ilog2 x + 1)) with (inject_Z (2 ^ 53) * ulp x) using relation Qeq.
    2:{ rewrite ulp_scale by lia. replace (ilog2 x - 52 + 53)%Z with (ilog2 x + 1)%Z by lia.
        reflexivity. }
    apply Qmult_le_compat_r; [|apply Qlt_le_weak; exact Hu].
    rewrite <- Zle_Qle. rewrite <- (rne_Z (2 ^ 53)) at 1. apply rne_mono.
    apply Qle_shift_div_r; [exact Hu|].
    rewrite ulp_scale by lia. replace (ilog2 x - 52 + 53)%Z with (ilog2 x + 1)%Z by lia.
    apply Qlt_le_weak. exact U.
Qed.

Lemma round_pos_pos x : 0 < x -> 0 < round_pos x.
Proof.
  intros Hx. eapply Qlt_le_trans; [apply (pow2_pos (ilog2 x))|].
  apply round_pos_bounds. exact Hx.
Qed.

Lemma ilog2_mono x y : 0 < x -> x <= y -> (ilog2 x <= ilog2 y)%Z.
Proof.
  intros Hx Hxy.
  assert (Hy : 0 < y) by (eapply Qlt_le_trans; eassumption).
  destruct (ilog2_spec x Hx) as [Lx _]. destruct (ilog2_spec y Hy) as [_ Uy].
  assert (H : 2 ^ ilog2 x < 2 ^ (ilog2 y + 1)).
  { eapply Qle_lt_trans; [exact Lx|]. eapply Qle_lt_trans; eassumption. }
  apply Qpower_lt_compat_l_inv in H; [lia | reflexivity].
Qed.

Lemma round_pos_mono x y : 0 < x -> x <= y -> round_pos x <= round_pos y.
Proof.
  intros Hx Hxy.
  assert (Hy : 0 < y) by (eapply Qlt_le_trans; eassumption).
  pose proof (ilog2_mono x y Hx Hxy) as He.
  destruct (Z.eq_dec (ilog2 x) (ilog2 y)) as [E|NE].
  - unfold round_pos, ulp. rewrite E.
    apply Qmult_le_compat_r; [|apply Qlt_le_weak, pow2_pos].
    rewrite <- Zle_Qle. apply rne_mono.
    apply Qmult_le_compat_r; [exact Hxy|].
    apply Qlt_le_weak, Qinv_lt_0_compat, pow2_pos.
  - destruct (round_pos_bounds x Hx) as [_ Ux].
    destruct (round_pos_bounds y Hy) as [Ly _].
    eapply Qle_trans; [exact Ux|]. eapply Qle_trans; [|exact Ly].
    apply pow2_le. lia.
Qed.

Lemma fl_0 : fl 0 = 0.
Proof. reflexivity. Qed.

Lemma fl_nonneg x : 0 <= x -> 0 <= fl x.
Proof.
  intros Hx. unfold fl. destruct (Qcompare 0 x) eqn:C.
  - apply Qle_refl.
  - apply Qlt_alt in C. apply Qlt_le_weak, round_pos_pos, C.
  - apply Qgt_alt in C. exfalso. apply (Qlt_irrefl x).
    eapply Qlt_le_trans; eassumption.
Qed.

Lemma fl_mono x y : x <= y -> fl x <= fl y.
Proof.
  intros Hxy. unfold fl.
  destruct (Qcompare 0 x) eqn:Cx; destruct (Qcompare 0 y) eqn:Cy;
    repeat match goal with
      | H : Qcompare _ _ = Eq |- _ => apply Qeq_alt in H
      | H : Qcompare _ _ = Lt |- _ => apply Qlt_alt in H
      | H : Qcompare _ _ = Gt |- _ => apply Qgt_alt in H
      end.
  - apply Qle_refl.
  - apply Qlt_le_weak, round_pos_pos, Cy.
  - exfalso. rewrite <- Cx in Hxy. apply (Qlt_irrefl y). eapply Qlt_le_trans; eassumption.
  - exfalso. rewrite <- Cy in Hxy. apply (Qlt_irrefl 0). eapply Qlt_le_trans; eassumption.
  - apply round_pos_mono; assumption.
  - exfalso. apply (Qlt_irrefl 0). eapply Qlt_trans; [exact Cx|].
    eapply Qle_lt_trans; eassumption.
  - assert (H : 0 < round_pos (- x)).
    { apply round_pos_pos. apply (Qopp_lt_compat x 0) in Cx. exact Cx. }
    apply (Qopp_lt_compat 0) in H. apply Qlt_le_weak. exact H.
  - assert (H : 0 < round_pos (- x)).
    { apply round_pos_pos. apply (Qopp_lt_compat x 0) in Cx. exact Cx. }
    apply (Qopp_lt_compat 0) in H. apply Qlt_le_weak.
    eapply Qlt_trans; [exact H|]. apply round_pos_pos, Cy.
  - apply Qopp_le_compat. apply round_pos_mono.
    + apply (Qopp_lt_compat y 0) in Cy. exact Cy.
    + apply Qopp_le_compat. exact Hxy.
Qed.

Lemma to_int_mono x y : x <= y -> (to_int x <= to_int y)%Z.
Proof.
  intros Hxy. unfold to_int.
  destruct (Qle_bool 0 x) eqn:Ex; destruct (Qle_bool 0 y) eqn:Ey.
  - apply Qfloor_resp_le, Hxy.
  - apply Qle_bool_iff in Ex. exfalso.
    assert (H : Qle_bool 0 y = true) by (apply Qle_bool_iff; eapply Qle_trans; eassumption).
    congruence.
  - apply Qle_bool_iff in Ey.
    assert (Hx : x <= 0).
    { apply Qlt_le_weak, Qnot_le_lt. intros H. apply Qle_bool_iff in H. congruence. }
    apply Qceiling_resp_le in Hx. apply Qfloor_resp_le in Ey.
    change 0 with (inject_Z 0) in Hx, Ey. rewrite Qceiling_Z in Hx. rewrite Qfloor_Z in Ey. lia.
  - apply Qceiling_resp_le, Hxy.
Qed.

End FloatFacts.

Lemma percent_mono p p' t : (0 < t)%Z -> (p <= p')%Z -> (percent p t <= percent p' t)%Z.
Proof.
  intros Ht Hp. unfold percent.
  apply Z.min_le_compat_l, to_int_mono, fl_mono.
  apply Qmult_le_compat_r; [|discriminate].
  apply fl_mono. unfold Qdiv.
  apply Qmult_le_compat_r.
  - rewrite <- Zle_Qle. exact Hp.
  - apply Qlt_le_weak, Qinv_lt_0_compat.
    change 0%Q with (inject_Z 0). rewrite <- Zlt_Qlt. exact Ht.
Qed.

Lemma percent_le_100 p t : (percent p t <= 100)%Z.
Proof. unfold percent. apply Z.le_min_l. Qed.

Lemma percent_0 t : percent 0 t = 0%Z.
Proof.
  unfold percent, Float.mul, Float.truediv.
  assert (E : (inject_Z 0 / inject_Z t == 0)%Q).
  { unfold Qdiv. change (inject_Z 0) with 0%Q. ring. }
  assert (F : Float.fl (inject_Z 0 / inject_Z t) = 0%Q).
  { unfold Float.fl.
    destruct (Qcompare 0 (inject_Z 0 / inject_Z t)) eqn:C; [reflexivity| |].
    - apply Qlt_alt in C. rewrite E in C. discriminate.
    - apply Qgt_alt in C. rewrite E in C. discriminate. }
  rewrite F. reflexivity.
Qed.

Lemma percent_nonneg p t : (0 < t)%Z -> (0 <= p)%Z -> (0 <= percent p t)%Z.
Proof.
  intros Ht Hp. rewrite <- (percent_0 t). apply percent_mono; assumption.
Qed.

(** ** The matcher *)

Section ReFacts.
Import Re.

Lemma run_In cls p pos rest ms r :
  run (In cls :: p) pos rest ms = Some r ->
  exists c rest', rest = c :: rest' /\ cls c = true /\ run p (S pos) rest' ms = Some r.
Proof.
  destruct rest as [|c rest']; simpl; [discriminate|].
  destruct (cls c) eqn:E; [|discriminate]. eauto.
Qed.

Lemma run_Mark n p pos rest ms :
  run (Mark n :: p) pos rest ms = run p pos rest ((n, pos) :: ms).
Proof. reflexivity. Qed.

Lemma run_AtEnd p pos rest ms r :
  run (AtEnd :: p) pos rest ms = Some r ->
  at_end rest = true /\ run p pos rest ms = Some r.
Proof. simpl. destruct (at_end rest); [auto|discriminate]. Qed.

Lemma run_MaxRepeat_cons cls p pos c rest ms :
  run (MaxRepeat cls :: p) pos (c :: rest) ms =
  if cls c then
    match run (MaxRepeat cls :: p) (S pos) rest ms with
    | Some r => Some r
    | None => run p pos (c :: rest) ms
    end
  else run p pos (c :: rest) ms.
Proof. reflexivity. Qed.

Lemma run_MaxRepeat_nil cls p pos ms :
  run (MaxRepeat cls :: p) pos [] ms = run p pos [] ms.
Proof. reflexivity. Qed.

Lemma run_MinRepeat_unfold cls p pos rest ms :
  run (MinRepeat cls :: p) pos rest ms =
  match run p pos rest ms with
  | Some r => Some r
  | None =>
      match rest with
      | c :: rest' => if cls c then run (MinRepeat cls :: p) (S pos) rest' ms else None
      | [] => None
      end
  end.
Proof. destruct rest; reflexivity. Qed.

(** A greedy repeat that succeeds has consumed a run of the class. *)
Lemma run_MaxRepeat_inv cls p rest : forall pos ms r,
  run (MaxRepeat cls :: p) pos rest ms = Some r ->
  exists A B, rest = A ++ B /\ forallb cls A = true
              /\ run p (pos + length A) B ms = Some r.
Proof.
  induction rest as [|c rest IH]; intros pos ms r H.
  - rewrite run_MaxRepeat_nil in H. exists [], []. simpl.
    rewrite Nat.add_0_r. auto.
  - rewrite run_MaxRepeat_cons in H.
    destruct (cls c) eqn:E.
    + destruct (run (MaxRepeat cls :: p) (S pos) rest ms) eqn:R.
      * injection H as <-. destruct (IH _ _ _ R) as (A & B & -> & HA & HB).
        exists (c :: A), B. simpl. rewrite E, HA.
        replace (pos + S (length A))%nat with (S pos + length A)%nat by lia. auto.
      * exists [], (c :: rest). simpl. rewrite Nat.add_0_r. auto.
    + exists [], (c :: rest). simpl. rewrite Nat.add_0_r. auto.
Qed.

(** A greedy repeat succeeds as soon as one split does. *)
Lemma run_MaxRepeat_some cls p A : forall B pos ms r,
  forallb cls A = true ->
  run p (pos + length A) B ms = Some r ->
  exists r', run (MaxRepeat cls :: p) pos (A ++ B) ms = Some r'.
Proof.
  induction A as [|c A IH]; intros B pos ms r HA HB; cbn [app length forallb] in *.
  - rewrite Nat.add_0_r in HB.
    destruct B as [|b B].
    + rewrite run_MaxRepeat_nil. eauto.
    + rewrite run_MaxRepeat_cons. destruct (cls b); [|eauto].
      destruct (run (MaxRepeat cls :: p) (S pos) B ms); eauto.
  - apply andb_true_iff in HA as [Hc HA].
    rewrite run_MaxRepeat_cons, Hc.
    replace (pos + S (length A))%nat with (S pos + length A)%nat in HB by lia.
    destruct (IH _ _ _ _ HA HB) as [r' ->]. eauto.
Qed.

(** A greedy repeat takes the whole run when what follows it is not of
    the class and the rest of the pattern accepts there. *)
Lemma run_MaxRepeat_all cls p A : forall B pos ms r,
  forallb cls A = true ->
  match B with b :: _ => cls b = false | [] => True end ->
  run p (pos + length A) B ms = Some r ->
  run (MaxRepeat cls :: p) pos (A ++ B) ms = Some r.
Proof.
  induction A as [|c A IH]; intros B pos ms r HA Hb HB; cbn [app length forallb] in *.
  - rewrite Nat.add_0_r in HB.
    destruct B as [|b B].
    + rewrite run_MaxRepeat_nil. exact HB.
    + rewrite run_MaxRepeat_cons, Hb. exact HB.
  - apply andb_true_iff in HA as [Hc HA].
    rewrite run_MaxRepeat_cons, Hc.
    replace (pos + S (length A))%nat with (S pos + length A)%nat in HB by lia.
    rewrite (IH _ _ _ _ HA Hb HB). reflexivity.
Qed.

Lemma run_MinRepeat_inv cls p rest : forall pos ms r,
  run (MinRepeat cls :: p) pos rest ms = Some r ->
  exists A B, rest = A ++ B /\ forallb cls A = true
              /\ run p (pos + length A) B ms = Some r.
Proof.
  induction rest as [|c rest IH]; intros pos ms r H;
    rewrite run_MinRepeat_unfold in H.
  - destruct (run p pos [] ms) eqn:R; [|discriminate].
    injection H as <-. exists [], []. simpl. rewrite Nat.add_0_r. auto.
  - destruct (run p pos (c :: rest) ms) eqn:R.
    + injection H as <-. exists [], (c :: rest). simpl. rewrite Nat.add_0_r. auto.
    + destruct (cls c) eqn:E; [|discriminate].
      destruct (IH _ _ _ H) as (A & B & -> & HA & HB).
      exists (c :: A), B. simpl. rewrite E, HA.
      replace (pos + S (length A))%nat with (S pos + length A)%nat by lia. auto.
Qed.

(** A lazy repeat walks over a run of the class as long as the rest of
    the pattern rejects every earlier stop. *)
Lemma run_MinRepeat_skip cls p A : forall B pos ms,
  forallb cls A = true ->
  (forall A1 A2, A = A1 ++ A2 -> A2 <> [] ->
     run p (pos + length A1) (A2 ++ B) ms = None) ->
  run (MinRepeat cls :: p) pos (A ++ B) ms =
  run (MinRepeat cls :: p) (pos + length A) B ms.
Proof.
  induction A as [|c A IH]; intros B pos ms HA Hfail; cbn [app length forallb] in *.
  - rewrite Nat.add_0_r. reflexivity.
  - apply andb_true_iff in HA as [Hc HA].
    rewrite run_MinRepeat_unfold.
    pose proof (Hfail [] (c :: A) eq_refl ltac:(discriminate)) as H0.
    cbn [app length] in H0. rewrite Nat.add_0_r in H0. rewrite H0, Hc.
    rewrite IH; [f_equal; lia | exact HA |].
    intros A1 A2 -> HA2.
    specialize (Hfail (c :: A1) A2 eq_refl HA2). cbn [app length] in Hfail.
    replace (S pos + length A1)%nat with (pos + S (length A1))%nat by lia.
    exact Hfail.
Qed.

Lemma run_MinRepeat_here cls p pos rest ms r :
  run p pos rest ms = Some r -> run (MinRepeat cls :: p) pos rest ms = Some r.
Proof. intros H. rewrite run_MinRepeat_unfold, H. reflexivity. Qed.

Lemma search_from_unfold p pos rest :
  search_from p pos rest =
  match run p pos rest [] with
  | Some r => Some r
  | None =>
      match rest with
      | _ :: rest' => search_from p (S pos) rest'
      | [] => None
      end
  end.
Proof. destruct rest; reflexivity. Qed.

Lemma search_from_found p A : forall B pos r,
  run p (pos + length A) B [] = Some r ->
  found (search_from p pos (A ++ B)) = true.
Proof.
  induction A as [|c A IH]; intros B pos r H; cbn [app length] in *;
    rewrite search_from_unfold.
  - rewrite Nat.add_0_r in H. rewrite H. reflexivity.
  - destruct (run p pos (c :: A ++ B) []); [reflexivity|].
    apply (IH B (S pos) r).
    replace (S pos + length A)%nat with (pos + S (length A))%nat by lia. exact H.
Qed.

(** Searching for one character of a class is [existsb]. *)
Lemma search_class cls s : forall pos,
  found (search_from [In cls] pos s) = existsb cls s.
Proof.
  induction s as [|c s IH]; intros pos; rewrite search_from_unfold; simpl;
    [reflexivity|].
  destruct (cls c); simpl; [reflexivity|]. apply IH.
Qed.

End ReFacts.

(** ** [strip] and [split] *)

Section StrFacts.

Lemma lstrip_decomp s :
  exists w, s = w ++ lstrip s /\ forallb Unicode.isspace w = true.
Proof.
  induction s as [|c s (w & IH & Hw)]; simpl.
  - exists []. auto.
  - destruct (Unicode.isspace c) eqn:E.
    + exists (c :: w). simpl. rewrite E, Hw. split; [congruence|reflexivity].
    + exists []. auto.
Qed.

Lemma lstrip_head s c t : lstrip s = c :: t -> Unicode.isspace c = false.
Proof.
  induction s as [|x s IH]; simpl; [discriminate|].
  destruct (Unicode.isspace x) eqn:E; [exact IH|].
  intros [= <- _]. exact E.
Qed.

Lemma lstrip_all_space w : forallb Unicode.isspace w = true -> lstrip w = [].
Proof.
  induction w as [|c w IH]; simpl; [reflexivity|].
  intros [-> H]%andb_true_iff. auto.
Qed.

Lemma lstrip_app_space w s :
  forallb Unicode.isspace w = true -> lstrip (w ++ s) = lstrip s.
Proof.
  induction w as [|c w IH]; simpl; [reflexivity|].
  intros [-> H]%andb_true_iff. auto.
Qed.

Lemma lstrip_nonspace c s : Unicode.isspace c = false -> lstrip (c :: s) = c :: s.
Proof. intros E. simpl. rewrite E. reflexivity. Qed.

(** [lstrip] only looks at the text up to its first character that is
    not white space. *)
Lemma lstrip_app s t :
  existsb (fun c => negb (Unicode.isspace c)) s = true ->
  lstrip (s ++ t) = lstrip s ++ t.
Proof.
  induction s as [|c s IH]; simpl; [discriminate|].
  destruct (Unicode.isspace c); simpl; auto.
Qed.

Lemma rstrip_decomp s :
  exists w, s = rstrip s ++ w /\ forallb Unicode.isspace w = true.
Proof.
  unfold rstrip. destruct (lstrip_decomp (rev s)) as (w & E & Hw).
  exists (rev w). split.
  - rewrite <- rev_app_distr, <- E, rev_involutive. reflexivity.
  - rewrite forallb_forall in *. intros x Hx. apply Hw, in_rev, Hx.
Qed.

Lemma rstrip_last s t c : rstrip s = t ++ [c] -> Unicode.isspace c = false.
Proof.
  unfold rstrip. intros H.
  apply (f_equal (@rev N)) in H. rewrite rev_involutive, rev_app_distr in H.
  simpl in H. eapply lstrip_head, H.
Qed.

Lemma rstrip_app_space s w :
  forallb Unicode.isspace w = true -> rstrip (s ++ w) = rstrip s.
Proof.
  intros Hw. unfold rstrip. rewrite rev_app_distr, lstrip_app_space; [reflexivity|].
  rewrite forallb_forall in *. intros x Hx. apply Hw, in_rev, Hx.
Qed.

Lemma rstrip_nil : rstrip [] = [].
Proof. reflexivity. Qed.

(** A text that is not empty and whose last character is not white space
    has a character that is not white space. *)
Lemma last_nonspace s c :
  Unicode.isspace c = false ->
  existsb (fun c => negb (Unicode.isspace c)) (s ++ [c]) = true.
Proof.
  intros E. rewrite existsb_app. simpl. rewrite E. simpl. apply orb_true_r.
Qed.

(** Trimming white space off the right end first changes nothing. *)
Lemma strip_rstrip s : strip (rstrip s) = strip s.
Proof.
  destruct (rstrip_decomp s) as (w & E & Hw).
  destruct (rstrip s) as [|x t] eqn:R using rev_ind.
  - simpl in E. subst s. unfold strip. simpl.
    rewrite lstrip_all_space by exact Hw. reflexivity.
  - clear IHt. pose proof (rstrip_last _ _ _ R) as Hx.
    rewrite E. unfold strip.
    rewrite (lstrip_app (t ++ [x]) w) by (apply last_nonspace, Hx).
    rewrite rstrip_app_space by exact Hw. reflexivity.
Qed.

Lemma lstrip_keeps c s :
  Unicode.isspace c = false -> In c s -> In c (lstrip s).
Proof.
  intros E. induction s as [|x s IH]; simpl; [auto|].
  destruct (Unicode.isspace x) eqn:Ex.
  - intros [->|H]; [congruence|auto].
  - auto.
Qed.

Lemma rstrip_keeps c s :
  Unicode.isspace c = false -> In c s -> In c (rstrip s).
Proof.
  intros E H. unfold rstrip. apply in_rev. rewrite rev_involutive.
  apply lstrip_keeps; [exact E|]. apply in_rev in H. exact H.
Qed.

Lemma strip_keeps c s :
  Unicode.isspace c = false -> In c s -> In c (strip s).
Proof. intros E H. apply rstrip_keeps, lstrip_keeps; assumption. Qed.

(** [strip] returns a part of its argument. *)
Lemma lstrip_incl c s : In c (lstrip s) -> In c s.
Proof.
  induction s as [|x s IH]; simpl; [auto|].
  destruct (Unicode.isspace x); simpl; auto.
Qed.

Lemma strip_incl c s : In c (strip s) -> In c s.
Proof.
  unfold strip, rstrip. intros H. apply in_rev in H.
  apply lstrip_incl in H. apply in_rev in H. apply lstrip_incl, H.
Qed.

(** A text without white space at either end is its own [strip]. *)
Lemma strip_no_space s :
  forallb (fun c => negb (Unicode.isspace c)) s = true -> strip s = s.
Proof.
  intros H. unfold strip.
  assert (L : forall t, forallb (fun c => negb (Unicode.isspace c)) t = true ->
                        lstrip t = t).
  { intros [|c t]; simpl; [reflexivity|].
    intros [Hc _]%andb_true_iff. apply negb_true_iff in Hc. rewrite Hc. reflexivity. }
  rewrite (L s H). unfold rstrip. rewrite L, rev_involutive; [reflexivity|].
  rewrite forallb_forall in *. intros x Hx. apply H, in_rev, Hx.
Qed.

Lemma contains_false c s : contains c s = false <-> ~ In c s.
Proof.
  unfold contains. split.
  - intros H Hin. assert (existsb (N.eqb c) s = true); [|congruence].
    apply existsb_exists. exists c. split; [exact Hin|apply N.eqb_refl].
  - intros H. destruct (existsb (N.eqb c) s) eqn:E; [|reflexivity].
    apply existsb_exists in E as (x & Hx & Ex). apply N.eqb_eq in Ex. subst x. tauto.
Qed.

Lemma contains_app c s t : contains c (s ++ t) = contains c s || contains c t.
Proof. apply existsb_app. Qed.

Lemma split_nonempty sep s : split sep s <> [].
Proof.
  destruct s as [|c s]; simpl; [discriminate|].
  destruct (c =? sep)%N; [discriminate|]. destruct (split sep s); discriminate.
Qed.

(** Without separator there is one piece. *)
Lemma split_none sep s : contains sep s = false -> split sep s = [s].
Proof.
  induction s as [|c s IH]; simpl; [reflexivity|].
  unfold contains in *. simpl. rewrite N.eqb_sym.
  destruct (c =? sep)%N; simpl; [discriminate|].
  intros H. rewrite IH by exact H. reflexivity.
Qed.

(** The first piece ends at the first separator. *)
Lemma split_app sep s t :
  contains sep s = false -> split sep (s ++ sep :: t) = s :: split sep t.
Proof.
  induction s as [|c s IH]; simpl.
  - rewrite N.eqb_refl. reflexivity.
  - unfold contains in *. simpl. rewrite N.eqb_sym.
    destruct (c =? sep)%N; simpl; [discriminate|].
    intros H. rewrite IH by exact H. reflexivity.
Qed.

End StrFacts.

(** ** Character classes *)

Section ClassFacts.
Import Re.

Lemma in_range_true lo hi c : in_range lo hi c = true <-> (lo <= c <= hi)%N.
Proof. unfold in_range. rewrite andb_true_iff, !N.leb_le. tauto. Qed.

Lemma in_range_false lo hi c : (c < lo \/ hi < c)%N -> in_range lo hi c = false.
Proof.
  intros H. unfold in_range. apply andb_false_iff.
  destruct H; [left|right]; apply N.leb_gt; assumption.
Qed.

Lemma latin_bounds c : latin c = true -> (0x41 <= c <= 0x7a)%N.
Proof.
  unfold latin. intros [H|H]%orb_true_iff; apply in_range_true in H; lia.
Qed.

Lemma not_space_from c : (0x21 <= c < 0x85)%N \/ (0x3001 <= c)%N -> Unicode.isspace c = false.
Proof.
  intros H. unfold Unicode.isspace.
  repeat (apply orb_false_iff; split);
    try (apply in_range_false; lia); apply N.eqb_neq; lia.
Qed.

Lemma latin_not_space c : latin c = true -> Unicode.isspace c = false.
Proof. intros H%latin_bounds. apply not_space_from. lia. Qed.

Lemma cjk_not_space c : cjk c = true -> Unicode.isspace c = false.
Proof.
  unfold cjk. intros H%in_range_true. apply not_space_from. lia.
Qed.

Lemma latin_isalpha c : latin c = true -> Unicode.isalpha c = true.
Proof.
  unfold latin. intros [H|H]%orb_true_iff; unfold Unicode.isalpha;
    apply existsb_exists.
  - exists (0x61, 0x7a)%N. split; [right; left; reflexivity | exact H].
  - exists (0x41, 0x5a)%N. split; [left; reflexivity | exact H].
Qed.

Lemma latin_is_any c : latin c = true -> any c = true.
Proof.
  intros H%latin_bounds. unfold any. apply negb_true_iff, N.eqb_neq.
  unfold NL. lia.
Qed.

Lemma latin_is_latin_or_space c : latin c = true -> latin_or_space c = true.
Proof.
  unfold latin, latin_or_space. intros [H|H]%orb_true_iff; rewrite H;
    rewrite ?orb_true_r; reflexivity.
Qed.

Lemma any_no_newline s : forallb any s = true <-> contains NL s = false.
Proof.
  unfold contains, any. induction s as [|c s IH]; cbn [forallb existsb]; [tauto|].
  rewrite andb_true_iff, orb_false_iff, IH, negb_true_iff, (N.eqb_sym c NL). tauto.
Qed.

Lemma space_not_lparen s : forallb space s = true -> contains LPAREN s = false.
Proof.
  intros H. apply contains_false. intros Hin.
  rewrite forallb_forall in H. specialize (H _ Hin). discriminate.
Qed.

End ClassFacts.

(** ** The two bracket patterns *)

Section BracketFacts.
Import Re.

Lemma run_In_cons cls p pos c rest ms :
  cls c = true -> run (In cls :: p) pos (c :: rest) ms = run p (S pos) rest ms.
Proof. intros H. simpl. rewrite H. reflexivity. Qed.

Lemma run_In_fail cls p pos c rest ms :
  cls c = false -> run (In cls :: p) pos (c :: rest) ms = None.
Proof. intros H. simpl. rewrite H. reflexivity. Qed.

Lemma run_AtBeginning p rest ms :
  run (AtBeginning :: p) 0 rest ms = run p 0 rest ms.
Proof. reflexivity. Qed.

Lemma run_AtEnd_ok p pos rest ms :
  at_end rest = true -> run (AtEnd :: p) pos rest ms = run p pos rest ms.
Proof. intros H. simpl. rewrite H. reflexivity. Qed.

Lemma run_nil pos rest ms : run [] pos rest ms = Some (pos, ms).
Proof. reflexivity. Qed.

(** The first occurrence of a character splits a text in one way. *)
Lemma first_occurrence (a : N) X : forall X' Y Y',
  contains a X = false -> contains a X' = false ->
  X ++ a :: Y = X' ++ a :: Y' -> X = X' /\ Y = Y'.
Proof.
  unfold contains.
  induction X as [|x X IH]; intros [|x' X'] Y Y' H H' E; simpl in *.
  - injection E as ->. auto.
  - injection E as <- _. rewrite N.eqb_refl in H'. discriminate.
  - injection E as -> _. rewrite N.eqb_refl in H. discriminate.
  - injection E as <- E.
    apply orb_false_iff in H as [_ H]. apply orb_false_iff in H' as [_ H'].
    destruct (IH _ _ _ H H' E) as [-> ->]. auto.
Qed.

Lemma contains_first a s :
  contains a s = true ->
  exists s1 s2, s = s1 ++ a :: s2 /\ contains a s1 = false.
Proof.
  unfold contains. induction s as [|c s IH]; simpl; [discriminate|].
  destruct (a =? c)%N eqn:E; simpl.
  - intros _. apply N.eqb_eq in E as <-. exists [], s. auto.
  - intros H. destruct (IH H) as (s1 & s2 & -> & H1).
    exists (c :: s1), s2. simpl. rewrite E, H1. auto.
Qed.

(** The text between two offsets. *)
Lemma take_drop_middle (P : list N) a X Y n m :
  n = S (length P) -> m = length X ->
  take m (drop n (P ++ a :: X ++ Y)) = X.
Proof.
  intros -> ->.
  replace (P ++ a :: X ++ Y) with ((P ++ [a]) ++ X ++ Y)
    by (rewrite <- app_assoc; reflexivity).
  rewrite drop_app_length' by (rewrite length_app; simpl; lia).
  apply take_app_length.
Qed.

(** What the specification's pattern accepts, and its two groups. *)
Lemma spec_bracket_inv s e ms :
  rmatch spec_bracket_re s = Some (e, ms) ->
  exists P L C T,
    s = P ++ LPAREN :: L :: C ++ RPAREN :: T
    /\ forallb any P = true /\ latin L = true
    /\ forallb not_paren C = true /\ at_end T = true
    /\ group s ms 1 = P /\ group s ms 2 = L :: C.
Proof.
  unfold rmatch, spec_bracket_re. rewrite run_AtBeginning, run_Mark.
  intros (P & B & -> & HP & H)%run_MaxRepeat_inv.
  rewrite run_Mark in H.
  apply run_In in H as (c & B1 & -> & Hc & H). apply N.eqb_eq in Hc as <-.
  rewrite run_Mark in H.
  apply run_In in H as (L & B2 & -> & HL & H).
  apply run_MaxRepeat_inv in H as (C & B3 & -> & HC & H).
  rewrite run_Mark in H.
  apply run_In in H as (c & T & -> & Hc & H). apply N.eqb_eq in Hc as <-.
  apply run_AtEnd in H as [HT H]. rewrite run_nil in H. injection H as <- <-.
  exists P, L, C, T. repeat split; try assumption.
  - unfold group. simpl. rewrite drop_0, Nat.sub_0_r. apply take_app_length.
  - unfold group. cbn [slot Nat.eqb Nat.mul Nat.sub Nat.add].
    apply (take_drop_middle P LPAREN (L :: C) (RPAREN :: T)); simpl; lia.
Qed.

(** [opens_early] on the parts of a text. *)
Lemma opens_early_suffix A B : opens_early (A ++ B) = false -> opens_early B = false.
Proof.
  induction A as [|a A IH]; [auto|]. cbn [app opens_early].
  intros H. apply orb_false_iff in H as [_ H]. apply IH, H.
Qed.

Lemma opens_early_here X c Z :
  latin_or_space c = true -> opens_early (X ++ LPAREN :: c :: Z) = true.
Proof.
  intros Hc. induction X as [|x X IH].
  - cbn [app opens_early]. rewrite Hc, N.eqb_refl. reflexivity.
  - cbn [app opens_early]. rewrite IH. apply orb_true_r.
Qed.

(** White space followed by a parenthesis, at the head of a text that
    starts with a part holding more than white space: the parenthesis lies
    in that part. *)
Lemma space_run_stops X : forall A R Y,
  forallb space X = true ->
  existsb (fun c => negb (Unicode.isspace c)) A = true ->
  A ++ R = X ++ LPAREN :: Y ->
  exists A', A = X ++ LPAREN :: A'.
Proof.
  induction X as [|x X IH]; intros A R Y HX HA E.
  - destruct A as [|a A]; [discriminate HA|].
    injection E as -> _. exists A. reflexivity.
  - destruct A as [|a A]; [discriminate HA|].
    cbn [app forallb existsb] in *. injection E as -> E.
    apply andb_true_iff in HX as [Hx HX]. unfold space in Hx.
    rewrite Hx in HA. cbn [negb orb] in HA.
    destruct (IH _ _ _ HX HA E) as [A' ->]. exists A'. reflexivity.
Qed.

(** The tail of [bracket_re] after its first group rejects a text in which
    something other than white space comes before the last parenthesis and
    no parenthesis before it is followed by a Latin letter or white space. *)
Lemma bracket_tail_fails A R pos ms p :
  opens_early A = false ->
  existsb (fun c => negb (Unicode.isspace c)) A = true ->
  run (Mark 1 :: MaxRepeat space :: In (lit LPAREN) :: Mark 2
       :: In latin_or_space :: p) pos (A ++ LPAREN :: R) ms = None.
Proof.
  intros HO HA.
  destruct (run _ pos _ ms) as [r|] eqn:H; [exfalso|reflexivity].
  rewrite run_Mark in H.
  apply run_MaxRepeat_inv in H as (X & Y & E & HX & H).
  apply run_In in H as (c & Y1 & -> & Hc & H). apply N.eqb_eq in Hc as <-.
  rewrite run_Mark in H.
  apply run_In in H as (c & Y2 & -> & Hc & _).
  destruct (space_run_stops X A (LPAREN :: R) (c :: Y2) HX HA E) as [A' ->].
  rewrite <- app_assoc in E. apply app_inv_head in E.
  cbn [app] in E. injection E as E.
  destruct A' as [|a A'].
  - cbn [app] in E. injection E as <- _. discriminate Hc.
  - cbn [app] in E. injection E as -> _.
    rewrite (opens_early_here X c A' Hc) in HO. discriminate HO.
Qed.

(** The match of [bracket_re] on a text with one parenthesized group at
    its end. *)
Lemma bracket_re_match P L C T :
  opens_early P = false -> forallb any P = true ->
  latin_or_space L = true ->
  forallb any C = true -> forallb not_paren C = true ->
  at_end T = true ->
  let s := P ++ LPAREN :: L :: C ++ RPAREN :: T in
  exists e ms, rmatch bracket_re s = Some (e, ms)
               /\ group s ms 1 = rstrip P /\ group s ms 2 = L :: C.
Proof.
  intros HP1 HP2 HL HC1 HC2 HT s.
  destruct (rstrip_decomp P) as (W & EP & HW).
  set (P1 := rstrip P) in *.
  assert (HP1any : forallb any P1 = true).
  { rewrite EP, forallb_app in HP2. apply andb_true_iff in HP2 as [H _]. exact H. }
  assert (Es : s = P1 ++ W ++ LPAREN :: L :: C ++ RPAREN :: T).
  { unfold s. rewrite EP at 1. rewrite <- app_assoc. reflexivity. }
  assert (Htail : exists e,
    run [In (lit RPAREN); MaxRepeat space; AtEnd]
        (S (S (length P)) + length C) (RPAREN :: T)
        [(3, S (S (length P)) + length C); (2, S (length P));
         (1, length P1); (0, 0)]%nat
    = Some (e, [(3, S (S (length P)) + length C); (2, S (length P));
                (1, length P1); (0, 0)]%nat)).
  { rewrite run_In_cons by apply N.eqb_refl.
    destruct T as [|t [|? ?]]; simpl in HT; try discriminate.
    - eexists. reflexivity.
    - apply N.eqb_eq in HT as ->. eexists. reflexivity. }
  destruct Htail as [e Htail].
  exists e, [(3, S (S (length P)) + length C); (2, S (length P));
             (1, length P1); (0, 0)]%nat.
  split; [|split].
  - unfold rmatch, bracket_re. rewrite run_AtBeginning, run_Mark, Es.
    rewrite run_MinRepeat_skip; [|exact HP1any|].
    2:{ intros A1 A2 E HA2. rewrite app_assoc. apply bracket_tail_fails.
        - rewrite EP, E, <- app_assoc in HP1.
          apply opens_early_suffix in HP1. exact HP1.
        - rewrite existsb_app. apply orb_true_iff. left.
          destruct A2 as [|x A2 _] using rev_ind; [congruence|].
          apply last_nonspace. eapply (rstrip_last P (A1 ++ A2)).
          fold P1. rewrite E, app_assoc. reflexivity. }
    apply run_MinRepeat_here. rewrite run_Mark.
    apply run_MaxRepeat_all; [exact HW|reflexivity|].
    rewrite run_In_cons by apply N.eqb_refl. rewrite run_Mark.
    rewrite run_In_cons by exact HL.
    replace (0 + length P1 + length W)%nat with (length P)
      by (rewrite EP at 1; rewrite length_app; lia).
    rewrite run_MinRepeat_skip; [|exact HC1|].
    2:{ intros A1 [|a A2] E HA2; [congruence|]. rewrite run_Mark.
        apply run_In_fail. cbn [app].
        rewrite E, forallb_app in HC2. apply andb_true_iff in HC2 as [_ H].
        simpl in H. apply andb_true_iff in H as [H _].
        unfold not_paren in H. apply negb_true_iff, orb_false_iff in H as [_ H].
        unfold lit, RPAREN. rewrite N.eqb_sym. exact H. }
    apply run_MinRepeat_here. rewrite run_Mark. exact Htail.
  - unfold group. simpl. rewrite drop_0, Nat.sub_0_r, Es. apply take_app_length.
  - unfold group. cbn [slot Nat.eqb Nat.mul Nat.sub Nat.add]. unfold s.
    apply (take_drop_middle P LPAREN (L :: C) (RPAREN :: T)); simpl; lia.
Qed.

(** Every text of the specification's bracket form is classified as
    translated. *)
Lemma bracket_form_is_translated P L C T :
  forallb any P = true -> latin L = true -> forallb not_paren C = true ->
  at_end T = true ->
  is_already_translated (P ++ LPAREN :: L :: C ++ RPAREN :: T) = true.
Proof.
  intros HP HL HC HT. unfold is_already_translated.
  destruct (found (search translated_re _)) eqn:F; [reflexivity|].
  destruct (contains NL C) eqn:N.
  - apply contains_first in N as (C1 & C2 & -> & N1).
    set (first := P ++ LPAREN :: L :: C1).
    assert (Nf : contains NL first = false).
    { unfold first. rewrite contains_app. apply orb_false_iff. split.
      - apply any_no_newline, HP.
      - change (LPAREN :: L :: C1) with ([LPAREN; L] ++ C1).
        rewrite contains_app, N1, orb_false_r.
        apply latin_is_any in HL. unfold any in HL. apply negb_true_iff in HL.
        unfold contains. cbn [existsb]. rewrite (N.eqb_sym NL L), HL. reflexivity. }
    replace (P ++ LPAREN :: L :: (C1 ++ NL :: C2) ++ RPAREN :: T)
      with (first ++ NL :: (C2 ++ RPAREN :: T))
      by (unfold first; rewrite <- !app_assoc; reflexivity).
    rewrite contains_app. replace (contains NL (NL :: _)) with true by reflexivity.
    rewrite orb_true_r, split_app by exact Nf.
    pose proof (split_nonempty NL (C2 ++ RPAREN :: T)) as Hne.
    destruct (split NL (C2 ++ RPAREN :: T)) as [|l ls]; [congruence|].
    cbn [length hd]. replace (2 <=? Z.of_nat (S (S (length ls)))) with true
      by (symmetry; apply Z.leb_le; lia).
    replace (existsb Unicode.isalpha (strip first)) with true; [reflexivity|].
    symmetry. apply existsb_exists. exists L. split; [|apply latin_isalpha, HL].
    apply strip_keeps; [apply latin_not_space, HL|].
    unfold first. apply in_or_app. right. right. left. reflexivity.
  - exfalso. unfold search in F.
    assert (E : exists r, run translated_re (0 + length P)
                            (LPAREN :: L :: C ++ RPAREN :: T) [] = Some r).
    { unfold translated_re. rewrite run_In_cons by apply N.eqb_refl.
      rewrite run_In_cons by exact HL.
      eapply run_MaxRepeat_some; [apply any_no_newline, N|].
      rewrite run_In_cons by apply N.eqb_refl. rewrite run_AtEnd_ok by exact HT.
      apply run_nil. }
    destruct E as [r E]. rewrite (search_from_found _ _ _ _ _ E) in F. discriminate.
Qed.

End BracketFacts.

(** ** The cell classifier *)

(** C1 (the code departs from the claim).  The text ["报告\n问题"] has no
    trailing parenthesized group and no Latin letter anywhere, so the claim
    requires [false] for it; [is_already_translated] returns [true], because
    its test of the first line, [c.isalpha()], holds for every letter and
    CJK ideographs are letters. *)
Theorem is_already_translated_chinese_lines :
  let s := [0x62a5; 0x544a; NL; 0x95ee; 0x9898]%N in
  spec_is_bilingual s = false /\ is_already_translated s = true.
Proof. split; vm_compute; reflexivity. Qed.

(** Apart from the letters that are not Latin, the code and the wording
    agree: the code is the wording with [isalpha] for "Latin letter". *)
Lemma is_already_translated_spec s :
  is_already_translated s =
  Re.found (Re.search translated_re s)
  || (contains NL s && existsb Unicode.isalpha (strip (hd [] (split NL s)))).
Proof.
  unfold is_already_translated.
  destruct (Re.found _); [reflexivity|]. simpl.
  destruct (contains NL s) eqn:N; [|reflexivity]. simpl.
  replace (2 <=? Z.of_nat (length (split NL s))) with true.
  - destruct (existsb _ _); reflexivity.
  - symmetry. apply Z.leb_le.
    apply contains_first in N as (s1 & s2 & -> & N1).
    rewrite split_app by exact N1. pose proof (split_nonempty NL s2).
    destruct (split NL s2); [congruence|]. simpl. lia.
Qed.

(** C2 (refuted as stated).  ["a(b)(c)"] matches the pattern of the claim
    with prefix ["a(b)"] and content ["c"], and the code returns
    ["b)(c\na"], not ["c\na(b)"]: its own pattern takes the shortest prefix
    that is followed by a parenthesis. *)
Lemma bracket_form_counterexample :
  let s := py "a(b)(c)" in
  exists e ms,
    Re.rmatch spec_bracket_re s = Some (e, ms)
    /\ Re.group s ms 1 = py "a(b)" /\ Re.group s ms 2 = py "c"
    /\ check_and_adjust_translation_order s = py "b)(c" ++ [NL] ++ py "a"
    /\ check_and_adjust_translation_order s
       <> Re.group s ms 2 ++ [NL] ++ Re.group s ms 1.
Proof.
  eexists _, _. split; [vm_compute; reflexivity|].
  split; [vm_compute; reflexivity|]. split; [vm_compute; reflexivity|].
  split; [vm_compute; reflexivity|]. vm_compute. discriminate.
Qed.

(** C2 (amended).  For every cell text that matches the pattern of the
    claim, [is_already_translated] returns true; when moreover the
    parenthesized content holds no newline and no opening parenthesis of
    the prefix is directly followed by a Latin letter or a white-space
    character, [check_and_adjust_translation_order] returns the trimmed
    content, a newline, and the trimmed prefix. *)
Theorem bracket_form_normalized s e ms :
  Re.rmatch spec_bracket_re s = Some (e, ms) ->
  is_already_translated s = true
  /\ (contains NL (Re.group s ms 2) = false ->
      opens_early (Re.group s ms 1) = false ->
      check_and_adjust_translation_order s =
      strip (Re.group s ms 2) ++ [NL] ++ strip (Re.group s ms 1)).
Proof.
  intros (P & L & C & T & -> & HP & HL & HC & HT & -> & ->)%spec_bracket_inv.
  split; [apply bracket_form_is_translated; assumption|].
  intros HN HP1.
  apply any_no_newline in HN. cbn [forallb] in HN.
  apply andb_true_iff in HN as [_ HN].
  destruct (bracket_re_match P L C T HP1 HP (latin_is_latin_or_space _ HL) HN HC HT)
    as (e' & ms' & E & G1 & G2).
  unfold check_and_adjust_translation_order. rewrite E, G1, G2.
  rewrite strip_rstrip. reflexivity.
Qed.

Lemma bracket_form_normalized_witness :
  is_already_translated (py "x(1) (cd)") = true
  /\ check_and_adjust_translation_order (py "x(1) (cd)")
     = py "cd" ++ [NL] ++ py "x(1)".
Proof.
  destruct (bracket_form_normalized (py "x(1) (cd)") 9%nat
              [(3, 8); (2, 6); (1, 5); (0, 0)]%nat eq_refl) as [H1 H2].
  split; [exact H1 | exact (H2 eq_refl eq_refl)].
Defined.

(** C3 (refuted as stated).  In ["中\n(a)"] the first line is pure CJK and
    the second holds no CJK character, and the result is ["a\n中"], not the
    two lines swapped; ["abc\n(a中)"] is in non-CJK-then-CJK order and is
    rewritten; ["中\n\na"] has three lines and is rewritten. *)
Lemma two_line_counterexample :
  check_and_adjust_translation_order ([0x4e2d; NL] ++ py "(a)")%N
    = py "a" ++ [NL; 0x4e2d]%N
  /\ check_and_adjust_translation_order ([0x4e2d; NL] ++ py "(a)")%N
     <> py "(a)" ++ [NL; 0x4e2d]%N
  /\ check_and_adjust_translation_order (py "abc" ++ [NL] ++ py "(a" ++ [0x4e2d; RPAREN])%N
     <> (py "abc" ++ [NL] ++ py "(a" ++ [0x4e2d; RPAREN])%N
  /\ length (split NL [0x4e2d; NL; NL; 0x61]%N) = 3%nat
  /\ check_and_adjust_translation_order [0x4e2d; NL; NL; 0x61]%N
     <> [0x4e2d; NL; NL; 0x61]%N.
Proof.
  split; [reflexivity|]. split; [vm_compute; discriminate|].
  split; [vm_compute; discriminate|]. split; [reflexivity|].
  vm_compute. discriminate.
Qed.

(** C3 (amended).  For every text that does not have the bracket form:
    if it has two lines, the first pure CJK and the second not blank and
    without CJK character, the result is the trimmed second line, a
    newline, and the first line; if it has two lines in
    non-CJK-then-CJK order it is returned unchanged; if it has three or
    more lines that are not blank it is returned unchanged. *)
Theorem two_line_order s :
  Re.rmatch bracket_re s = None ->
  (forall l1 l2,
     s = l1 ++ NL :: l2 -> contains NL l1 = false -> contains NL l2 = false ->
     nonempty l1 = true -> forallb Re.cjk l1 = true ->
     existsb Re.cjk l2 = false -> nonempty (strip l2) = true ->
     check_and_adjust_translation_order s = strip l2 ++ [NL] ++ l1)
  /\ (forall l1 l2,
        s = l1 ++ NL :: l2 -> contains NL l1 = false -> contains NL l2 = false ->
        existsb Re.cjk l1 = false -> existsb Re.cjk l2 = true ->
        check_and_adjust_translation_order s = s)
  /\ ((3 <= length (nonblank_lines s))%nat ->
      check_and_adjust_translation_order s = s).
Proof.
  intros Hb. unfold check_and_adjust_translation_order. rewrite Hb.
  fold (nonblank_lines s).
  assert (Hinc : forall l, existsb Re.cjk l = false -> existsb Re.cjk (strip l) = false).
  { intros l H. destruct (existsb Re.cjk (strip l)) eqn:E; [|reflexivity].
    apply existsb_exists in E as (x & Hx & Ex). apply strip_incl in Hx.
    assert (existsb Re.cjk l = true) by (apply existsb_exists; eauto). congruence. }
  assert (Hlines : forall l1 l2,
    s = l1 ++ NL :: l2 -> contains NL l1 = false -> contains NL l2 = false ->
    contains NL s = true
    /\ nonblank_lines s =
       filter (fun part => nonempty part = true) [strip l1; strip l2]).
  { intros l1 l2 -> N1 N2. split.
    - rewrite contains_app. replace (contains NL (NL :: l2)) with true by reflexivity.
      apply orb_true_r.
    - unfold nonblank_lines. rewrite split_app, split_none by assumption. reflexivity. }
  split; [|split].
  - intros l1 l2 E N1 N2 Hl1 Hc1 Hc2 Hl2.
    destruct (Hlines l1 l2 E N1 N2) as [-> ->].
    assert (S1 : strip l1 = l1).
    { apply strip_no_space. rewrite forallb_forall in *. intros x Hx.
      apply negb_true_iff, cjk_not_space, Hc1, Hx. }
    rewrite S1, !filter_cons_True, filter_nil by assumption.
    unfold Re.search, chinese_re. rewrite !search_class.
    rewrite (Hinc _ Hc2).
    destruct l1 as [|c l1]; [discriminate|].
    cbn [forallb existsb] in *. apply andb_true_iff in Hc1 as [-> _].
    reflexivity.
  - intros l1 l2 E N1 N2 Hc1 Hc2.
    destruct (Hlines l1 l2 E N1 N2) as [-> ->].
    rewrite !filter_cons, filter_nil.
    destruct (decide (nonempty (strip l1) = true));
      destruct (decide (nonempty (strip l2) = true)); try reflexivity.
    unfold Re.search, chinese_re. rewrite !search_class.
    rewrite (Hinc _ Hc1). simpl. destruct (existsb Re.cjk (strip l2)); reflexivity.
  - intros H3. destruct (contains NL s); [|reflexivity].
    destruct (nonblank_lines s) as [|p1 [|p2 [|p3 ps]]]; simpl in H3; try lia.
    reflexivity.
Qed.

Lemma two_line_order_witness :
  check_and_adjust_translation_order ([0x4e2d; NL] ++ py " a ")%N
    = py "a" ++ [NL; 0x4e2d]%N
  /\ check_and_adjust_translation_order (py "a" ++ [NL; 0x4e2d])%N
     = (py "a" ++ [NL; 0x4e2d])%N.
Proof.
  split.
  - exact (proj1 (two_line_order ([0x4e2d; NL] ++ py " a ")%N eq_refl)
             [0x4e2d]%N (py " a ") eq_refl eq_refl eq_refl eq_refl eq_refl
             eq_refl eq_refl).
  - exact (proj1 (proj2 (two_line_order (py "a" ++ [NL; 0x4e2d])%N eq_refl))
             (py "a") [0x4e2d]%N eq_refl eq_refl eq_refl eq_refl eq_refl).
Defined.

Section Rules.

Context {A B : Type}.

Lemma hoare_bind (P : state -> Prop) (m : M A) (k : A -> M B)
    (Q : outcome A -> state -> Prop) (R : outcome B -> state -> Prop) :
  hoare P m Q ->
  (forall a, hoare (Q (Val a)) (k a) R) ->
  (forall e s, Q (Raise e) s -> R (Raise e) s) ->
  hoare P (bind m k) R.
Proof.
  intros Hm Hk He s HP. specialize (Hm s HP). unfold bind.
  destruct (m s) as [[a|e] s1]; simpl in *.
  - apply Hk, Hm.
  - apply He, Hm.
Qed.

Lemma preserves_hoare (P : state -> Prop) (m : M A) :
  preserves P m -> hoare P m (fun _ => P).
Proof. intros H s HP. apply H, HP. Qed.

Lemma preserves_ret (P : state -> Prop) (a : A) : preserves P (ret a).
Proof. intros s HP. exact HP. Qed.

Lemma preserves_raise (P : state -> Prop) e : preserves P (raise (A := A) e).
Proof. intros s HP. exact HP. Qed.

Lemma preserves_bind (P : state -> Prop) (m : M A) (k : A -> M B) :
  preserves P m -> (forall a, preserves P (k a)) -> preserves P (bind m k).
Proof.
  intros Hm Hk s HP. specialize (Hm s HP). unfold bind.
  destruct (m s) as [[a|e] s1]; simpl in *; [apply Hk, Hm | exact Hm].
Qed.

Lemma preserves_try_except (P : state -> Prop) (m : M A) (h : exn -> M A) :
  preserves P m -> (forall e, preserves P (h e)) -> preserves P (try_except m h).
Proof.
  intros Hm Hh s HP. specialize (Hm s HP). unfold try_except.
  destruct (m s) as [[a|e] s1]; simpl in *; [exact Hm | apply Hh, Hm].
Qed.

Lemma preserves_weaken (P P' : state -> Prop) (m : M A) :
  (forall s, P s <-> P' s) -> preserves P m -> preserves P' m.
Proof. intros E H s HP. apply E, H, E, HP. Qed.

End Rules.

Lemma preserves_for_each {A S R} (P : state -> Prop) (l : list A)
    (body : A -> S -> M (flow S R)) :
  (forall x acc, In x l -> preserves P (body x acc)) ->
  forall acc, preserves P (for_each l body acc).
Proof.
  induction l as [|x l IH]; intros Hb acc; simpl.
  - apply preserves_ret.
  - apply preserves_bind; [apply Hb; left; reflexivity|].
    intros [acc'|v]; [|apply preserves_ret].
    apply IH. intros y acc'' Hy. apply Hb. right. exact Hy.
Qed.

Lemma preserves_get_task (P : state -> Prop) : preserves P get_task.
Proof. intros s HP. exact HP. Qed.

Lemma preserves_get_wb (P : state -> Prop) : preserves P get_wb.
Proof. intros s HP. exact HP. Qed.

Lemma preserves_time_time W (P : state -> Prop) : preserves P (time_time W).
Proof. intros s HP. exact HP. Qed.

Create HintDb pres discriminated.

(** Take a statement apart along its structure; what is left are the
    statements that change the state. *)
Ltac pres_step :=
  match goal with
  | |- preserves _ (bind _ _) => apply preserves_bind; [|intros ?]
  | |- preserves _ (ret _) => apply preserves_ret
  | |- preserves _ (raise _) => apply preserves_raise
  | |- preserves _ get_task => apply preserves_get_task
  | |- preserves _ get_wb => apply preserves_get_wb
  | |- preserves _ (time_time _) => apply preserves_time_time
  | |- preserves _ (try_except _ _) => apply preserves_try_except; [|intros ?]
  | |- preserves _ (assign_cell_text _ _ _ _) => unfold assign_cell_text
  | |- preserves _ (for_each _ _ _) => apply preserves_for_each; intros ? ? ?
  | |- preserves _ (if ?b then _ else _) => destruct b
  | |- preserves _ (match ?x with _ => _ end) => destruct x
  | |- preserves _ (let '(_, _) := ?x in _) => destruct x
  end.

Ltac pres := repeat first [ solve [auto with pres] | pres_step ]; auto with pres.

(** ** The workbook *)

Lemma sheetnames_with_sheet ws f b : sheetnames (with_sheet ws f b) = sheetnames b.
Proof.
  unfold sheetnames, with_sheet. rewrite map_map. apply map_ext.
  intros p. destruct (has_title ws p); reflexivity.
Qed.

Lemma find_with_sheet name ws f b :
  find (has_title name) (with_sheet ws f b) =
  match find (has_title name) b with
  | Some p => Some (if has_title ws p then (fst p, f (snd p)) else p)
  | None => None
  end.
Proof.
  unfold with_sheet. induction b as [|[n sh] b IH]; [reflexivity|].
  cbn [map find].
  assert (E : forall p : str * worksheet,
            has_title name (if has_title ws p then (fst p, f (snd p)) else p)
            = has_title name p).
  { intros p. destruct (has_title ws p); reflexivity. }
  rewrite E. destruct (has_title name (n, sh)); [reflexivity|exact IH].
Qed.

Lemma find_has_title name b p :
  find (has_title name) b = Some p -> fst p = name.
Proof.
  intros H. apply find_some in H as [_ H]. unfold has_title in H.
  apply bool_decide_eq_true in H. exact H.
Qed.

Lemma sheet_with_sheet_ne name ws f b :
  name <> ws -> sheet name (with_sheet ws f b) = sheet name b.
Proof.
  intros Hne. unfold sheet. rewrite find_with_sheet.
  destruct (find (has_title name) b) as [p|] eqn:E; [|reflexivity].
  apply find_has_title in E. unfold has_title.
  rewrite bool_decide_eq_false_2 by congruence. reflexivity.
Qed.

(** A worksheet that is in the workbook is updated in place; one that is
    not is left alone. *)
Lemma sheet_with_sheet_eq ws f b :
  sheet ws (with_sheet ws f b) =
  if bool_decide (ws ∈ sheetnames b) then f (sheet ws b) else sheet ws b.
Proof.
  unfold sheet. rewrite find_with_sheet.
  destruct (find (has_title ws) b) as [p|] eqn:E.
  - pose proof (find_has_title _ _ _ E) as Hp. unfold has_title.
    rewrite bool_decide_eq_true_2 by exact Hp.
    rewrite bool_decide_eq_true_2; [reflexivity|].
    apply find_some in E as [E _]. unfold sheetnames.
    apply list_elem_of_In. rewrite <- Hp. apply in_map, E.
  - rewrite bool_decide_eq_false_2; [reflexivity|].
    intros H. unfold sheetnames in H. apply list_elem_of_In, in_map_iff in H.
    destruct H as (p & Hp & Hin).
    apply (find_none _ _ E) in Hin. unfold has_title in Hin.
    apply bool_decide_eq_false in Hin. congruence.
Qed.

(** Any property of worksheets that [f] keeps is kept by the update. *)
Lemma sheet_with_sheet_ind (Q : worksheet -> worksheet -> Prop) name ws f b :
  (forall sh, Q sh sh) -> (forall sh, Q sh (f sh)) ->
  Q (sheet name b) (sheet name (with_sheet ws f b)).
Proof.
  intros Hr Hf. destruct (decide (name = ws)) as [->|Hne].
  - rewrite sheet_with_sheet_eq. destruct (bool_decide _); auto.
  - rewrite sheet_with_sheet_ne by exact Hne. auto.
Qed.

Lemma cell_at_with_cell row column f sh r c :
  cell_at (with_cell row column f sh) r c =
  if decide ((row, column) = (r, c)) then f (cell_at sh row column)
  else cell_at sh r c.
Proof.
  unfold cell_at at 1, with_cell. simpl.
  rewrite lookup_insert. destruct (decide _); reflexivity.
Qed.

(** ** The task record *)

Ltac task_simpl :=
  repeat match goal with
    | t : Task |- _ => destruct t
    end; simpl in *.

Lemma returns_bind {A B} (V1 : outcome A -> Prop) (V : outcome B -> Prop)
    (m : M A) (k : A -> M B) :
  returns V1 m -> (forall a, V1 (Val a) -> returns V (k a)) ->
  (forall e, V (Raise e)) -> returns V (bind m k).
Proof.
  intros Hm Hk He s. specialize (Hm s). unfold bind.
  destruct (m s) as [[a|e] s1]; simpl in *; [apply Hk, Hm | apply He].
Qed.

Lemma returns_any {A} (m : M A) : returns (fun _ => True) m.
Proof. intros s. exact I. Qed.

Lemma returns_for_each {A S R} (I : S -> Prop) (l : list A)
    (body : A -> S -> M (flow S R)) :
  (forall x acc, In x l -> I acc -> returns (next_in I) (body x acc)) ->
  forall acc, I acc -> returns (next_in I) (for_each l body acc).
Proof.
  induction l as [|x l IH]; intros Hb acc Hacc; simpl.
  - intros s. exact Hacc.
  - eapply returns_bind; [apply Hb; [left; reflexivity|exact Hacc]| |exact (fun _ => Logic.I)].
    intros [acc'|v] H; [|intros s; exact Logic.I].
    apply IH; [|exact H]. intros y a Hy. apply Hb. right. exact Hy.
Qed.

Lemma keys_in_dict_set (Tc : Z -> Prop) k v d :
  Tc k -> keys_in Tc d -> keys_in Tc (dict_set k v d).
Proof.
  intros Hk. unfold keys_in. induction d as [|[k' v'] d IH]; simpl; intros Hd x y.
  - intros [[= <- <-]|[]]. exact Hk.
  - destruct (k' =? k) eqn:E.
    + intros [[= <- <-]|H]; [exact Hk|]. eapply Hd. right. exact H.
    + intros [[= <- <-]|H].
      * eapply Hd. left. reflexivity.
      * eapply IH; [|exact H]. intros a b Hab. eapply Hd. right. exact Hab.
Qed.

Lemma range_spec a b r : In r (range a (b + 1)) <-> a <= r <= b.
Proof.
  unfold range. rewrite <- list_elem_of_In, elem_of_seqZ. lia.
Qed.

Section Frame.

Context (W : world) (b0 : workbook) (ws : str) (Tr Tc : Z -> Prop).

Local Abbreviation F := (frame b0 ws Tr Tc).

Lemma frame_same_wb {A} (m : M A) :
  (forall s, wb (snd (m s)) = wb s) -> preserves F m.
Proof. intros H s HF. unfold frame. rewrite H. exact HF. Qed.

Lemma frame_assign a f : preserves F (assign a f).
Proof. apply frame_same_wb. reflexivity. Qed.

Lemma frame_emit e : preserves F (emit e).
Proof. apply frame_same_wb. reflexivity. Qed.

Lemma frame_baidu_translate q i k : preserves F (baidu_translate W q i k).
Proof.
  apply frame_same_wb. intros s. unfold baidu_translate.
  destruct (baidu_request _ _ _ _); reflexivity.
Qed.

Hint Resolve frame_assign frame_emit frame_baidu_translate : pres.

Lemma frame_update_progress : preserves F update_progress.
Proof.
  unfold update_progress, set_progress, set_message. pres.
Qed.

(** An update of [ws] that stays inside the selection keeps the frame. *)
Lemma frame_update_sheet f :
  (forall sh,
     max_row sh = max_row (sheet ws b0) ->
     max_row (f sh) = max_row sh
     /\ (forall r c, ~ (Tr r /\ Tc c) -> cell_at (f sh) r c = cell_at sh r c)
     /\ (forall c, ~ Tc c -> column_width (f sh) !! c = column_width sh !! c)
     /\ (forall r, ~ Tr r -> row_height (f sh) !! r = row_height sh !! r)) ->
  preserves F (update_sheet ws f).
Proof.
  intros Hf s HF name. destruct (HF name) as (Hm & Hc & Hw & Hh).
  unfold update_sheet. cbn [snd wb].
  destruct (decide (name = ws)) as [->|Hne].
  - rewrite sheet_with_sheet_eq. destruct (bool_decide _); [|exact (HF ws)].
    destruct (Hf _ Hm) as (Fm & Fc & Fw & Fh).
    split; [congruence|]. split; [|split].
    + intros r c H. rewrite Fc by tauto. apply Hc, H.
    + intros c H. rewrite Fw by tauto. apply Hw, H.
    + intros r H. rewrite Fh by tauto. apply Hh, H.
  - rewrite sheet_with_sheet_ne by exact Hne. exact (HF name).
Qed.

Lemma frame_with_cell r c g :
  Tr r -> Tc c -> preserves F (update_sheet ws (with_cell r c g)).
Proof.
  intros Hr Hc. apply frame_update_sheet. intros sh _.
  split; [reflexivity|]. split; [|split]; try reflexivity.
  intros r' c' H. rewrite cell_at_with_cell.
  destruct (decide _) as [[= <- <-]|]; [tauto|reflexivity].
Qed.

Lemma frame_touch r :
  r <= max_row (sheet ws b0) -> preserves F (update_sheet ws (touch r)).
Proof.
  intros Hr. apply frame_update_sheet. intros sh Hm.
  split; [simpl; lia|]. repeat split; reflexivity.
Qed.

Lemma frame_with_width c w :
  Tc c -> preserves F (update_sheet ws (with_width c w)).
Proof.
  intros Hc. apply frame_update_sheet. intros sh _.
  split; [reflexivity|]. split; [reflexivity|]. split; [|reflexivity].
  intros c' H. simpl. apply lookup_insert_ne. congruence.
Qed.

Lemma frame_with_height r h :
  Tr r -> preserves F (update_sheet ws (with_height r h)).
Proof.
  intros Hr. apply frame_update_sheet. intros sh _.
  split; [reflexivity|]. split; [reflexivity|]. split; [reflexivity|].
  intros r' H. simpl. apply lookup_insert_ne. congruence.
Qed.

Lemma frame_ws_cell r c :
  r <= max_row (sheet ws b0) -> preserves F (ws_cell ws r c).
Proof.
  intros Hr. unfold ws_cell. pres. apply frame_touch, Hr.
Qed.

Hint Resolve frame_update_progress frame_with_cell frame_with_width
  frame_with_height frame_ws_cell : pres.

Lemma frame_skip_translated r c cv :
  Tr r -> Tc c -> preserves F (skip_translated ws c r cv).
Proof.
  intros Hr Hc. unfold skip_translated, set_skipped_cells. pres.
Qed.

Lemma frame_attempt_translation r c cv d :
  Tr r -> Tc c -> preserves F (attempt_translation W ws c r cv d).
Proof.
  intros Hr Hc.
  unfold attempt_translation, set_error_cells, set_translated_cells,
    set_message, sleep.
  pres.
Qed.

Hint Resolve frame_skip_translated frame_attempt_translation : pres.

Lemma frame_translate_cell l r c d :
  Tr r -> Tc c -> r <= max_row (sheet ws b0) ->
  preserves F (translate_cell W ws l c r d).
Proof.
  intros Hr Hc Hm. unfold translate_cell, set_current_cell. pres.
Qed.

(** The local dictionary only gets keys of target columns. *)
Lemma keys_attempt_translation r c cv d :
  Tc c -> keys_in Tc d ->
  returns (val_in (keys_in Tc)) (attempt_translation W ws c r cv d).
Proof.
  intros Hc Hd. unfold attempt_translation.
  eapply returns_bind; [apply returns_any| |exact (fun _ => I)]. intros t _.
  eapply returns_bind; [apply returns_any| |exact (fun _ => I)]. intros e _.
  eapply returns_bind; [apply returns_any| |exact (fun _ => I)]. intros [e' again] _.
  destruct again.
  - repeat (eapply returns_bind; [apply returns_any| |exact (fun _ => I)]; intros ? _).
    intros s. exact Hd.
  - eapply returns_bind with (V1 := val_in (keys_in Tc)).
    + destruct e' as [e'|]; [|intros s; exact Hd].
      destruct (nonempty e' && negb (str_eqb e' ERROR_54003)); [|intros s; exact Hd].
      repeat (eapply returns_bind; [apply returns_any| |exact (fun _ => I)]; intros ? _).
      destruct (_ >? _); intros s; [|exact Hd].
      apply keys_in_dict_set; assumption.
    + intros d' Hd'.
      repeat (eapply returns_bind; [apply returns_any| |exact (fun _ => I)]; intros ? _).
      intros s. exact Hd'.
    + exact (fun _ => I).
Qed.

Lemma keys_translate_cell l r c d :
  Tc c -> keys_in Tc d ->
  returns (next_in (keys_in Tc)) (translate_cell W ws l c r d).
Proof.
  intros Hc Hd. unfold translate_cell.
  eapply returns_bind; [apply returns_any| |exact (fun _ => I)]. intros t _.
  assert (H : returns (next_in (R := bool) (keys_in Tc))
    (let* c0 := ws_cell ws r c in
     if countable (value c0) then
       let cell_value := match value c0 with Text s => strip s | _ => [] end in
       set_current_cell (l ++ str_of_int r);;
       if is_already_translated cell_value then
         skip_translated ws c r cell_value;; ret (Next d)
       else
         let* columns_to_adjust := attempt_translation W ws c r cell_value d in
         ret (Next columns_to_adjust)
     else ret (Next d))).
  { eapply returns_bind; [apply returns_any| |exact (fun _ => I)]. intros c0 _.
    destruct (countable (value c0)); [|intros s; exact Hd].
    eapply returns_bind; [apply returns_any| |exact (fun _ => I)]. intros _ _.
    destruct (is_already_translated _).
    - eapply returns_bind; [apply returns_any| |exact (fun _ => I)]. intros _ _.
      intros s. exact Hd.
    - eapply returns_bind; [apply keys_attempt_translation; assumption| |exact (fun _ => I)].
      intros d' Hd' s. exact Hd'. }
  destruct (status t); try exact H. intros s. exact I.
Qed.

Lemma frame_translate_column start_row end_row l d :
  (forall r, start_row <= r <= end_row -> Tr r /\ r <= max_row (sheet ws b0)) ->
  (forall c, column_index_from_string l = Some c -> Tc c) ->
  preserves F (translate_column W ws start_row end_row l d).
Proof.
  intros Hr Hc. unfold translate_column.
  destruct (column_index_from_string l) as [c|]; [|apply preserves_ret].
  apply preserves_for_each. intros r acc Hin%range_spec.
  destruct (Hr r Hin). apply frame_translate_cell; auto.
Qed.

Lemma keys_translate_column start_row end_row l d :
  (forall c, column_index_from_string l = Some c -> Tc c) ->
  keys_in Tc d ->
  returns (next_in (keys_in Tc)) (translate_column W ws start_row end_row l d).
Proof.
  intros Hc Hd. unfold translate_column.
  destruct (column_index_from_string l) as [c|]; [|intros s; exact Hd].
  apply returns_for_each.
  - intros r acc _ Hacc. apply keys_translate_cell; auto.
  - apply keys_in_dict_set; auto.
Qed.

Lemma frame_adjust_widths d :
  keys_in Tc d -> preserves F (adjust_widths ws d).
Proof.
  intros Hd. unfold adjust_widths.
  apply preserves_bind; [|intros; apply preserves_ret].
  apply preserves_for_each. intros [k v] [] Hin.
  apply preserves_bind; [|intros; apply preserves_ret].
  apply frame_with_width. eapply Hd, Hin.
Qed.

Lemma frame_row_lines r l n :
  r <= max_row (sheet ws b0) -> preserves F (row_lines ws r l n).
Proof. intros Hr. unfold row_lines. pres. Qed.

Lemma frame_adjust_heights columns start_row end_row :
  (forall r, start_row <= r <= end_row -> Tr r /\ r <= max_row (sheet ws b0)) ->
  preserves F (adjust_heights ws columns start_row end_row).
Proof.
  intros Hr. unfold adjust_heights.
  apply preserves_bind; [|intros; apply preserves_ret].
  apply preserves_for_each. intros r [] Hin%range_spec.
  destruct (Hr r Hin) as [H1 H2].
  apply preserves_bind.
  - apply preserves_for_each. intros l n _. apply frame_row_lines, H2.
  - intros o. apply preserves_bind; [|intros; apply preserves_ret].
    apply frame_with_height, H1.
Qed.

End Frame.

Lemma frame_refl b ws Tr Tc s : wb s = b -> frame b ws Tr Tc s.
Proof. intros <- name. repeat split. Qed.

(** The pass keeps the frame of its target columns and clamped rows. *)
Lemma frame_translate_worksheet W ws columns start_row end_row s :
  frame (wb s) ws
    (target_row start_row end_row (max_row (sheet ws (wb s))))
    (target_column columns)
    (snd (translate_worksheet_with_progress W ws columns start_row end_row s)).
Proof.
  set (last := max_row (sheet ws (wb s))).
  set (Tr := target_row start_row end_row last).
  set (Tc := target_column columns).
  assert (HF : frame (wb s) ws Tr Tc s) by (apply frame_refl; reflexivity).
  unfold translate_worksheet_with_progress.
  unfold bind at 1. cbn [get_wb fst snd]. fold last.
  change (match end_row with
          | Some e => if e =? 0 then last else e
          | None => last
          end) with
    (match end_row with
     | Some e => if e =? 0 then last else e
     | None => last
     end).
  set (e1 := if _ >? last then last else _).
  set (s1 := if start_row <? 1 then 1 else start_row).
  assert (Hrows : forall r, s1 <= r <= e1 -> Tr r /\ r <= max_row (sheet ws (wb s))).
  { intros r Hr. split; [exact Hr|]. fold last. subst e1.
    destruct (_ >? last) eqn:E; [lia|]. rewrite Z.gtb_ltb in E.
    apply Z.ltb_ge in E. lia. }
  assert (Hcols : forall l, In l columns ->
            forall c, column_index_from_string l = Some c -> Tc c).
  { intros l Hl c Hc. exists l. split; [apply list_elem_of_In, Hl|exact Hc]. }
  destruct (s1 >? e1).
  - assert (P0 : preserves (frame (wb s) ws Tr Tc)
                   (set_message (MsgBadRange s1 e1);; ret false)).
    { apply preserves_bind; [apply frame_assign|intros _; apply preserves_ret]. }
    exact (P0 s HF).
  - pose proof (preserves_for_each (frame (wb s) ws Tr Tc) columns
                  (translate_column W ws s1 e1)) as P1.
    pose proof (returns_for_each (keys_in Tc) columns
                  (translate_column W ws s1 e1)) as V1.
    specialize (P1 (fun l d Hl => frame_translate_column W _ _ _ _ s1 e1 l d Hrows (Hcols l Hl)) [] s HF).
    specialize (V1 (fun l d Hl Hd => keys_translate_column W ws Tc s1 e1 l d (Hcols l Hl) Hd) []
                   (fun k v H => match H with end) s).
    unfold bind at 1.
    destruct (for_each columns (translate_column W ws s1 e1) [] s)
      as [[[d|v]|e] s2]; cbn [fst snd] in *;
      try exact P1.
    assert (P2 : preserves (frame (wb s) ws Tr Tc)
                   (adjust_widths ws d;; adjust_heights ws columns s1 e1;; ret true)).
    { apply preserves_bind; [apply frame_adjust_widths, V1|intros _].
      apply preserves_bind; [apply frame_adjust_heights, Hrows|intros _].
      apply preserves_ret. }
    apply P2, P1.
Qed.

(** C10.  A run of [translate_worksheet_with_progress] on worksheet [ws]
    leaves every cell (value, fill, font and alignment) as it was, except
    in the target columns at the rows of the clamped range; it leaves every
    column width as it was except those of the target columns, every row
    height except those of the rows of the range, and the last row of every
    worksheet. *)
Theorem pass_writes_only_targets W ws columns start_row end_row s name row column :
  let s' := snd (translate_worksheet_with_progress W ws columns start_row end_row s) in
  let last := max_row (sheet ws (wb s)) in
  (~ (name = ws /\ target_row start_row end_row last row
      /\ target_column columns column) ->
   cell_at (sheet name (wb s')) row column = cell_at (sheet name (wb s)) row column)
  /\ (~ (name = ws /\ target_column columns column) ->
      column_width (sheet name (wb s')) !! column
      = column_width (sheet name (wb s)) !! column)
  /\ (~ (name = ws /\ target_row start_row end_row last row) ->
      row_height (sheet name (wb s')) !! row = row_height (sheet name (wb s)) !! row)
  /\ max_row (sheet name (wb s')) = max_row (sheet name (wb s)).
Proof.
  intros s' last.
  destruct (frame_translate_worksheet W ws columns start_row end_row s name)
    as (Hm & Hc & Hw & Hh).
  split; [intros H; apply Hc, H|]. split; [intros H; apply Hw, H|].
  split; [intros H; apply Hh, H|exact Hm].
Qed.

Lemma pass_writes_only_targets_witness :
  let b := [(Sample.title, Sample.half_done)] in
  let s := {| wb := b; task := Sample.job; calls := 1; trace := [] |} in
  let s' := snd (translate_worksheet_with_progress (Sample.answering b)
                   Sample.title [py "D"] 2 (Some 3) s) in
  cell_at (sheet Sample.title (wb s')) 1 4 = cell_at (sheet Sample.title (wb s)) 1 4.
Proof.
  intros b s s'.
  refine (proj1 (pass_writes_only_targets (Sample.answering b) Sample.title
                   [py "D"] 2 (Some 3) s Sample.title 1 4) _).
  intros (_ & [H _] & _). unfold clamped_start in H. simpl in H. lia.
Defined.

(** ** The translation client *)

Lemma randint_bounds a b u : a <= b -> a <= randint a b u <= b.
Proof.
  intros H. unfold randint.
  pose proof (Z.mod_pos_bound u (b - a + 1)). lia.
Qed.

(** C8 (refuted as stated).  A draw of 32768 gives the salt 65536, which
    is not below 65536: [random.randint] includes both end points. *)
Lemma salt_counterexample :
  exists p,
    baidu_request (py "q") (py "appid") (py "appkey") 32768 = Some p
    /\ salt p = 65536 /\ ~ (32768 <= salt p < 65536).
Proof.
  eexists. split; [vm_compute; reflexivity|]. split; [reflexivity|].
  simpl. lia.
Qed.

(** C8 (amended).  Every call of [baidu_translate] that sends a request
    draws a salt that is an integer of the closed range 32768 to 65536 and
    signs the request with the MD5 hex digest of the UTF-8 bytes of
    [app_id + query + str(salt) + app_key]; the request carries that salt,
    the query and the application id.  A call that cannot encode that text
    raises before any request is sent. *)
Theorem baidu_translate_signs W query app_id app_key s :
  match baidu_translate W query app_id app_key s with
  | (Val r, s') =>
      exists p bytes,
        trace s' = Get p :: trace s
        /\ 32768 <= salt p <= 65536
        /\ encode (app_id ++ query ++ str_of_int (salt p) ++ app_key) = Some bytes
        /\ sign p = Md5.hexdigest bytes
        /\ q p = query /\ appid p = app_id
        /\ r = baidu_result (network W (calls s))
  | (Raise _, s') => s' = s
  end.
Proof.
  unfold baidu_translate, baidu_request.
  destruct (encode _) as [bytes|] eqn:E; [|reflexivity].
  eexists _, bytes. cbn [salt sign q appid trace].
  split; [reflexivity|]. split; [apply randint_bounds; lia|].
  split; [exact E|]. repeat split.
Qed.

(** ** Traces *)

Lemma sleeps_cons e tr :
  sleeps (e :: tr) = sleeps tr ++ match e with Sleep d => [d] | _ => [] end.
Proof.
  unfold sleeps. simpl. rewrite omap_app. simpl. destruct e; reflexivity.
Qed.

Lemma error_cells_values_cons e tr :
  error_cells_values (e :: tr) =
  error_cells_values tr
  ++ match e with Assign a_error_cells t => [error_cells t] | _ => [] end.
Proof.
  unfold error_cells_values. simpl. rewrite omap_app. simpl.
  destruct e as [[] ?| | |]; reflexivity.
Qed.

Lemma timeline_cons e tr :
  timeline (e :: tr) =
  timeline tr
  ++ match e with Get _ => [Call] | Sleep d => [Wait d] | _ => [] end.
Proof.
  unfold timeline. simpl. rewrite omap_app. simpl. destruct e; reflexivity.
Qed.

Lemma progress_values_cons e tr :
  progress_values (e :: tr) =
  progress_values tr
  ++ match e with Assign a_progress t => [progress t] | _ => [] end.
Proof.
  unfold progress_values. simpl. rewrite omap_app. simpl.
  destruct e as [[] ?| | |]; reflexivity.
Qed.

Lemma observations_cons e tr :
  observations (e :: tr) =
  observations tr ++ match e with Assign _ t => [t] | _ => [] end.
Proof.
  unfold observations. simpl. rewrite omap_app. simpl. destruct e; reflexivity.
Qed.

Lemma sleeps_app_new new tr : sleeps (new ++ tr) = sleeps tr ++ sleeps new.
Proof. unfold sleeps. rewrite rev_app_distr, omap_app. reflexivity. Qed.

Lemma error_cells_values_app_new new tr :
  error_cells_values (new ++ tr) = error_cells_values tr ++ error_cells_values new.
Proof. unfold error_cells_values. rewrite rev_app_distr, omap_app. reflexivity. Qed.

Lemma timeline_app_new new tr : timeline (new ++ tr) = timeline tr ++ timeline new.
Proof. unfold timeline. rewrite rev_app_distr, omap_app. reflexivity. Qed.

(** ** One cell *)

Section Cell.

Context (W : world).

Local Arguments baidu_request : simpl never.
Local Arguments baidu_result : simpl never.
Local Arguments percent : simpl never.
Local Arguments with_sheet : simpl never.
Local Arguments sheet : simpl never.
Local Arguments Z.add : simpl never.

Lemma baidu_translate_run query app_id app_key s r :
  call_returns W query app_id app_key (calls s) r ->
  exists p,
    baidu_translate W query app_id app_key s =
    (Val r, {| wb := wb s; task := task s; calls := S (calls s);
               trace := Get p :: trace s |}).
Proof.
  intros [H1 H2]. unfold baidu_translate.
  destruct (baidu_request _ _ _ _) as [p|]; [|congruence].
  exists p. rewrite H2. reflexivity.
Qed.

(** The progress update assigns [progress] and [message] only. *)
Lemma update_progress_run s :
  exists new,
    update_progress s =
    (Val tt, {| wb := wb s;
                task := task (snd (update_progress s));
                calls := calls s;
                trace := new ++ trace s |})
    /\ sleeps new = [] /\ error_cells_values new = [] /\ timeline new = []
    /\ translated_cells (task (snd (update_progress s))) = translated_cells (task s)
    /\ error_cells (task (snd (update_progress s))) = error_cells (task s)
    /\ skipped_cells (task (snd (update_progress s))) = skipped_cells (task s).
Proof.
  destruct s as [b t n tr]. destruct t.
  unfold update_progress, bind, get_task, set_progress, set_message, assign, ret.
  simpl.
  destruct (0 <? _); [destruct (_ || _)|].
  - eexists [_; _]. simpl. repeat split.
  - eexists [_]. simpl. repeat split.
  - exists []. simpl. repeat split.
Qed.

Lemma bind_run {A B} (m : M A) (k : A -> M B) s a s1 :
  m s = (Val a, s1) -> bind m k s = k a s1.
Proof. intros E. unfold bind. rewrite E. reflexivity. Qed.

Lemma bind_raise {A B} (m : M A) (k : A -> M B) s e s1 :
  m s = (Raise e, s1) -> bind m k s = (Raise e, s1).
Proof. intros E. unfold bind. rewrite E. reflexivity. Qed.

(** C6.  When the translate call for a cell returns the rate-limited
    result and the one retry does too, [error_cells] is assigned once, to
    its value plus one, the two other counters keep their values, the
    cell gets the highlight fill (solid, yellow [FFFF00]) and the highlight
    font (bold, red [FF0000]), and the only delay is the one cooldown of 10
    seconds, between the two requests. *)
Theorem rate_limited_twice ws col_index row_idx cell_value columns_to_adjust s :
  ws ∈ sheetnames (wb s) ->
  call_returns W cell_value (app_id (task s)) (app_key (task s)) (calls s)
    (Some ERROR_54003) ->
  call_returns W cell_value (app_id (task s)) (app_key (task s)) (S (calls s))
    (Some ERROR_54003) ->
  let s' := snd (attempt_translation W ws col_index row_idx cell_value
                   columns_to_adjust s) in
  error_cells (task s') = error_cells (task s) + 1
  /\ translated_cells (task s') = translated_cells (task s)
  /\ skipped_cells (task s') = skipped_cells (task s)
  /\ error_cells_values (trace s')
     = error_cells_values (trace s) ++ [error_cells (task s) + 1]
  /\ sleeps (trace s') = sleeps (trace s) ++ [10%Q]
  /\ timeline (trace s') = timeline (trace s) ++ [Call; Wait 10; Call]
  /\ fill (cell_at (sheet ws (wb s')) row_idx col_index)
     = Some {| start_color := py "FFFF00"; end_color := py "FFFF00";
               fill_type := py "solid" |}
  /\ font (cell_at (sheet ws (wb s')) row_idx col_index)
     = Some {| color := py "FF0000"; bold := true |}.
Proof.
  intros Hws H1 H2 s'. subst s'.
  destruct (baidu_translate_run _ _ _ s _ H1) as [p1 E1].
  set (s2 := {| wb := wb s; task := with_message MsgRateLimited (task s);
                calls := S (calls s);
                trace := Sleep 10 :: Assign a_message (with_message MsgRateLimited (task s))
                         :: Get p1 :: trace s |}).
  destruct (baidu_translate_run cell_value (app_id (task s)) (app_key (task s))
              s2 _ H2) as [p2 E2].
  unfold attempt_translation.
  erewrite bind_run by reflexivity.
  erewrite bind_run by exact E1.
  rewrite bool_decide_eq_true_2 by reflexivity.
  erewrite bind_run.
  2:{ erewrite bind_run by reflexivity. erewrite bind_run by reflexivity.
      erewrite bind_run by exact E2. reflexivity. }
  rewrite bool_decide_eq_true_2 by reflexivity.
  erewrite bind_run by reflexivity.
  erewrite bind_run by reflexivity.
  erewrite bind_run by reflexivity.
  set (s6 := {| wb := _; task := _; calls := _; trace := _ |}).
  destruct (update_progress_run s6) as (new & E & Hs & He & Ht & Htc & Hec & Hsc).
  erewrite bind_run by exact E. cbn [ret snd task trace wb].
  rewrite Htc, Hec, Hsc. subst s6 s2. cbn [task trace wb calls].
  assert (Hcell : cell_at (sheet ws (with_sheet ws
                     (with_cell row_idx col_index (set_font highlight_font))
                     (with_sheet ws
                        (with_cell row_idx col_index (set_fill highlight_fill))
                        (wb s)))) row_idx col_index
                  = set_font highlight_font
                      (set_fill highlight_fill
                         (cell_at (sheet ws (wb s)) row_idx col_index))).
  { rewrite sheet_with_sheet_eq, sheetnames_with_sheet.
    rewrite bool_decide_eq_true_2 by exact Hws.
    rewrite sheet_with_sheet_eq, bool_decide_eq_true_2 by exact Hws.
    rewrite !cell_at_with_cell, !decide_True by reflexivity. reflexivity. }
  rewrite Hcell.
  rewrite sleeps_app_new, error_cells_values_app_new, timeline_app_new, Hs, He, Ht.
  rewrite !sleeps_cons, !error_cells_values_cons, !timeline_cons.
  destruct (task s). simpl. rewrite <- !app_assoc. simpl.
  repeat split.
Qed.

End Cell.

Lemma rate_limited_twice_witness :
  let b := [(Sample.title, Sample.untranslated)] in
  let s := {| wb := b; task := Sample.job; calls := 1; trace := [] |} in
  let s' := snd (attempt_translation (Sample.limiting b) Sample.title 4 2
                   Sample.report [] s) in
  error_cells (task s') = 1 /\ sleeps (trace s') = [10%Q]
  /\ fill (cell_at (sheet Sample.title (wb s')) 2 4)
     = Some {| start_color := py "FFFF00"; end_color := py "FFFF00";
               fill_type := py "solid" |}
  /\ font (cell_at (sheet Sample.title (wb s')) 2 4)
     = Some {| color := py "FF0000"; bold := true |}.
Proof.
  intros b s s'.
  assert (H0 : Sample.title ∈ sheetnames (wb s)) by (left).
  assert (H1 : call_returns (Sample.limiting b) Sample.report (app_id (task s))
                 (app_key (task s)) (calls s) (Some ERROR_54003)).
  { split; [vm_compute; discriminate | reflexivity]. }
  assert (H2 : call_returns (Sample.limiting b) Sample.report (app_id (task s))
                 (app_key (task s)) (S (calls s)) (Some ERROR_54003)).
  { split; [vm_compute; discriminate | reflexivity]. }
  destruct (rate_limited_twice (Sample.limiting b) Sample.title 4 2
              Sample.report [] s H0 H1 H2)
    as (G1 & _ & _ & _ & G5 & _ & G7 & G8).
  split; [exact G1|]. split; [exact G5|]. split; [exact G7 | exact G8].
Defined.


(** C7 (the code departs from the claim).  With a service that limits
    the two requests for D2, the request for D3 follows the retry for D2 at
    once: the cell D2 reached the translate call and no pacing delay came
    before the next cell was visited.  A cell that is limited twice leaves
    the loop body by [continue], before the [time.sleep(1.5)] that the
    source marks as the delay that avoids the rate limit and that every
    other cell that reached the call runs, as D3 does here. *)
Theorem limited_twice_skips_pacing :
  let b := [(Sample.title, Sample.untranslated)] in
  let s := run (Sample.limiting b) Sample.job in
  status (task s) = Completed
  /\ error_cells (task s) = 1 /\ translated_cells (task s) = 1
  /\ timeline (trace s) = [Call; Call; Wait 10; Call; Call; Wait 1.5].
Proof. vm_compute. repeat split. Qed.

(** C9 (the code departs from the claim).  With nothing to translate in
    the target range the task ends completed after the connection test
    alone, nothing is saved, and [progress] is left at the 0 assigned after
    the pre-scan; on the other path to [completed] the code assigns 100. *)
Theorem nothing_to_translate_progress :
  let b := [(Sample.title, Sample.header_only)] in
  let s := run (Sample.answering b) Sample.job in
  total_cells (task s) = 0 /\ status (task s) = Completed
  /\ progress (task s) = 0 /\ progress_values (trace s) = [0]
  /\ timeline (trace s) = [Call]
  /\ existsb (fun e => match e with Save _ _ => true | _ => false end) (trace s)
     = false
  /\ let s1 := run (Sample.answering [(Sample.title, Sample.half_done)]) Sample.job in
     status (task s1) = Completed /\ progress (task s1) = 100.
Proof. vm_compute. repeat split. Qed.

(** ** The progress value *)

Lemma StronglySorted_snoc (l : list Z) v :
  StronglySorted Z.le l -> Forall (fun x => x <= v) l ->
  StronglySorted Z.le (l ++ [v]).
Proof.
  induction 1 as [|x l Hs IH Hx]; intros Hv; simpl.
  - constructor; constructor.
  - inversion Hv as [|? ? Hxv Hlv]; subst.
    constructor; [apply IH, Hlv|].
    rewrite Forall_app. split; [exact Hx|]. constructor; [exact Hxv|constructor].
Qed.

Lemma progress_bound_le_100 T p : progress_bound T p <= 100.
Proof.
  unfold progress_bound. destruct (0 <? T); [apply percent_le_100|lia].
Qed.

Lemma progress_bound_mono T p p' :
  p <= p' -> progress_bound T p <= progress_bound T p'.
Proof.
  intros H. unfold progress_bound. destruct (0 <? T) eqn:E; [|lia].
  apply percent_mono; [apply Z.ltb_lt, E|exact H].
Qed.

Lemma progress_inv_ok T s : progress_inv T s -> progress_ok s.
Proof.
  intros (_ & H2 & H3). split; [exact H2|].
  eapply Forall_impl; [exact H3|]. intros v Hv. cbv beta in Hv.
  pose proof (progress_bound_le_100 T (total_processed (task s))). lia.
Qed.

Section Quiet.

Context (W : world) (T : Z).

Lemma quiet_progress_inv {A} (m : M A) : quiet m -> preserves (progress_inv T) m.
Proof.
  intros Hq s (H1 & H2 & H3). destruct (Hq s) as (E1 & E2 & E3).
  unfold progress_inv. rewrite E1, E2, E3. auto.
Qed.

Lemma quiet_progress_ok {A} (m : M A) : quiet m -> preserves progress_ok m.
Proof.
  intros Hq s H. destruct (Hq s) as (E1 & _). unfold progress_ok. rewrite E1. exact H.
Qed.

Lemma quiet_progress_unset {A} (m : M A) : quiet m -> preserves progress_unset m.
Proof.
  intros Hq s H. destruct (Hq s) as (E1 & _). unfold progress_unset. rewrite E1. exact H.
Qed.

Lemma quiet_assign a f :
  a <> a_progress ->
  (forall t, total_cells (f t) = total_cells t
             /\ total_processed (f t) = total_processed t) ->
  quiet (assign a f).
Proof.
  intros Ha Hf s. destruct (Hf (task s)) as [E1 E2]. simpl.
  rewrite progress_values_cons. split; [|auto].
  destruct a; try congruence; apply app_nil_r.
Qed.

Lemma quiet_set_message v : quiet (set_message v).
Proof. apply quiet_assign; [discriminate|intros []; split; reflexivity]. Qed.
Lemma quiet_set_status v : quiet (set_status v).
Proof. apply quiet_assign; [discriminate|intros []; split; reflexivity]. Qed.
Lemma quiet_set_current_cell v : quiet (set_current_cell v).
Proof. apply quiet_assign; [discriminate|intros []; split; reflexivity]. Qed.
Lemma quiet_set_current_sheet v : quiet (set_current_sheet v).
Proof. apply quiet_assign; [discriminate|intros []; split; reflexivity]. Qed.
Lemma quiet_set_sheet_names v : quiet (set_sheet_names v).
Proof. apply quiet_assign; [discriminate|intros []; split; reflexivity]. Qed.
Lemma quiet_set_output_file v : quiet (set_output_file v).
Proof. apply quiet_assign; [discriminate|intros []; split; reflexivity]. Qed.
Lemma quiet_set_start_time v : quiet (set_start_time v).
Proof. apply quiet_assign; [discriminate|intros []; split; reflexivity]. Qed.
Lemma quiet_set_end_time v : quiet (set_end_time v).
Proof. apply quiet_assign; [discriminate|intros []; split; reflexivity]. Qed.

Lemma quiet_sleep d : quiet (sleep d).
Proof.
  intros s. simpl. rewrite progress_values_cons, app_nil_r. auto.
Qed.

Lemma quiet_save p b : quiet (emit (Save p b)).
Proof.
  intros s. simpl. rewrite progress_values_cons, app_nil_r. auto.
Qed.

Lemma quiet_update_sheet ws f : quiet (update_sheet ws f).
Proof. intros s. simpl. auto. Qed.

Lemma quiet_set_wb b : quiet (set_wb b).
Proof. intros s. simpl. auto. Qed.

Lemma quiet_baidu_translate q i k : quiet (baidu_translate W q i k).
Proof.
  intros s. unfold baidu_translate. destruct (baidu_request _ _ _ _); simpl; [|auto].
  rewrite progress_values_cons, app_nil_r. auto.
Qed.

End Quiet.

Create HintDb quiet discriminated.
Hint Resolve quiet_set_message quiet_set_status quiet_set_current_cell
  quiet_set_current_sheet quiet_set_sheet_names quiet_set_output_file
  quiet_set_start_time quiet_set_end_time quiet_sleep quiet_save
  quiet_update_sheet quiet_set_wb quiet_baidu_translate : quiet.

Hint Extern 3 (preserves (progress_inv _) _) =>
  (apply quiet_progress_inv; solve [auto with quiet]) : pres.
Hint Extern 3 (preserves progress_ok _) =>
  (apply quiet_progress_ok; solve [auto with quiet]) : pres.
Hint Extern 3 (preserves progress_unset _) =>
  (apply quiet_progress_unset; solve [auto with quiet]) : pres.

Section Progress.

Context (W : world) (T : Z).

Local Arguments percent : simpl never.

Lemma progress_inv_bump a f s :
  a <> a_progress ->
  total_cells (f (task s)) = total_cells (task s) ->
  total_processed (f (task s)) = total_processed (task s) + 1 ->
  progress_inv T s -> progress_inv T (snd (assign a f s)).
Proof.
  intros Ha E1 E2 (H1 & H2 & H3).
  unfold progress_inv. simpl. rewrite progress_values_cons, E1, E2.
  replace (match a with a_progress => _ | _ => _ end) with (@nil Z)
    by (destruct a; congruence).
  rewrite app_nil_r. split; [exact H1|]. split; [exact H2|].
  eapply Forall_impl; [exact H3|]. intros v Hv. cbv beta in Hv.
  eapply Z.le_trans; [exact Hv|]. apply progress_bound_mono. clear. lia.
Qed.

Lemma progress_inv_incr_skipped :
  preserves (progress_inv T)
    (let* t := get_task in set_skipped_cells (skipped_cells t + 1)).
Proof.
  intros s H. apply (progress_inv_bump a_skipped_cells); [discriminate| | |exact H];
    destruct (task s); unfold total_processed; simpl; [reflexivity|lia].
Qed.

Lemma progress_inv_incr_error :
  preserves (progress_inv T)
    (let* t := get_task in set_error_cells (error_cells t + 1)).
Proof.
  intros s H. apply (progress_inv_bump a_error_cells); [discriminate| | |exact H];
    destruct (task s); unfold total_processed; simpl; [reflexivity|lia].
Qed.

Lemma progress_inv_incr_translated :
  preserves (progress_inv T)
    (let* t := get_task in set_translated_cells (translated_cells t + 1)).
Proof.
  intros s H. apply (progress_inv_bump a_translated_cells); [discriminate| | |exact H];
    destruct (task s); unfold total_processed; simpl; [reflexivity|lia].
Qed.

(** The assignment of the progress update puts the bound itself at the
    end of the values. *)
Lemma progress_inv_update_progress : preserves (progress_inv T) update_progress.
Proof.
  intros s H. unfold update_progress.
  erewrite bind_run by reflexivity.
  destruct (0 <? total_cells (task s)) eqn:E; [|exact H].
  assert (H' : progress_inv T
    (snd (set_progress
            (percent (translated_cells (task s) + error_cells (task s)
                      + skipped_cells (task s)) (total_cells (task s))) s))).
  { destruct H as (H1 & H2 & H3). unfold progress_inv.
    simpl. rewrite progress_values_cons.
    assert (Eb : progress_bound T (total_processed (task s))
                 = percent (translated_cells (task s) + error_cells (task s)
                            + skipped_cells (task s)) (total_cells (task s))).
    { unfold progress_bound. rewrite <- H1, E. reflexivity. }
    destruct (task s); simpl in *. unfold total_processed in *. simpl in *.
    split; [exact H1|]. split.
    - apply StronglySorted_snoc; [exact H2|]. rewrite <- Eb. exact H3.
    - rewrite Forall_app. split; [exact H3|].
      constructor; [|constructor]. rewrite Eb. lia. }
  erewrite bind_run by reflexivity.
  destruct (_ || _); [|exact H'].
  apply (quiet_progress_inv T _ (quiet_set_message _)), H'.
Qed.

Hint Resolve progress_inv_incr_skipped progress_inv_incr_error
  progress_inv_incr_translated progress_inv_update_progress : pres.

Lemma progress_inv_skip_translated ws c r cv :
  preserves (progress_inv T) (skip_translated ws c r cv).
Proof. unfold skip_translated. pres. Qed.

Lemma progress_inv_attempt_translation ws c r cv d :
  preserves (progress_inv T) (attempt_translation W ws c r cv d).
Proof. unfold attempt_translation. pres. Qed.

Lemma progress_inv_ws_cell ws r c : preserves (progress_inv T) (ws_cell ws r c).
Proof. unfold ws_cell. pres. Qed.

Hint Resolve progress_inv_skip_translated progress_inv_attempt_translation
  progress_inv_ws_cell : pres.

Lemma progress_inv_translate_worksheet ws columns start_row end_row :
  preserves (progress_inv T)
    (translate_worksheet_with_progress W ws columns start_row end_row).
Proof.
  unfold translate_worksheet_with_progress, translate_column, translate_cell,
    adjust_widths, adjust_heights, row_lines.
  pres.
Qed.

Hint Resolve progress_inv_translate_worksheet : pres.

Lemma progress_inv_process_sheet name go :
  preserves (progress_inv T) (process_sheet W name go).
Proof. unfold process_sheet. pres. Qed.

End Progress.

(** ** The progress value over a run *)

Lemma hoare_pres_then {A B} (P : state -> Prop) (Q : outcome B -> state -> Prop)
    (m : M A) (k : A -> M B) :
  preserves P m -> (forall a, hoare P (k a) Q) ->
  (forall e s, P s -> Q (Raise e) s) -> hoare P (bind m k) Q.
Proof.
  intros Hm Hk He. eapply hoare_bind; [apply preserves_hoare, Hm|exact Hk|exact He].
Qed.

Lemma hoare_pres_end {A} (P : state -> Prop) (Q : outcome A -> state -> Prop)
    (m : M A) :
  preserves P m -> (forall o s, P s -> Q o s) -> hoare P m Q.
Proof. intros Hm HQ s HP. apply HQ, Hm, HP. Qed.

Section ProgressRun.

Context (W : world).

Lemma progress_inv_final T :
  hoare (progress_inv T) (set_progress 100) (fun _ => progress_ok).
Proof.
  intros s (H1 & H2 & H3). unfold progress_ok. simpl.
  rewrite progress_values_cons. cbn [progress with_progress].
  assert (H100 : Forall (fun v => v <= 100) (progress_values (trace s))).
  { eapply Forall_impl; [exact H3|]. intros v Hv. cbv beta in Hv.
    pose proof (progress_bound_le_100 T (total_processed (task s))). lia. }
  assert (E : progress (with_progress 100 (task s)) = 100) by (destruct (task s); reflexivity).
  rewrite E. split.
  - apply StronglySorted_snoc; assumption.
  - rewrite Forall_app. split; [exact H100|]. constructor; [lia|constructor].
Qed.

Lemma save_result_ok T :
  hoare (progress_inv T) (save_result W) (fun _ => progress_ok).
Proof.
  unfold save_result.
  apply hoare_pres_then; [pres| |intros; eapply progress_inv_ok; eassumption].
  intros t.
  assert (H : hoare (progress_inv T)
    (if writable W (output_file t)
     then
       (let* b := get_wb in emit (Save (output_file t) b));;
       set_message MsgSaved;;
       set_status Completed;;
       (let* now := time_time W in set_end_time (Some now));;
       set_progress 100
     else set_message MsgSaveFailed;; set_status Failed)
    (fun _ => progress_ok)).
  { destruct (writable W (output_file t)).
    - repeat (apply hoare_pres_then;
              [solve [pres]|intros ?|intros; eapply progress_inv_ok; eassumption]).
      apply progress_inv_final.
    - apply hoare_pres_end; [pres|intros; eapply progress_inv_ok; eassumption]. }
  destruct (status t); try exact H.
  apply hoare_pres_end; [pres|intros; eapply progress_inv_ok; eassumption].
Qed.

Lemma progress_unset_count_sheet columns start_row end_row name acc :
  preserves progress_unset (count_sheet columns start_row end_row name acc).
Proof.
  unfold count_sheet, count_column, count_cell, ws_cell. pres.
Qed.

Lemma bind_assign {B} a f (k : unit -> M B) s :
  bind (assign a f) k s = k tt (snd (assign a f s)).
Proof. reflexivity. Qed.

(** The five assignments after the pre-scan start the sequence at 0. *)
Lemma reset_starts_progress {B} X (k : M B) (Q : outcome B -> state -> Prop) :
  hoare (progress_inv X) k Q ->
  hoare progress_unset
    (set_total_cells X;; set_translated_cells 0;; set_error_cells 0;;
     set_skipped_cells 0;; set_progress 0;; k) Q.
Proof.
  intros Hk s Hs.
  unfold set_total_cells, set_translated_cells, set_error_cells,
    set_skipped_cells, set_progress.
  rewrite !bind_assign. apply Hk.
  unfold progress_unset in Hs. unfold progress_inv, assign. cbn [snd trace task].
  rewrite !progress_values_cons, Hs.
  destruct (task s); cbn. unfold total_processed; cbn.
  split; [reflexivity|]. split.
  - constructor; constructor.
  - constructor; [|constructor]. unfold progress_bound.
    destruct (0 <? X); [rewrite percent_0|]; lia.
Qed.

Lemma translate_sheets_ok names :
  hoare progress_unset (translate_sheets W names) (fun _ => progress_ok).
Proof.
  assert (U : forall s, progress_unset s -> progress_ok s).
  { intros s Hs. unfold progress_ok. rewrite Hs. split; constructor. }
  unfold translate_sheets.
  apply hoare_pres_then; [pres|intros _|intros; auto].
  apply hoare_pres_then; [pres|intros t|intros; auto].
  apply hoare_pres_then; [|intros r|intros; auto].
  { apply preserves_for_each. intros x acc _. apply progress_unset_count_sheet. }
  destruct (match r with Next acc => acc | Return _ => (0, 0) end) as [a b].
  apply reset_starts_progress.
  destruct (a + b =? 0).
  - apply hoare_pres_end; [pres|intros; eapply progress_inv_ok; eassumption].
  - repeat (apply hoare_pres_then;
            [solve [pres]|intros ?|intros; eapply progress_inv_ok; eassumption]).
    apply hoare_pres_then;
      [|intros r'|intros; eapply progress_inv_ok; eassumption].
    { apply preserves_for_each. intros x acc _. apply progress_inv_process_sheet. }
    destruct r'.
    + apply save_result_ok.
    + apply hoare_pres_end; [pres|intros; eapply progress_inv_ok; eassumption].
Qed.

Lemma engine_body_ok :
  forall s, progress_unset s ->
    progress_ok (snd (translate_excel_with_progress W s)).
Proof.
  assert (U : forall s, progress_unset s -> progress_ok s).
  { intros s Hs. unfold progress_ok. rewrite Hs. split; constructor. }
  intros s Hs. unfold translate_excel_with_progress, try_except.
  match goal with |- context [?m s] =>
    match type of m with M unit =>
      assert (H : hoare progress_unset m (fun _ => progress_ok)); [|
        specialize (H s Hs); destruct (m s) as [[[]|e] s1]; simpl in H |- *]
    end end.
  - repeat (apply hoare_pres_then; [solve [pres]|intros ?|intros; auto]).
    match goal with |- hoare _ (match ?x with _ => _ end) _ => destruct x as [r|] end.
    2: { apply hoare_pres_end; [pres|auto]. }
    destruct (str_eqb r ERROR_54003).
    { apply hoare_pres_end; [pres|auto]. }
    repeat (apply hoare_pres_then; [solve [pres]|intros ?|intros; auto]).
    match goal with |- hoare _ (match ?x with _ => _ end) _ => destruct x as [| |b] end.
    1,2: apply hoare_pres_end; [pres|auto].
    repeat (apply hoare_pres_then; [solve [pres]|intros ?|intros; auto]).
    match goal with |- hoare _ (match ?x with _ => _ end) _ => destruct x as [names|] end.
    + match goal with |- hoare _ (match ?x with _ => _ end) _ => destruct x end.
      * apply hoare_pres_end; [pres|auto].
      * apply hoare_pres_then; [pres|intros ?|intros; auto].
        apply translate_sheets_ok.
    + apply hoare_pres_then; [pres|intros ?|intros; auto].
      apply translate_sheets_ok.
  - exact H.
  - revert H. generalize s1.
    change (preserves progress_ok (set_message MsgError;; set_status Failed)).
    pres.
Qed.

End ProgressRun.

(** C5.  Over a run of the engine the values assigned to the [progress]
    field of the task, in the order of the assignments, never decrease and
    never exceed 100; this holds whatever total the pre-scan fixes. *)
Theorem progress_monotone W t :
  StronglySorted Z.le (progress_values (trace (run W t)))
  /\ Forall (fun v => v <= 100) (progress_values (trace (run W t))).
Proof.
  apply (engine_body_ok W (start t)). reflexivity.
Qed.

(** ** The counters stay within the total *)

Lemma sum_of_nonneg {A} (f : A -> Z) l :
  (forall x, In x l -> 0 <= f x) -> 0 <= sum_of f l.
Proof.
  induction l as [|x l IH]; simpl; intros H; [lia|].
  pose proof (H x (or_introl eq_refl)).
  assert (0 <= sum_of f l) by (apply IH; intros y Hy; apply H; right; exact Hy).
  lia.
Qed.

Lemma sum_of_app {A} (f : A -> Z) l1 l2 :
  sum_of f (l1 ++ l2) = sum_of f l1 + sum_of f l2.
Proof. induction l1 as [|x l1 IH]; simpl; [reflexivity|rewrite IH; lia]. Qed.

Lemma sum_of_le {A} (f g : A -> Z) l :
  (forall x, In x l -> f x <= g x) -> sum_of f l <= sum_of g l.
Proof.
  induction l as [|x l IH]; simpl; intros H; [lia|].
  pose proof (H x (or_introl eq_refl)).
  assert (sum_of f l <= sum_of g l) by (apply IH; intros y Hy; apply H; right; exact Hy).
  lia.
Qed.

Lemma sum_of_ext {A} (f g : A -> Z) l :
  (forall x, In x l -> f x = g x) -> sum_of f l = sum_of g l.
Proof.
  induction l as [|x l IH]; simpl; intros H; [reflexivity|].
  rewrite (H x (or_introl eq_refl)), IH; [reflexivity|].
  intros y Hy. apply H. right. exact Hy.
Qed.

Lemma range_empty a b : b <= a -> range a b = [].
Proof.
  intros H. unfold range, seqZ. replace (Z.to_nat (b - a)) with 0%nat by lia.
  reflexivity.
Qed.

Lemma range_split a b c : a <= b <= c -> range a c = range a b ++ range b c.
Proof.
  intros H. unfold range. replace (c - a) with ((b - a) + (c - b)) by lia.
  rewrite seqZ_app by lia. repeat f_equal; lia.
Qed.

Lemma sum_of_range_le (f : Z -> Z) a b c :
  (forall x, 0 <= f x) -> b <= c -> sum_of f (range a b) <= sum_of f (range a c).
Proof.
  intros Hf Hbc. destruct (Z_le_gt_dec b a) as [Hba|Hba].
  - rewrite (range_empty a b) by exact Hba. simpl.
    apply sum_of_nonneg. intros; apply Hf.
  - rewrite (range_split a b c) by lia. rewrite sum_of_app.
    assert (0 <= sum_of f (range b c)) by (apply sum_of_nonneg; intros; apply Hf).
    lia.
Qed.

Lemma one_if_nonneg c : 0 <= one_if c.
Proof. destruct c; simpl; lia. Qed.

Lemma column_count_nonneg b sr e ws cl : 0 <= column_count b sr e ws cl.
Proof.
  unfold column_count. destruct (column_index_from_string cl); [|lia].
  apply sum_of_nonneg. intros; apply one_if_nonneg.
Qed.

Lemma sheet_count_nonneg b cols sr e ws : 0 <= sheet_count b cols sr e ws.
Proof. apply sum_of_nonneg. intros; apply column_count_nonneg. Qed.

Lemma scan_total_nonneg b cols sr e names : 0 <= scan_total b cols sr e names.
Proof.
  unfold scan_total. destruct (sr <? 1); [lia|].
  apply sum_of_nonneg. intros; apply sheet_count_nonneg.
Qed.

(** *** The loaded workbook and the current one *)

Lemma kept_refl e b : kept e b b.
Proof. intros ws. split; [reflexivity|auto]. Qed.

Lemma kept_with_sheet e b0 b ws f :
  kept e b0 b ->
  last_row e (f (sheet ws b)) = last_row e (sheet ws b) ->
  (forall r c, countable (value (cell_at (f (sheet ws b)) r c)) = true ->
               countable_at b0 ws c r = true) ->
  kept e b0 (with_sheet ws f b).
Proof.
  intros Hk Hl Hc name. destruct (Hk name) as [K1 K2].
  destruct (decide (name = ws)) as [->|Hne].
  - unfold countable_at. rewrite sheet_with_sheet_eq.
    destruct (bool_decide _); [|split; [exact K1|exact K2]].
    split; [rewrite Hl; exact K1|exact Hc].
  - unfold countable_at. rewrite sheet_with_sheet_ne by exact Hne.
    split; [exact K1|exact K2].
Qed.

Lemma last_row_touch e r sh : r <= last_row e sh -> last_row e (touch r sh) = last_row e sh.
Proof.
  unfold last_row, touch. destruct e as [v|]; simpl.
  - destruct (v =? 0) eqn:E; [|reflexivity]. intros H. lia.
  - intros H. lia.
Qed.

Lemma kept_touch e b0 b ws r :
  kept e b0 b -> r <= last_row e (sheet ws b0) -> kept e b0 (with_sheet ws (touch r) b).
Proof.
  intros Hk Hr. destruct (Hk ws) as [K1 K2]. apply kept_with_sheet; [exact Hk| |].
  - apply last_row_touch. rewrite K1. exact Hr.
  - intros r' c. apply K2.
Qed.

Lemma kept_with_cell e b0 b ws r c f :
  kept e b0 b ->
  (countable (value (f (cell_at (sheet ws b) r c))) = true ->
   countable_at b0 ws c r = true) ->
  kept e b0 (with_sheet ws (with_cell r c f) b).
Proof.
  intros Hk Hf. destruct (Hk ws) as [K1 K2]. apply kept_with_sheet; [exact Hk|reflexivity|].
  intros r' c'. rewrite cell_at_with_cell.
  destruct (decide _) as [[= <- <-]|_]; [exact Hf|apply K2].
Qed.

Lemma kept_dimensions e b0 b ws f :
  kept e b0 b ->
  (forall sh, cells (f sh) = cells sh /\ max_row (f sh) = max_row sh) ->
  kept e b0 (with_sheet ws f b).
Proof.
  intros Hk Hf. destruct (Hk ws) as [K1 K2]. destruct (Hf (sheet ws b)) as [F1 F2].
  apply kept_with_sheet; [exact Hk| |].
  - unfold last_row. rewrite F2. reflexivity.
  - intros r c. unfold cell_at. rewrite F1. apply K2.
Qed.

Section Budget.

Context (W : world) (b0 : workbook) (t0 : Task) (T : Z).

Lemma budget_mono n n' s : budget b0 t0 T n s -> n <= n' -> n' <= T -> budget b0 t0 T n' s.
Proof.
  intros (H1 & H2 & H3 & (C1 & C2 & C3 & C4 & C5) & H5) Hn Hn'.
  unfold budget, counted. intuition lia.
Qed.

Lemma budget_sound n s : budget b0 t0 T n s -> sound s.
Proof.
  intros (H1 & H2 & H3 & (C1 & C2 & C3 & C4 & C5) & H5).
  split; [unfold within_total; lia|exact H5].
Qed.

Lemma budget_assign a f n :
  (forall t, same_request t0 t -> same_request t0 (f t)) ->
  (forall t, counted T n t -> counted T n (f t)) ->
  preserves (budget b0 t0 T n) (assign a f).
Proof.
  intros Hr Hc s (H1 & H2 & H3 & H4 & H5). unfold budget. simpl.
  rewrite observations_cons.
  split; [exact H1|]. split; [apply Hr, H2|]. split; [exact H3|].
  split; [apply Hc, H4|].
  rewrite Forall_app. split; [exact H5|]. constructor; [|constructor].
  destruct (Hc _ H4) as (C1 & C2 & C3 & C4 & C5). unfold within_total. lia.
Qed.

Ltac setter :=
  apply budget_assign; intros []; unfold same_request, counted, total_processed;
  simpl; auto.

Lemma budget_set_message v n : preserves (budget b0 t0 T n) (set_message v).
Proof. setter. Qed.
Lemma budget_set_status v n : preserves (budget b0 t0 T n) (set_status v).
Proof. setter. Qed.
Lemma budget_set_current_cell v n : preserves (budget b0 t0 T n) (set_current_cell v).
Proof. setter. Qed.
Lemma budget_set_current_sheet v n : preserves (budget b0 t0 T n) (set_current_sheet v).
Proof. setter. Qed.
Lemma budget_set_sheet_names v n : preserves (budget b0 t0 T n) (set_sheet_names v).
Proof. setter. Qed.
Lemma budget_set_output_file v n : preserves (budget b0 t0 T n) (set_output_file v).
Proof. setter. Qed.
Lemma budget_set_start_time v n : preserves (budget b0 t0 T n) (set_start_time v).
Proof. setter. Qed.
Lemma budget_set_end_time v n : preserves (budget b0 t0 T n) (set_end_time v).
Proof. setter. Qed.
Lemma budget_set_progress v n : preserves (budget b0 t0 T n) (set_progress v).
Proof. setter. Qed.

Lemma budget_emit e n :
  match e with Assign _ _ => False | _ => True end ->
  preserves (budget b0 t0 T n) (emit e).
Proof.
  intros He s (H1 & H2 & H3 & H4 & H5). unfold budget. simpl.
  rewrite observations_cons. destruct e; [destruct He| | |];
    rewrite app_nil_r; auto.
Qed.

Lemma budget_sleep d n : preserves (budget b0 t0 T n) (sleep d).
Proof. apply budget_emit. exact I. Qed.

Lemma budget_save p b n : preserves (budget b0 t0 T n) (emit (Save p b)).
Proof. apply budget_emit. exact I. Qed.

Lemma budget_baidu_translate q i k n :
  preserves (budget b0 t0 T n) (baidu_translate W q i k).
Proof.
  intros s H. unfold baidu_translate. destruct (baidu_request _ _ _ _); [|exact H].
  destruct H as (H1 & H2 & H3 & H4 & H5). unfold budget. simpl.
  rewrite observations_cons, app_nil_r. auto.
Qed.

Lemma budget_update_sheet ws f n :
  (forall b, kept (end_row t0) b0 b -> kept (end_row t0) b0 (with_sheet ws f b)) ->
  preserves (budget b0 t0 T n) (update_sheet ws f).
Proof.
  intros Hf s (H1 & H2 & H3 & H4 & H5). unfold budget. simpl. auto.
Qed.

Lemma budget_touch ws r n :
  r <= last_row (end_row t0) (sheet ws b0) ->
  preserves (budget b0 t0 T n) (update_sheet ws (touch r)).
Proof. intros Hr. apply budget_update_sheet. intros b Hb. apply kept_touch; assumption. Qed.

Lemma budget_ws_cell ws r c n :
  r <= last_row (end_row t0) (sheet ws b0) ->
  preserves (budget b0 t0 T n) (ws_cell ws r c).
Proof.
  intros Hr. unfold ws_cell. destruct (_ || _); [apply preserves_raise|].
  apply preserves_bind; [apply preserves_get_wb|intros b].
  apply preserves_bind; [apply budget_touch, Hr|intros _; apply preserves_ret].
Qed.

Lemma budget_set_value ws r c v n :
  countable_at b0 ws c r = true ->
  preserves (budget b0 t0 T n)
    (update_sheet ws (with_cell r c (set_value v))).
Proof.
  intros H0. apply budget_update_sheet. intros b Hb.
  apply kept_with_cell; [exact Hb|]. intros _. exact H0.
Qed.

Lemma budget_same_value ws r c f n :
  (forall x, value (f x) = value x) ->
  preserves (budget b0 t0 T n) (update_sheet ws (with_cell r c f)).
Proof.
  intros Hf. apply budget_update_sheet. intros b Hb.
  apply kept_with_cell; [exact Hb|]. rewrite Hf. apply (Hb ws).
Qed.

Lemma budget_set_fill ws r c x n :
  preserves (budget b0 t0 T n) (update_sheet ws (with_cell r c (set_fill x))).
Proof. apply budget_same_value. reflexivity. Qed.
Lemma budget_set_font ws r c x n :
  preserves (budget b0 t0 T n) (update_sheet ws (with_cell r c (set_font x))).
Proof. apply budget_same_value. reflexivity. Qed.
Lemma budget_set_alignment ws r c x n :
  preserves (budget b0 t0 T n) (update_sheet ws (with_cell r c (set_alignment x))).
Proof. apply budget_same_value. reflexivity. Qed.

Lemma budget_with_width ws c w n :
  preserves (budget b0 t0 T n) (update_sheet ws (with_width c w)).
Proof.
  apply budget_update_sheet. intros b Hb. apply kept_dimensions; [exact Hb|].
  intros sh. split; reflexivity.
Qed.

Lemma budget_with_height ws r h n :
  preserves (budget b0 t0 T n) (update_sheet ws (with_height r h)).
Proof.
  apply budget_update_sheet. intros b Hb. apply kept_dimensions; [exact Hb|].
  intros sh. split; reflexivity.
Qed.

End Budget.

Hint Resolve budget_set_message budget_set_status budget_set_current_cell
  budget_set_current_sheet budget_set_sheet_names budget_set_output_file
  budget_set_start_time budget_set_end_time budget_set_progress budget_sleep
  budget_save budget_baidu_translate budget_touch budget_ws_cell
  budget_set_value budget_set_fill budget_set_font budget_set_alignment
  budget_with_width budget_with_height : pres.

(** A loop whose iterations each take their share [g x] of what is left
    of a bound [T]. *)
Lemma hoare_for_each_shares {A S R} (I : Z -> state -> Prop) (T : Z)
    (g : A -> Z) (l : list A) (body : A -> S -> M (flow S R)) :
  (forall n n' s, I n s -> n <= n' -> n' <= T -> I n' s) ->
  (forall x, In x l -> 0 <= g x) ->
  (forall x acc n, In x l -> n + g x <= T ->
     hoare (I n) (body x acc) (fun _ => I (n + g x))) ->
  forall acc n, n + sum_of g l <= T ->
    hoare (I n) (for_each l body acc) (fun _ => I (n + sum_of g l)).
Proof.
  intros Hmono. induction l as [|x l IH]; intros Hg Hb acc n Hn; simpl in *.
  - intros s Hs. simpl. rewrite Z.add_0_r. exact Hs.
  - assert (G0 : 0 <= g x) by (apply Hg; left; reflexivity).
    assert (G1 : 0 <= sum_of g l).
    { apply sum_of_nonneg. intros y Hy. apply Hg. right. exact Hy. }
    eapply hoare_bind.
    + apply (Hb x acc n); [left; reflexivity|lia].
    + intros [acc'|v]; cbv beta.
      * rewrite Z.add_assoc. apply IH; [| |lia].
        -- intros y Hy. apply Hg. right. exact Hy.
        -- intros y acc'' m Hy. apply Hb. right. exact Hy.
      * intros s Hs. simpl. eapply Hmono; [exact Hs|lia|lia].
    + intros e s Hs. cbv beta in Hs. eapply Hmono; [exact Hs|lia|lia].
Qed.

Lemma bind_get_task {B} (k : Task -> M B) s : bind get_task k s = k (task s) s.
Proof. reflexivity. Qed.

Lemma bind_get_wb {B} (k : workbook -> M B) s : bind get_wb k s = k (wb s) s.
Proof. reflexivity. Qed.

Section Pass.

Context (W : world) (b0 : workbook) (t0 : Task) (T : Z).

Lemma budget_update_progress n : preserves (budget b0 t0 T n) update_progress.
Proof. unfold update_progress. pres. Qed.

Lemma budget_bump a f n s :
  n + 1 <= T ->
  same_request t0 (f (task s)) ->
  counted T (n + 1) (f (task s)) ->
  budget b0 t0 T n s -> budget b0 t0 T (n + 1) (snd (assign a f s)).
Proof.
  intros Hn Hr Hc (H1 & H2 & H3 & H4 & H5). unfold budget. simpl.
  rewrite observations_cons.
  split; [exact Hn|]. split; [exact Hr|]. split; [exact H3|]. split; [exact Hc|].
  rewrite Forall_app. split; [exact H5|]. constructor; [|constructor].
  destruct Hc as (C1 & C2 & C3 & C4 & C5). unfold within_total. lia.
Qed.

Ltac bump a :=
  let s := fresh "s" in
  let H := fresh "H" in
  intros ? s H; apply (budget_bump a); [assumption| | |exact H];
  destruct H as (_ & ? & _ & ? & _);
  destruct (task s);
  unfold same_request, counted, total_processed in *; simpl in *;
  [assumption|intuition lia].

Lemma budget_incr_skipped n :
  n + 1 <= T ->
  hoare (budget b0 t0 T n)
    (let* t := get_task in set_skipped_cells (skipped_cells t + 1))
    (fun _ => budget b0 t0 T (n + 1)).
Proof. bump a_skipped_cells. Qed.

Lemma budget_incr_error n :
  n + 1 <= T ->
  hoare (budget b0 t0 T n)
    (let* t := get_task in set_error_cells (error_cells t + 1))
    (fun _ => budget b0 t0 T (n + 1)).
Proof. bump a_error_cells. Qed.

Lemma budget_incr_translated n :
  n + 1 <= T ->
  hoare (budget b0 t0 T n)
    (let* t := get_task in set_translated_cells (translated_cells t + 1))
    (fun _ => budget b0 t0 T (n + 1)).
Proof. bump a_translated_cells. Qed.

Hint Resolve budget_update_progress : pres.

Lemma budget_skip_translated ws c r cv n :
  countable_at b0 ws c r = true -> n + 1 <= T ->
  hoare (budget b0 t0 T n) (skip_translated ws c r cv)
        (fun _ => budget b0 t0 T (n + 1)).
Proof.
  intros H0 Hn. unfold skip_translated.
  apply hoare_pres_then;
    [solve [pres]|intros _|intros; eapply budget_mono; eauto; lia].
  eapply hoare_bind;
    [exact (budget_incr_skipped n Hn)|intros ?|intros e s H; exact H].
  apply preserves_hoare. apply budget_update_progress.
Qed.

Lemma budget_attempt_translation ws c r cv d n :
  countable_at b0 ws c r = true -> n + 1 <= T ->
  hoare (budget b0 t0 T n) (attempt_translation W ws c r cv d)
        (fun _ => budget b0 t0 T (n + 1)).
Proof.
  intros H0 Hn. unfold attempt_translation.
  assert (Hw : forall s, budget b0 t0 T n s -> budget b0 t0 T (n + 1) s).
  { intros s Hs. eapply budget_mono; [exact Hs|lia|exact Hn]. }
  do 3 (apply hoare_pres_then; [solve [pres]|intros ?|intros; apply Hw; assumption]).
  match goal with |- hoare _ (let '(_, _) := ?x in _) _ => destruct x as [english limited] end.
  destruct limited.
  - eapply hoare_bind;
      [exact (budget_incr_error n Hn)|intros ?|intros e s H; exact H].
    apply preserves_hoare. pres.
  - eapply hoare_bind with (Q := fun _ => budget b0 t0 T (n + 1));
      [|intros ?|intros e s H; exact H].
    + destruct english as [e|]; [|intros s Hs; apply Hw, Hs].
      destruct (_ && _); [|intros s Hs; apply Hw, Hs].
      do 2 (apply hoare_pres_then; [solve [pres]|intros ?|intros; apply Hw; assumption]).
      eapply hoare_bind;
        [exact (budget_incr_translated n Hn)|intros ?|intros e' s H; exact H].
      apply preserves_hoare. pres.
    + apply preserves_hoare. pres.
Qed.

Lemma budget_translate_cell ws cl ci r d n :
  r <= last_row (end_row t0) (sheet ws b0) ->
  n + one_if (countable_at b0 ws ci r) <= T ->
  hoare (budget b0 t0 T n) (translate_cell W ws cl ci r d)
        (fun _ => budget b0 t0 T (n + one_if (countable_at b0 ws ci r))).
Proof.
  intros Hr Hn s Hs.
  pose proof (one_if_nonneg (countable_at b0 ws ci r)) as Hi.
  assert (Hw : forall s', budget b0 t0 T n s' ->
            budget b0 t0 T (n + one_if (countable_at b0 ws ci r)) s').
  { intros s' Hs'. eapply budget_mono; [exact Hs'|lia|exact Hn]. }
  unfold translate_cell. rewrite bind_get_task.
  assert (Hgo : let m :=
     (let* c := ws_cell ws r ci in
      if countable (value c)
      then
        let cell_value := match value c with Text s0 => strip s0 | _ => [] end in
        set_current_cell (cl ++ str_of_int r);;
        (if is_already_translated cell_value
         then skip_translated ws ci r cell_value;; ret (Next d)
         else
           let* columns_to_adjust :=
             attempt_translation W ws ci r cell_value d in
           ret (Next (R := bool) columns_to_adjust))
      else ret (Next d)) in
     budget b0 t0 T (n + one_if (countable_at b0 ws ci r)) (snd (m s))).
  { cbv zeta. unfold ws_cell.
    destruct (_ || _) eqn:Eb; [apply Hw, Hs|].
    erewrite bind_run by reflexivity.
    match goal with |- context [snd (_ ?x)] => set (s1 := x) end.
    assert (Hs1 : budget b0 t0 T n s1) by (apply (budget_touch b0 t0 T ws r n Hr s Hs)).
    destruct (countable (value (cell_at (sheet ws (wb s)) r ci))) eqn:Ec;
      [|apply Hw, Hs1].
    assert (H0 : countable_at b0 ws ci r = true).
    { destruct Hs as (_ & _ & Hk & _). apply (Hk ws). exact Ec. }
    rewrite H0 in *. simpl in Hn |- *.
    clearbody s1. revert s1 Hs1.
    match goal with |- forall s1, _ -> budget _ _ _ _ (snd (?m s1)) =>
      change (hoare (budget b0 t0 T n) m (fun _ => budget b0 t0 T (n + 1))) end.
    apply hoare_pres_then;
      [solve [pres]|intros _|intros; eapply budget_mono; eauto; lia].
    destruct (is_already_translated _).
    - eapply hoare_bind;
        [apply budget_skip_translated; assumption|intros ?|intros e s' H; exact H].
      apply preserves_hoare, preserves_ret.
    - eapply hoare_bind;
        [apply budget_attempt_translation; assumption|intros ?|intros e s' H; exact H].
      apply preserves_hoare, preserves_ret. }
  cbv zeta in Hgo.
  destruct (status (task s)); try exact Hgo.
  apply Hw, Hs.
Qed.

End Pass.

Lemma hoare_post {A} (P : state -> Prop) (Q Q' : outcome A -> state -> Prop)
    (m : M A) :
  hoare P m Q -> (forall o s, Q o s -> Q' o s) -> hoare P m Q'.
Proof. intros H HQ s HP. apply HQ, H, HP. Qed.

Section Sheets.

Context (W : world) (b0 : workbook) (t0 : Task) (T : Z).

Hint Resolve budget_update_progress : pres.

Lemma budget_translate_column ws sr er cl d n :
  er <= last_row (end_row t0) (sheet ws b0) ->
  n + column_count b0 sr (end_row t0) ws cl <= T ->
  hoare (budget b0 t0 T n) (translate_column W ws sr er cl d)
        (fun _ => budget b0 t0 T (n + column_count b0 sr (end_row t0) ws cl)).
Proof.
  intros Her. unfold translate_column, column_count.
  destruct (column_index_from_string cl) as [ci|].
  - intros Hn.
    assert (Hle : sum_of (fun row => one_if (countable_at b0 ws ci row))
                    (range sr (er + 1))
                  <= sum_of (fun row => one_if (countable_at b0 ws ci row))
                       (range sr (last_row (end_row t0) (sheet ws b0) + 1))).
    { apply sum_of_range_le; [intros; apply one_if_nonneg|lia]. }
    eapply hoare_post.
    + apply (hoare_for_each_shares (budget b0 t0 T) T
               (fun row => one_if (countable_at b0 ws ci row))).
      * apply budget_mono.
      * intros; apply one_if_nonneg.
      * intros r acc m Hin Hm. apply budget_translate_cell; [|exact Hm].
        apply range_spec in Hin. lia.
      * lia.
    + intros o s Hs. cbv beta in Hs. eapply budget_mono; [exact Hs|lia|exact Hn].
  - intros Hn. rewrite Z.add_0_r. apply preserves_hoare, preserves_ret.
Qed.

Lemma budget_adjust_widths ws d n :
  preserves (budget b0 t0 T n) (adjust_widths ws d).
Proof. unfold adjust_widths. pres. Qed.

Lemma budget_adjust_heights ws cols sr er n :
  er <= last_row (end_row t0) (sheet ws b0) ->
  preserves (budget b0 t0 T n) (adjust_heights ws cols sr er).
Proof.
  intros Her. unfold adjust_heights, row_lines.
  apply preserves_bind; [|intros ?; apply preserves_ret].
  apply preserves_for_each. intros r acc Hin. apply range_spec in Hin.
  assert (Hr : r <= last_row (end_row t0) (sheet ws b0)) by lia.
  pres.
Qed.

Lemma budget_pass ws cols sr n :
  1 <= sr ->
  n + sheet_count b0 cols sr (end_row t0) ws <= T ->
  hoare (budget b0 t0 T n)
        (translate_worksheet_with_progress W ws cols sr (end_row t0))
        (fun _ => budget b0 t0 T (n + sheet_count b0 cols sr (end_row t0) ws)).
Proof.
  intros Hsr Hn s Hs.
  pose proof (sheet_count_nonneg b0 cols sr (end_row t0) ws) as Hc.
  assert (Hw : forall s', budget b0 t0 T n s' ->
            budget b0 t0 T (n + sheet_count b0 cols sr (end_row t0) ws) s').
  { intros s' Hs'. eapply budget_mono; [exact Hs'|lia|exact Hn]. }
  unfold translate_worksheet_with_progress. rewrite bind_get_wb. cbv beta zeta.
  set (last := max_row (sheet ws (wb s))).
  set (e1 := if _ >? last then last else _).
  assert (He1 : e1 <= last_row (end_row t0) (sheet ws b0)).
  { destruct Hs as (_ & _ & Hk & _). destruct (Hk ws) as [K1 _]. rewrite <- K1.
    subst e1. unfold last_row. fold last.
    destruct (end_row t0) as [v|]; [destruct (v =? 0)|];
      rewrite Z.gtb_ltb;
      match goal with |- context [?a <? ?b] => destruct (Z.ltb_spec a b) end; lia. }
  clearbody e1.
  replace (if sr <? 1 then 1 else sr) with sr
    by (destruct (Z.ltb_spec sr 1); [lia|reflexivity]).
  destruct (sr >? e1).
  - assert (P0 : preserves (budget b0 t0 T n)
                   (set_message (MsgBadRange sr e1);; ret false)) by pres.
    apply Hw, P0, Hs.
  - subst last. revert s Hs.
    match goal with |- forall s, _ -> budget _ _ _ _ (snd (?m s)) =>
      change (hoare (budget b0 t0 T n) m
                (fun _ => budget b0 t0 T
                            (n + sheet_count b0 cols sr (end_row t0) ws))) end.
    eapply hoare_bind.
    + apply (hoare_for_each_shares (budget b0 t0 T) T
               (column_count b0 sr (end_row t0) ws)).
      * apply budget_mono.
      * intros; apply column_count_nonneg.
      * intros cl acc m Hin Hm. apply budget_translate_column; assumption.
      * exact Hn.
    + intros [d|v]; cbv beta; apply preserves_hoare.
      * apply preserves_bind; [apply budget_adjust_widths|intros ?].
        apply preserves_bind; [apply budget_adjust_heights, He1|intros ?].
        apply preserves_ret.
      * apply preserves_ret.
    + intros e s Hs. exact Hs.
Qed.

Lemma budget_process_sheet ws go n :
  1 <= start_row t0 ->
  n + sheet_count b0 (columns t0) (start_row t0) (end_row t0) ws <= T ->
  hoare (budget b0 t0 T n) (process_sheet W ws go)
        (fun _ => budget b0 t0 T
                    (n + sheet_count b0 (columns t0) (start_row t0) (end_row t0) ws)).
Proof.
  intros Hsr Hn s Hs.
  pose proof (sheet_count_nonneg b0 (columns t0) (start_row t0) (end_row t0) ws) as Hc.
  assert (Hw : forall s', budget b0 t0 T n s' ->
            budget b0 t0 T
              (n + sheet_count b0 (columns t0) (start_row t0) (end_row t0) ws) s').
  { intros s' Hs'. eapply budget_mono; [exact Hs'|lia|exact Hn]. }
  unfold process_sheet. destruct (negb go); [apply Hw, Hs|].
  rewrite bind_get_task.
  pose proof Hs as (_ & (R1 & R2 & R3) & _). rewrite R1, R2, R3.
  assert (Hgo : hoare (budget b0 t0 T n)
    (set_current_sheet ws;;
     set_message (MsgSheet ws);;
     let* success :=
       translate_worksheet_with_progress W ws (columns t0) (start_row t0)
         (end_row t0) in
     if success : bool then ret (Next true)
     else set_status Failed;; ret (Return (S := bool) tt))
    (fun _ => budget b0 t0 T
                (n + sheet_count b0 (columns t0) (start_row t0) (end_row t0) ws))).
  { do 2 (apply hoare_pres_then; [solve [pres]|intros ?|intros; apply Hw; assumption]).
    eapply hoare_bind; [apply budget_pass; assumption|intros ?|intros e s' H; exact H].
    apply preserves_hoare. pres. }
  destruct (status (task s)); try exact (Hgo s Hs).
  apply Hw, Hs.
Qed.

Lemma budget_sheets names n :
  1 <= start_row t0 ->
  n + sum_of (sheet_count b0 (columns t0) (start_row t0) (end_row t0)) names <= T ->
  hoare (budget b0 t0 T n) (for_each names (process_sheet W) true)
        (fun _ => budget b0 t0 T
           (n + sum_of (sheet_count b0 (columns t0) (start_row t0) (end_row t0))
                       names)).
Proof.
  intros Hsr Hn.
  apply (hoare_for_each_shares (budget b0 t0 T) T
           (sheet_count b0 (columns t0) (start_row t0) (end_row t0))).
  - apply budget_mono.
  - intros; apply sheet_count_nonneg.
  - intros ws go m Hin Hm. apply budget_process_sheet; assumption.
  - exact Hn.
Qed.

End Sheets.

(** *** The pre-scan *)

Lemma column_index_from_string_pos cl ci :
  column_index_from_string cl = Some ci -> 1 <= ci.
Proof.
  unfold column_index_from_string.
  destruct (len cl >? 3); [discriminate|].
  destruct (column_sum _ _ _) as [idx|]; [|discriminate].
  destruct (0 <? idx) eqn:E; [|discriminate].
  destruct (idx <? 18279); [|discriminate].
  intros [= <-]. apply Z.ltb_lt in E. lia.
Qed.

Lemma scanned_refl e s : scanned e s s.
Proof. repeat split. Qed.

Lemma scanned_trans e s1 s2 s3 : scanned e s1 s2 -> scanned e s2 s3 -> scanned e s1 s3.
Proof.
  intros (A1 & A2 & A3) (B1 & B2 & B3).
  split; [congruence|]. split; [congruence|]. intros ws.
  destruct (A3 ws) as [C1 C2]. destruct (B3 ws) as [D1 D2].
  split; congruence.
Qed.

Lemma scanned_countable_at e s s' ws c r :
  scanned e s s' -> countable_at (wb s') ws c r = countable_at (wb s) ws c r.
Proof.
  intros (_ & _ & H). destruct (H ws) as [H1 _].
  unfold countable_at, cell_at. rewrite H1. reflexivity.
Qed.

Lemma scanned_column_count e s s' sr ws cl :
  scanned e s s' -> column_count (wb s') sr e ws cl = column_count (wb s) sr e ws cl.
Proof.
  intros H. unfold column_count. destruct (column_index_from_string cl); [|reflexivity].
  pose proof H as (H1 & H2 & H3). destruct (H3 ws) as [_ E]. rewrite E.
  apply sum_of_ext. intros r _. f_equal.
  apply (scanned_countable_at e), H.
Qed.

Lemma scanned_sheet_count e s s' cols sr ws :
  scanned e s s' -> sheet_count (wb s') cols sr e ws = sheet_count (wb s) cols sr e ws.
Proof.
  intros H. apply sum_of_ext. intros cl _. apply scanned_column_count, H.
Qed.

Lemma scanned_touch e ws r s :
  r <= last_row e (sheet ws (wb s)) ->
  scanned e s (snd (update_sheet ws (touch r) s)).
Proof.
  intros Hr. split; [reflexivity|]. split; [reflexivity|]. intros name. simpl.
  destruct (decide (name = ws)) as [->|Hne].
  - rewrite sheet_with_sheet_eq. destruct (bool_decide _); [|split; reflexivity].
    split; [reflexivity|apply last_row_touch, Hr].
  - rewrite sheet_with_sheet_ne by exact Hne. split; reflexivity.
Qed.

(** A loop of the pre-scan: each iteration adds what it counts in the
    workbook and changes nothing. *)
Lemma scan_for_each {A R} e (Inv : state -> Prop) (g : workbook -> A -> Z)
    (body : A -> Z * Z -> M (flow (Z * Z) R)) (l : list A) :
  (forall s s', Inv s -> scanned e s s' -> Inv s') ->
  (forall s s' x, scanned e s s' -> g (wb s') x = g (wb s) x) ->
  (forall x acc s, In x l -> Inv s ->
     exists acc' s',
       body x acc s = (Val (Next acc'), s')
       /\ fst acc' + snd acc' = fst acc + snd acc + g (wb s) x
       /\ scanned e s s') ->
  forall acc s, Inv s ->
    exists acc' s',
      for_each l body acc s = (Val (Next acc'), s')
      /\ fst acc' + snd acc' = fst acc + snd acc + sum_of (g (wb s)) l
      /\ scanned e s s'.
Proof.
  intros HInv Hg. induction l as [|x l IH]; intros Hb acc s Hs.
  - exists acc, s. simpl. split; [reflexivity|]. split; [lia|apply scanned_refl].
  - destruct (Hb x acc s (or_introl eq_refl) Hs) as (acc1 & s1 & E1 & F1 & G1).
    destruct (IH (fun y a s0 Hy => Hb y a s0 (or_intror Hy)) acc1 s1
                 (HInv _ _ Hs G1))
      as (acc2 & s2 & E2 & F2 & G2).
    exists acc2, s2. cbn [for_each]. erewrite bind_run by exact E1.
    split; [exact E2|]. split; [|eapply scanned_trans; eassumption].
    cbn [sum_of fold_right]. fold (sum_of (g (wb s)) l).
    rewrite (sum_of_ext (g (wb s)) (g (wb s1)) l)
      by (intros y _; symmetry; apply (Hg s s1), G1).
    lia.
Qed.

Section Scan.

Context (e : option Z).

Lemma count_cell_run ws ci r acc s :
  1 <= r -> 1 <= ci -> r <= last_row e (sheet ws (wb s)) ->
  exists acc' s',
    count_cell ws ci r acc s = (Val (Next acc'), s')
    /\ fst acc' + snd acc' = fst acc + snd acc + one_if (countable_at (wb s) ws ci r)
    /\ scanned e s s'.
Proof.
  intros Hr Hc Hl.
  pose proof (scanned_touch e ws r s Hl) as Hsc.
  unfold count_cell, try_except, ws_cell.
  replace ((r <? 1) || (ci <? 1)) with false
    by (symmetry; apply orb_false_iff; split; apply Z.ltb_ge; lia).
  unfold bind, get_wb, update_sheet, ret. cbv beta iota.
  unfold countable_at. simpl in Hsc.
  destruct (value (cell_at (sheet ws (wb s)) r ci)) as [|txt| |]; simpl.
  2: destruct (nonempty txt && nonempty (strip txt));
     [destruct (is_already_translated txt)|].
  all: eexists; eexists; (split; [reflexivity|]); (split; [simpl; lia|exact Hsc]).
Qed.

Lemma count_cell_low ws ci r acc s :
  r < 1 -> count_cell ws ci r acc s = (Val (Return acc), s).
Proof.
  intros Hr. unfold count_cell, try_except, ws_cell.
  replace (r <? 1) with true by (symmetry; apply Z.ltb_lt; exact Hr).
  reflexivity.
Qed.

Lemma count_column_run ws sr cl acc s :
  exists acc' s',
    count_column ws sr e cl acc s = (Val (Next acc'), s')
    /\ fst acc' + snd acc'
       = fst acc + snd acc
         + (if sr <? 1 then 0 else column_count (wb s) sr e ws cl)
    /\ scanned e s s'.
Proof.
  unfold count_column, column_count.
  destruct (column_index_from_string cl) as [ci|] eqn:Ec.
  2: { exists acc, s. split; [reflexivity|]. split; [|apply scanned_refl].
       destruct (sr <? 1); lia. }
  apply column_index_from_string_pos in Ec.
  rewrite bind_get_wb. cbv beta zeta.
  change (match e with
          | Some e0 => if e0 =? 0 then max_row (sheet ws (wb s)) else e0
          | None => max_row (sheet ws (wb s))
          end) with (last_row e (sheet ws (wb s))).
  destruct (Z.ltb_spec sr 1) as [Hlow|Hsr].
  - destruct (Z_le_gt_dec (last_row e (sheet ws (wb s)) + 1) sr) as [Hemp|Hne].
    + rewrite range_empty by exact Hemp. exists acc, s.
      split; [reflexivity|]. split; [lia|apply scanned_refl].
    + assert (E : for_each (range sr (last_row e (sheet ws (wb s)) + 1))
                    (count_cell ws ci) acc s = (Val (Return acc), s)).
      { unfold range. rewrite seqZ_cons by lia. cbn [for_each].
        erewrite bind_run by (apply count_cell_low; exact Hlow). reflexivity. }
      erewrite bind_run by exact E.
      exists acc, s. split; [reflexivity|]. split; [lia|apply scanned_refl].
  - destruct (scan_for_each e
                (fun s0 => last_row e (sheet ws (wb s0)) = last_row e (sheet ws (wb s)))
                (fun b r => one_if (countable_at b ws ci r))
                (count_cell ws ci)
                (range sr (last_row e (sheet ws (wb s)) + 1)))
      with (acc := acc) (s := s) as (acc' & s' & E1 & F1 & G1).
    + intros s1 s2 H1 (_ & _ & H2). destruct (H2 ws) as [_ H3]. congruence.
    + intros s1 s2 r H. f_equal. apply (scanned_countable_at e), H.
    + intros r a s1 Hin H1. apply range_spec in Hin.
      apply count_cell_run; [lia|exact Ec|rewrite H1; lia].
    + reflexivity.
    + exists acc', s'. erewrite bind_run by exact E1.
      split; [reflexivity|]. split; [exact F1|exact G1].
Qed.

Lemma sum_of_unless {A} (c : bool) (f : A -> Z) l :
  sum_of (fun x => if c then 0 else f x) l = if c then 0 else sum_of f l.
Proof.
  destruct c; [|reflexivity]. induction l as [|x l IH]; simpl; [reflexivity|].
  fold (sum_of (fun _ : A => 0) l). rewrite IH. reflexivity.
Qed.

Lemma count_sheet_run cols sr ws acc s :
  exists acc' s',
    count_sheet cols sr e ws acc s = (Val (Next acc'), s')
    /\ fst acc' + snd acc'
       = fst acc + snd acc
         + (if sr <? 1 then 0 else sheet_count (wb s) cols sr e ws)
    /\ scanned e s s'.
Proof.
  unfold count_sheet, sheet_count. rewrite <- sum_of_unless.
  apply (scan_for_each e (fun _ => True)
           (fun b cl => if sr <? 1 then 0 else column_count b sr e ws cl)).
  - auto.
  - intros s1 s2 cl H. destruct (sr <? 1); [reflexivity|].
    apply scanned_column_count, H.
  - intros cl a s1 _ _. apply count_column_run.
  - exact I.
Qed.

Lemma prescan_run cols sr names acc s :
  exists acc' s',
    for_each names (count_sheet cols sr e) acc s = (Val (Next acc'), s')
    /\ fst acc' + snd acc' = fst acc + snd acc + scan_total (wb s) cols sr e names
    /\ scanned e s s'.
Proof.
  unfold scan_total. rewrite <- sum_of_unless.
  apply (scan_for_each e (fun _ => True)
           (fun b ws => if sr <? 1 then 0 else sheet_count b cols sr e ws)).
  - auto.
  - intros s1 s2 ws H. destruct (sr <? 1); [reflexivity|].
    apply scanned_sheet_count, H.
  - intros ws a s1 _ _. apply count_sheet_run.
  - exact I.
Qed.

End Scan.

(** *** The whole run *)

Section Run.

Context (W : world) (t0 : Task).

Hint Resolve budget_update_progress : pres.

Lemma budget_set_wb b' b T n :
  hoare (budget b' t0 T n) (set_wb b) (fun _ => budget b t0 T n).
Proof.
  intros s (H1 & H2 & H3 & H4 & H5). unfold budget. simpl.
  split; [exact H1|]. split; [exact H2|]. split; [apply kept_refl|]. auto.
Qed.

Lemma budget_save_result b T n : preserves (budget b t0 T n) (save_result W).
Proof. unfold save_result. pres. Qed.

(** After the pre-scan and the five assignments that follow it. *)
Lemma budget_reset b s1 s2 X :
  budget b t0 0 0 s1 -> scanned (end_row t0) s1 s2 -> 0 <= X ->
  budget (wb s1) t0 X 0
    (snd ((set_total_cells X;; set_translated_cells 0;; set_error_cells 0;;
           set_skipped_cells 0;; set_progress 0) s2)).
Proof.
  intros (H1 & H2 & H3 & H4 & H5) (S1 & S2 & S3) HX.
  unfold set_total_cells, set_translated_cells, set_error_cells,
    set_skipped_cells, set_progress.
  rewrite !bind_assign. unfold assign. cbn [snd wb task trace calls].
  rewrite S1, S2. unfold budget. cbn [wb task trace].
  rewrite !observations_cons, !Forall_app.
  destruct (task s1) eqn:Et.
  unfold same_request, counted, within_total, total_processed in *.
  simpl in *.
  split; [lia|]. split; [exact H2|]. split.
  { intros ws. destruct (S3 ws) as [C1 C2]. split; [exact C2|].
    intros r c. unfold countable_at, cell_at. rewrite C1. auto. }
  split; [lia|].
  repeat split; auto; repeat constructor; simpl; lia.
Qed.

Lemma translate_sheets_sound b names :
  hoare (budget b t0 0 0) (translate_sheets W names) (fun _ => sound).
Proof.
  unfold translate_sheets.
  apply hoare_pres_then; [solve [pres]|intros _|intros; eapply budget_sound; eassumption].
  intros s1 Hs1. rewrite bind_get_task.
  pose proof Hs1 as (_ & (R1 & R2 & R3) & _). rewrite R1, R2, R3.
  destruct (prescan_run (end_row t0) (columns t0) (start_row t0) names (0, 0) s1)
    as ([a c] & s2 & E & F & G).
  erewrite bind_run by exact E. cbv beta iota zeta. simpl in F.
  set (X := a + c) in *.
  assert (HX : 0 <= X) by (rewrite F; apply scan_total_nonneg).
  pose proof (budget_reset b s1 s2 X Hs1 G HX) as Hb.
  revert Hb.
  unfold set_total_cells, set_translated_cells, set_error_cells,
    set_skipped_cells, set_progress.
  rewrite !bind_assign.
  match goal with |- budget _ _ _ _ ?x -> _ => generalize x end.
  intros s7 Hs7.
  destruct (Z.eqb_spec X 0) as [E0|E0].
  - assert (P0 : preserves (budget (wb s1) t0 X 0)
                   (set_message MsgNothing;; set_status Completed;;
                    (let* now := time_time W in set_end_time (Some now)))) by pres.
    eapply budget_sound, P0, Hs7.
  - assert (Hsr : 1 <= start_row t0).
    { destruct (Z.ltb_spec (start_row t0) 1) as [Hlow|]; [|assumption].
      exfalso. apply E0. rewrite F. unfold scan_total.
      replace (start_row t0 <? 1) with true by (symmetry; apply Z.ltb_lt; exact Hlow).
      reflexivity. }
    assert (EX : X = 0 + sum_of (sheet_count (wb s1) (columns t0) (start_row t0)
                               (end_row t0)) names).
    { rewrite F. unfold scan_total.
      replace (start_row t0 <? 1) with false by (symmetry; apply Z.ltb_ge; exact Hsr).
      lia. }
    revert s7 Hs7.
    match goal with |- forall s7, _ -> sound (snd (?m s7)) =>
      change (hoare (budget (wb s1) t0 X 0) m (fun _ => sound)) end.
    do 2 (apply hoare_pres_then;
          [solve [pres]|intros ?|intros; eapply budget_sound; eassumption]).
    eapply hoare_bind.
    + apply budget_sheets; [exact Hsr|lia].
    + intros [go|[]]; cbv beta; eapply hoare_post.
      * apply preserves_hoare, budget_save_result.
      * intros o s Hs. eapply budget_sound, Hs.
      * apply preserves_hoare, preserves_ret.
      * intros o s Hs. eapply budget_sound, Hs.
    + intros e s Hs. eapply budget_sound, Hs.
Qed.

Lemma sound_assign a f :
  (forall t, total_cells (f t) = total_cells t
             /\ total_processed (f t) = total_processed t) ->
  preserves sound (assign a f).
Proof.
  intros Hf s [H1 H2]. destruct (Hf (task s)) as [E1 E2].
  assert (H : within_total (f (task s))).
  { unfold within_total in *. rewrite E1, E2. exact H1. }
  split; [exact H|]. simpl. rewrite observations_cons, Forall_app.
  split; [exact H2|]. constructor; [exact H|constructor].
Qed.

Lemma engine_sound s :
  budget [] t0 0 0 s -> sound (snd (translate_excel_with_progress W s)).
Proof.
  intros Hs. unfold translate_excel_with_progress, try_except.
  match goal with |- context [?m s] =>
    match type of m with M unit =>
      assert (H : hoare (budget [] t0 0 0) m (fun _ => sound)); [|
        specialize (H s Hs); destruct (m s) as [[[]|e] s1]; simpl in H |- *]
    end end.
  - assert (U : forall b s', budget b t0 0 0 s' -> sound s').
    { intros b s'. apply budget_sound. }
    repeat (apply hoare_pres_then; [solve [pres]|intros ?|intros; eapply U; eassumption]).
    match goal with |- hoare _ (match ?x with _ => _ end) _ => destruct x as [r|] end.
    2: { apply hoare_pres_end; [pres|apply (fun o => U [])]. }
    destruct (str_eqb r ERROR_54003).
    { apply hoare_pres_end; [pres|apply (fun o => U [])]. }
    repeat (apply hoare_pres_then; [solve [pres]|intros ?|intros; eapply U; eassumption]).
    match goal with |- hoare _ (match ?x with _ => _ end) _ => destruct x as [| |b] end.
    1,2: apply hoare_pres_end; [pres|apply (fun o => U [])].
    eapply hoare_bind; [apply budget_set_wb|intros ?; cbv beta|intros e s' H'; eapply U, H'].
    repeat (apply hoare_pres_then; [solve [pres]|intros ?|intros; eapply U; eassumption]).
    match goal with |- hoare _ (match ?x with _ => _ end) _ => destruct x as [names|] end.
    + match goal with |- hoare _ (match ?x with _ => _ end) _ => destruct x end.
      * apply hoare_pres_end; [pres|apply (fun o => U b)].
      * apply hoare_pres_then; [solve [pres]|intros ?|intros; eapply U; eassumption].
        apply translate_sheets_sound.
    + apply hoare_pres_then; [solve [pres]|intros ?|intros; eapply U; eassumption].
      apply translate_sheets_sound.
  - exact H.
  - assert (P0 : preserves sound (set_message MsgError;; set_status Failed)).
    { apply preserves_bind; [|intros _];
        apply sound_assign; intros []; split; reflexivity. }
    apply P0, H.
Qed.

End Run.

(** C4.  In a run of the engine on a task as [TranslationTask] creates
    it, every task record that a poller can see, that is the record after
    each assignment to one of its fields, has [translated_cells +
    error_cells + skipped_cells <= total_cells]; so has the record the run
    ends with. *)
Theorem counters_within_total W task_id filename columns start_row end_row
    sheet_names app_id app_key :
  let t := TranslationTask task_id filename columns start_row end_row
             sheet_names app_id app_key in
  Forall within_total (observations (trace (run W t)))
  /\ within_total (task (run W t)).
Proof.
  intros t.
  assert (H : sound (run W t)).
  { apply (engine_sound W t). unfold budget, start. simpl.
    split; [lia|]. split; [repeat split|]. split; [apply kept_refl|].
    split; [|constructor].
    unfold counted, total_processed. simpl. lia. }
  destruct H as [H1 H2]. split; assumption.
Qed.

(** * Further properties of the code *)

(** ** The classifier on plain and on freshly translated text *)

Section PlainText.
Import Re.

(** Both bracket patterns need an opening parenthesis. *)
Lemma translated_re_needs_paren s : forall pos,
  contains LPAREN s = false -> search_from translated_re pos s = None.
Proof.
  induction s as [|c s IH]; intros pos H.
  - reflexivity.
  - rewrite search_from_unfold. unfold contains in H. simpl in H.
    apply orb_false_iff in H as [H1 H2].
    unfold translated_re at 1. rewrite run_In_fail by exact H1.
    apply IH. exact H2.
Qed.

Lemma bracket_re_needs_paren s :
  contains LPAREN s = false -> rmatch bracket_re s = None.
Proof.
  intros H. unfold rmatch, bracket_re.
  destruct (run _ 0 s []) as [r|] eqn:E; [|reflexivity]. exfalso.
  rewrite run_AtBeginning, run_Mark in E.
  apply run_MinRepeat_inv in E as (A & B & -> & _ & E).
  rewrite run_Mark in E.
  apply run_MaxRepeat_inv in E as (A' & B' & -> & _ & E).
  apply run_In in E as (c & rest & -> & Hc & _).
  unfold lit in Hc. apply N.eqb_eq in Hc. subst c.
  rewrite !contains_app in H. unfold contains at 3 in H. simpl in H.
  rewrite !orb_true_r in H. discriminate.
Qed.

End PlainText.

(** X1.  Text on one line without an opening parenthesis is never taken for
    translated, and the order check returns it as it is: such a cell is
    always sent to the translation service. *)
Theorem plain_text_is_untranslated s :
  contains NL s = false -> contains LPAREN s = false ->
  is_already_translated s = false
  /\ check_and_adjust_translation_order s = s.
Proof.
  intros Hn Hp. split.
  - unfold is_already_translated, Re.search.
    rewrite translated_re_needs_paren by exact Hp. simpl. rewrite Hn. reflexivity.
  - unfold check_and_adjust_translation_order.
    rewrite bracket_re_needs_paren by exact Hp. rewrite Hn. reflexivity.
Qed.

Lemma plain_text_is_untranslated_witness :
  is_already_translated Sample.report = false
  /\ check_and_adjust_translation_order Sample.report = Sample.report.
Proof. apply plain_text_is_untranslated; reflexivity. Defined.

Lemma isspace_values c :
  Unicode.isspace c = true ->
  In c [0x09; 0x0a; 0x0b; 0x0c; 0x0d; 0x1c; 0x1d; 0x1e; 0x1f; 0x20; 0x85; 0xa0;
        0x1680; 0x2000; 0x2001; 0x2002; 0x2003; 0x2004; 0x2005; 0x2006;
        0x2007; 0x2008; 0x2009; 0x200a; 0x2028; 0x2029; 0x202f; 0x205f;
        0x3000]%N.
Proof.
  unfold Unicode.isspace. rewrite !orb_true_iff, !in_range_true, !N.eqb_eq.
  intros H.
  assert (E : (c = 0x09 \/ c = 0x0a \/ c = 0x0b \/ c = 0x0c \/ c = 0x0d
               \/ c = 0x1c \/ c = 0x1d \/ c = 0x1e \/ c = 0x1f \/ c = 0x20
               \/ c = 0x85 \/ c = 0xa0 \/ c = 0x1680 \/ c = 0x2000
               \/ c = 0x2001 \/ c = 0x2002 \/ c = 0x2003 \/ c = 0x2004
               \/ c = 0x2005 \/ c = 0x2006 \/ c = 0x2007 \/ c = 0x2008
               \/ c = 0x2009 \/ c = 0x200a \/ c = 0x2028 \/ c = 0x2029
               \/ c = 0x202f \/ c = 0x205f \/ c = 0x3000)%N) by lia.
  simpl. intuition.
Qed.

(** A letter is not white space: [strip] removes no letter. *)
Lemma isalpha_not_space c : Unicode.isalpha c = true -> Unicode.isspace c = false.
Proof.
  intros Ha. destruct (Unicode.isspace c) eqn:Es; [|reflexivity].
  apply isspace_values in Es. simpl in Es.
  repeat (destruct Es as [<-|Es]; [vm_compute in Ha; discriminate Ha|]).
  destruct Es.
Qed.

(** X2.  What the pass writes into a translated cell, ["<english>\n<chinese>"],
    is taken for translated by the next run whenever the English text is
    on one line and holds a letter: the cell is then skipped, not sent
    again. *)
Theorem fresh_translation_is_translated english_text cell_value :
  contains NL english_text = false ->
  existsb Unicode.isalpha english_text = true ->
  is_already_translated (english_text ++ [NL] ++ cell_value) = true.
Proof.
  intros Hn Ha. rewrite is_already_translated_spec.
  apply orb_true_iff. right.
  assert (Hc : contains NL (english_text ++ [NL] ++ cell_value) = true).
  { rewrite contains_app. apply orb_true_iff. right. reflexivity. }
  rewrite Hc. cbn [andb app].
  rewrite split_app by exact Hn. cbn [hd]. clear Hc.
  apply existsb_exists in Ha as (c & Hc & Hl).
  apply existsb_exists. exists c. split; [|exact Hl].
  apply strip_keeps; [apply isalpha_not_space, Hl|exact Hc].
Qed.

Lemma fresh_translation_is_translated_witness :
  is_already_translated (py "Fixed" ++ [NL] ++ Sample.fixed_zh) = true.
Proof. apply fresh_translation_is_translated; reflexivity. Defined.

(** X3.  Such a cell also keeps its text on the next run: with no opening
    parenthesis in it and no CJK character in the English line, the order
    check returns it unchanged. *)
Theorem fresh_translation_keeps_order english_text cell_value :
  contains NL english_text = false ->
  existsb Unicode.isalpha english_text = true ->
  existsb Re.cjk english_text = false ->
  contains LPAREN (english_text ++ cell_value) = false ->
  check_and_adjust_translation_order (english_text ++ [NL] ++ cell_value)
  = english_text ++ [NL] ++ cell_value.
Proof.
  intros Hn Ha Hc Hp.
  unfold check_and_adjust_translation_order.
  rewrite bracket_re_needs_paren.
  2:{ rewrite contains_app in Hp. apply orb_false_iff in Hp as [P1 P2].
      rewrite contains_app. apply orb_false_iff. split; [exact P1|].
      cbn [app]. unfold contains. cbn [existsb].
      apply orb_false_iff. split; [reflexivity|exact P2]. }
  assert (Hnl : contains NL (english_text ++ [NL] ++ cell_value) = true).
  { rewrite contains_app. apply orb_true_iff. right. reflexivity. }
  rewrite Hnl. cbn [app]. rewrite split_app by exact Hn. cbn [map].
  assert (Hs : nonempty (strip english_text) = true).
  { apply existsb_exists in Ha as (c & Hin & Hl).
    pose proof (strip_keeps c english_text (isalpha_not_space c Hl) Hin) as H.
    destruct (strip english_text); [destruct H|reflexivity]. }
  rewrite filter_cons_True by exact Hs.
  destruct (filter _ (map strip (split NL cell_value))) as [|p2 [|p3 rest]];
    try reflexivity.
  assert (H1 : Re.found (Re.search chinese_re (strip english_text)) = false).
  { unfold Re.search, chinese_re. rewrite search_class.
    destruct (existsb Re.cjk (strip english_text)) eqn:E; [|reflexivity].
    apply existsb_exists in E as (c & Hin & Hcjk).
    apply strip_incl in Hin.
    assert (existsb Re.cjk english_text = true)
      by (apply existsb_exists; exists c; split; assumption).
    congruence. }
  rewrite H1. cbn [andb negb].
  destruct (Re.found (Re.search chinese_re p2)); reflexivity.
Qed.

Lemma fresh_translation_keeps_order_witness :
  check_and_adjust_translation_order (py "Fixed" ++ [NL] ++ Sample.fixed_zh)
  = py "Fixed" ++ [NL] ++ Sample.fixed_zh.
Proof. apply fresh_translation_keeps_order; reflexivity. Defined.

(** ** The progress value *)

Section Percent.
Local Open Scope Q_scope.

Lemma percent_full_when_done p t : (0 < t)%Z -> (t <= p)%Z -> percent p t = 100%Z.
Proof.
  intros Ht Hp. unfold percent.
  apply Z.min_l.
  assert (T : (100 <= Float.to_int 100)%Z) by (vm_compute; discriminate).
  eapply Z.le_trans; [exact T|]. clear T.
  apply to_int_mono.
  assert (F100 : 100 <= Float.fl 100) by (vm_compute; discriminate).
  assert (F1 : 1 <= Float.fl 1) by (vm_compute; discriminate).
  eapply Qle_trans; [exact F100|]. unfold Float.mul. apply fl_mono.
  apply (Qle_trans _ (1 * 100)); [vm_compute; discriminate|].
  apply Qmult_le_compat_r; [|discriminate].
  eapply Qle_trans; [exact F1|]. unfold Float.truediv. apply fl_mono.
  apply Qle_shift_div_l.
  - change 0 with (inject_Z 0). rewrite <- Zlt_Qlt. exact Ht.
  - rewrite Qmult_1_l. rewrite <- Zle_Qle. exact Hp.
Qed.

Lemma percent_short_when_not_done p t :
  (0 < t <= 2 ^ 53)%Z -> (p < t)%Z -> (percent p t <= 99)%Z.
Proof.
  intros Ht Hp. unfold percent.
  eapply Z.le_trans; [apply Z.le_min_r|].
  set (y0 := (2 ^ 53 - 1)%Z # (2 ^ 53)%positive).
  assert (E : Float.to_int (Float.mul (Float.fl y0) 100) = 99%Z)
    by (vm_compute; reflexivity).
  rewrite <- E. apply to_int_mono. unfold Float.mul. apply fl_mono.
  apply Qmult_le_compat_r; [|discriminate].
  unfold Float.truediv. apply fl_mono.
  apply Qle_shift_div_r.
  - change 0 with (inject_Z 0). rewrite <- Zlt_Qlt. lia.
  - unfold Qle, y0. cbn [Qnum Qden Qmult inject_Z].
    change (Z.pos (2 ^ 53 * 1)) with (2 ^ 53)%Z.
    change (2 ^ 53)%Z with 9007199254740992%Z in *.
    change (Z.pos 1) with 1%Z. lia.
Qed.

End Percent.

(** X4.  With at most 2^53 cells to process, the progress value computed from
    the counters, [min(100, int((processed / total) * 100))], is 100 exactly
    when every counted cell has been processed. *)
Theorem percent_full_iff_done p t :
  0 < t <= 2 ^ 53 -> (percent p t = 100 <-> t <= p).
Proof.
  intros Ht. split.
  - intros E. destruct (Z_lt_le_dec p t) as [Hlt|Hle]; [|exact Hle].
    pose proof (percent_short_when_not_done p t Ht Hlt). lia.
  - apply percent_full_when_done. lia.
Qed.

Lemma percent_full_iff_done_witness : percent 3 3 = 100 <-> 3 <= 3.
Proof. apply percent_full_iff_done. lia. Defined.

(** ** The paths of one cell *)

Section CellPaths.

Context (W : world).

Local Arguments baidu_request : simpl never.
Local Arguments baidu_result : simpl never.
Local Arguments percent : simpl never.
Local Arguments with_sheet : simpl never.
Local Arguments sheet : simpl never.
Local Arguments Z.add : simpl never.

Lemma if_ret {A} (b : bool) (x y : A) s :
  (if b then ret x else ret y) s = (Val (if b then x else y), s).
Proof. destruct b; reflexivity. Qed.

(** What follows the translate call when the cell is not counted as an
    error: the progress update, the pacing delay. *)
Lemma finish_cell_run {A} (d : A) s :
  exists new,
    (update_progress;; sleep 1.5;; ret d) s =
    (Val d, {| wb := wb s;
               task := task (snd (update_progress s));
               calls := calls s;
               trace := Sleep 1.5 :: new ++ trace s |})
    /\ timeline new = []
    /\ translated_cells (task (snd (update_progress s))) = translated_cells (task s)
    /\ error_cells (task (snd (update_progress s))) = error_cells (task s)
    /\ skipped_cells (task (snd (update_progress s))) = skipped_cells (task s).
Proof.
  destruct (update_progress_run s) as (new & E & _ & _ & Ht & H1 & H2 & H3).
  exists new. erewrite bind_run by exact E.
  split; [reflexivity|]. auto.
Qed.

Lemma written_cell ws r c v a b :
  ws ∈ sheetnames b ->
  cell_at (sheet ws (with_sheet ws (with_cell r c (set_alignment a))
                       (with_sheet ws (with_cell r c (set_value v)) b))) r c
  = set_alignment a (set_value v (cell_at (sheet ws b) r c)).
Proof.
  intros Hws.
  rewrite sheet_with_sheet_eq, sheetnames_with_sheet.
  rewrite bool_decide_eq_true_2 by exact Hws.
  rewrite sheet_with_sheet_eq, bool_decide_eq_true_2 by exact Hws.
  rewrite !cell_at_with_cell, !decide_True by reflexivity. reflexivity.
Qed.

(** A text within the limits of a cell is stored as it is. *)
Lemma check_string_legal text :
  len text <= 32767 -> existsb illegal_character text = false ->
  check_string text = Some text.
Proof.
  intros Hl Hc. unfold check_string. cbv zeta.
  rewrite take_ge by (unfold len in Hl; lia). rewrite Hc. reflexivity.
Qed.

(** What is stored is the text cut at 32767 characters, and holds no
    control character. *)
Lemma check_string_stored text stored :
  check_string text = Some stored ->
  stored = take (Z.to_nat 32767) text /\ existsb illegal_character stored = false.
Proof.
  unfold check_string. cbv zeta.
  destruct (existsb _ _) eqn:E; [discriminate|]. intros [= <-]. auto.
Qed.

Lemma usable_text e :
  nonempty e = true -> e <> ERROR_54003 ->
  bool_decide (Some e = Some ERROR_54003) = false
  /\ nonempty e && negb (str_eqb e ERROR_54003) = true.
Proof.
  intros Hn He. split.
  - apply bool_decide_eq_false_2. congruence.
  - unfold str_eqb. rewrite bool_decide_eq_false_2 by exact He. rewrite Hn. reflexivity.
Qed.

End CellPaths.

(** X5.  When the translate call for a cell returns a text and the setter
    of the cell accepts ["<english>\n<chinese>"] (cut at 32767 characters it
    holds no control character), the cell holds the text as the setter
    stores it, with wrapped top alignment and its fill and font as before;
    [translated_cells] has gone up by one and the two other counters have
    not moved; the one request is followed by the pacing delay; and the
    width recorded for the column is the longest of the two texts, if that
    is more than before. *)
Theorem translated_at_once W ws col_index row_idx cell_value columns_to_adjust
    english_text stored s :
  ws ∈ sheetnames (wb s) ->
  call_returns W cell_value (app_id (task s)) (app_key (task s)) (calls s)
    (Some english_text) ->
  nonempty english_text = true -> english_text <> ERROR_54003 ->
  check_string (english_text ++ [NL] ++ cell_value) = Some stored ->
  let r := attempt_translation W ws col_index row_idx cell_value
             columns_to_adjust s in
  let s' := snd r in
  let c := cell_at (sheet ws (wb s)) row_idx col_index in
  let c' := cell_at (sheet ws (wb s')) row_idx col_index in
  let text_length := Z.max (len cell_value) (len english_text) in
  fst r = Val (if text_length >? dict_get col_index columns_to_adjust
               then dict_set col_index text_length columns_to_adjust
               else columns_to_adjust)
  /\ value c' = Text stored
  /\ alignment c' = Some wrap_alignment
  /\ fill c' = fill c /\ font c' = font c
  /\ translated_cells (task s') = translated_cells (task s) + 1
  /\ error_cells (task s') = error_cells (task s)
  /\ skipped_cells (task s') = skipped_cells (task s)
  /\ timeline (trace s') = timeline (trace s) ++ [Call; Wait 1.5].
Proof.
  intros Hws H1 Hn He Hc r s' c c' text_length. subst r s' c c' text_length.
  destruct (usable_text english_text Hn He) as [U1 U2].
  destruct (baidu_translate_run W _ _ _ s _ H1) as [p1 E1].
  unfold attempt_translation.
  erewrite bind_run by reflexivity.
  erewrite bind_run by exact E1.
  rewrite U1.
  erewrite bind_run by reflexivity. cbv beta iota.
  rewrite U2. unfold assign_cell_text. rewrite Hc.
  erewrite bind_run.
  2:{ erewrite bind_run by reflexivity. erewrite bind_run by reflexivity.
      erewrite bind_run.
      2:{ erewrite bind_run by reflexivity. reflexivity. }
      cbv zeta. apply if_ret. }
  match goal with |- context [bind update_progress _ ?x] => set (s4 := x) end.
  destruct (finish_cell_run
              (if Z.max (len cell_value) (len english_text)
                  >? dict_get col_index columns_to_adjust
               then dict_set col_index
                      (Z.max (len cell_value) (len english_text))
                      columns_to_adjust
               else columns_to_adjust) s4)
    as (new & E & Ht & Htc & Hec & Hsc).
  rewrite E. cbn [fst snd task trace wb].
  rewrite Htc, Hec, Hsc. subst s4. cbn [task trace wb calls].
  rewrite (written_cell ws row_idx col_index _ _ (wb s) Hws).
  rewrite timeline_cons, timeline_app_new, Ht, !timeline_cons.
  destruct (task s). simpl. rewrite <- !app_assoc. simpl.
  repeat split.
Qed.

(** X6.  When the translate call is rate-limited, the one retry returns a
    text and the setter of the cell accepts ["<english>\n<chinese>"], the
    cell is translated as on the first attempt: it holds the text as the
    setter stores it, the cooldown of 10 seconds lies between the two
    requests, the pacing delay follows, and the cell is counted as
    translated, not as an error. *)
Theorem translated_on_retry W ws col_index row_idx cell_value columns_to_adjust
    english_text stored s :
  ws ∈ sheetnames (wb s) ->
  call_returns W cell_value (app_id (task s)) (app_key (task s)) (calls s)
    (Some ERROR_54003) ->
  call_returns W cell_value (app_id (task s)) (app_key (task s)) (S (calls s))
    (Some english_text) ->
  nonempty english_text = true -> english_text <> ERROR_54003 ->
  check_string (english_text ++ [NL] ++ cell_value) = Some stored ->
  let s' := snd (attempt_translation W ws col_index row_idx cell_value
                   columns_to_adjust s) in
  let c' := cell_at (sheet ws (wb s')) row_idx col_index in
  value c' = Text stored
  /\ alignment c' = Some wrap_alignment
  /\ translated_cells (task s') = translated_cells (task s) + 1
  /\ error_cells (task s') = error_cells (task s)
  /\ skipped_cells (task s') = skipped_cells (task s)
  /\ timeline (trace s') = timeline (trace s) ++ [Call; Wait 10; Call; Wait 1.5].
Proof.
  intros Hws H1 H2 Hn He Hc s' c'. subst s' c'.
  destruct (usable_text english_text Hn He) as [U1 U2].
  destruct (baidu_translate_run W _ _ _ s _ H1) as [p1 E1].
  set (s2 := {| wb := wb s; task := with_message MsgRateLimited (task s);
                calls := S (calls s);
                trace := Sleep 10 :: Assign a_message (with_message MsgRateLimited (task s))
                         :: Get p1 :: trace s |}).
  destruct (baidu_translate_run W cell_value (app_id (task s)) (app_key (task s))
              s2 _ H2) as [p2 E2].
  unfold attempt_translation.
  erewrite bind_run by reflexivity.
  erewrite bind_run by exact E1.
  rewrite bool_decide_eq_true_2 by reflexivity.
  erewrite bind_run.
  2:{ erewrite bind_run by reflexivity. erewrite bind_run by reflexivity.
      erewrite bind_run by exact E2. reflexivity. }
  rewrite U1. cbv beta iota. rewrite U2. unfold assign_cell_text. rewrite Hc.
  erewrite bind_run.
  2:{ erewrite bind_run by reflexivity. erewrite bind_run by reflexivity.
      erewrite bind_run.
      2:{ erewrite bind_run by reflexivity. reflexivity. }
      cbv zeta. apply if_ret. }
  match goal with |- context [bind update_progress _ ?x] => set (s4 := x) end.
  destruct (finish_cell_run
              (if Z.max (len cell_value) (len english_text)
                  >? dict_get col_index columns_to_adjust
               then dict_set col_index
                      (Z.max (len cell_value) (len english_text))
                      columns_to_adjust
               else columns_to_adjust) s4)
    as (new & E & Ht & Htc & Hec & Hsc).
  rewrite E. cbn [fst snd task trace wb].
  rewrite Htc, Hec, Hsc. subst s4 s2. cbn [task trace wb calls].
  rewrite (written_cell ws row_idx col_index _ _ (wb s) Hws).
  rewrite timeline_cons, timeline_app_new, Ht, !timeline_cons.
  destruct (task s). simpl. rewrite <- !app_assoc. simpl.
  repeat split.
Qed.

(** X7.  When the translate call fails for another reason than the rate limit
    (it returns [None], or an empty text), the workbook is left as it is and
    no counter moves: the cell is counted neither as translated nor as an
    error.  The pacing delay follows all the same. *)
Theorem failed_call_leaves_cell W ws col_index row_idx cell_value
    columns_to_adjust reply s :
  call_returns W cell_value (app_id (task s)) (app_key (task s)) (calls s) reply ->
  reply = None \/ reply = Some [] ->
  let r := attempt_translation W ws col_index row_idx cell_value
             columns_to_adjust s in
  let s' := snd r in
  fst r = Val columns_to_adjust
  /\ wb s' = wb s
  /\ translated_cells (task s') = translated_cells (task s)
  /\ error_cells (task s') = error_cells (task s)
  /\ skipped_cells (task s') = skipped_cells (task s)
  /\ timeline (trace s') = timeline (trace s) ++ [Call; Wait 1.5].
Proof.
  intros H1 Hr r s'. subst r s'.
  destruct (baidu_translate_run W _ _ _ s _ H1) as [p1 E1].
  unfold attempt_translation.
  erewrite bind_run by reflexivity.
  erewrite bind_run by exact E1.
  assert (U : bool_decide (reply = Some ERROR_54003) = false).
  { apply bool_decide_eq_false_2. destruct Hr as [->| ->]; discriminate. }
  rewrite U. erewrite bind_run by reflexivity. cbv beta iota.
  assert (E0 : forall s1,
    (match reply with
     | Some e =>
         if nonempty e && negb (str_eqb e ERROR_54003)
         then
           assign_cell_text ws row_idx col_index (e ++ [NL] ++ cell_value);;
           update_sheet ws
             (with_cell row_idx col_index (set_alignment wrap_alignment));;
           (let* t := get_task in set_translated_cells (translated_cells t + 1));;
           (let text_length := Z.max (len cell_value) (len e) in
            if text_length >? dict_get col_index columns_to_adjust
            then ret (dict_set col_index text_length columns_to_adjust)
            else ret columns_to_adjust)
         else ret columns_to_adjust
     | None => ret columns_to_adjust
     end) s1 = (Val columns_to_adjust, s1)).
  { intros s1. destruct Hr as [->| ->]; reflexivity. }
  erewrite bind_run by apply E0.
  match goal with |- context [bind update_progress _ ?x] => set (s4 := x) end.
  destruct (finish_cell_run columns_to_adjust s4)
    as (new & E & Ht & Htc & Hec & Hsc).
  rewrite E. cbn [fst snd task trace wb].
  rewrite Htc, Hec, Hsc. subst s4. cbn [task trace wb calls].
  rewrite timeline_cons, timeline_app_new, Ht, !timeline_cons.
  rewrite <- !app_assoc. simpl.
  repeat split.
Qed.

Lemma translated_at_once_witness :
  let s := Fixture.at_D2 Sample.untranslated in
  let s' := snd (attempt_translation (Sample.answering (wb s)) Sample.title 4 2
                   Sample.report [] s) in
  value (cell_at (sheet Sample.title (wb s')) 2 4)
  = Text (py "Report a problem" ++ [NL] ++ Sample.report)
  /\ translated_cells (task s') = 1.
Proof.
  intros s s'.
  assert (H0 : Sample.title ∈ sheetnames (wb s)) by (left).
  assert (H1 : call_returns (Sample.answering (wb s)) Sample.report
                 (app_id (task s)) (app_key (task s)) (calls s)
                 (Some (py "Report a problem"))).
  { split; [vm_compute; discriminate | reflexivity]. }
  destruct (translated_at_once (Sample.answering (wb s)) Sample.title 4 2
              Sample.report [] (py "Report a problem")
              (py "Report a problem" ++ [NL] ++ Sample.report) s H0 H1 eq_refl)
    as (_ & G2 & _ & _ & _ & G6 & _);
    [vm_compute; discriminate|vm_compute; reflexivity|].
  split; [exact G2|exact G6].
Defined.

Lemma translated_on_retry_witness :
  let s := {| wb := [(Sample.title, Sample.untranslated)]; task := Sample.job;
              calls := 2; trace := [] |} in
  let s' := snd (attempt_translation (Sample.limiting (wb s)) Sample.title 4 2
                   Sample.report [] s) in
  value (cell_at (sheet Sample.title (wb s')) 2 4)
  = Text (py "Fixed" ++ [NL] ++ Sample.report)
  /\ timeline (trace s') = [Call; Wait 10; Call; Wait 1.5].
Proof.
  intros s s'.
  assert (H0 : Sample.title ∈ sheetnames (wb s)) by (left).
  assert (H1 : call_returns (Sample.limiting (wb s)) Sample.report
                 (app_id (task s)) (app_key (task s)) (calls s)
                 (Some ERROR_54003)).
  { split; [vm_compute; discriminate | reflexivity]. }
  assert (H2 : call_returns (Sample.limiting (wb s)) Sample.report
                 (app_id (task s)) (app_key (task s)) (S (calls s))
                 (Some (py "Fixed"))).
  { split; [vm_compute; discriminate | reflexivity]. }
  destruct (translated_on_retry (Sample.limiting (wb s)) Sample.title 4 2
              Sample.report [] (py "Fixed") (py "Fixed" ++ [NL] ++ Sample.report)
              s H0 H1 H2 eq_refl)
    as (G1 & _ & _ & _ & _ & G6);
    [vm_compute; discriminate|vm_compute; reflexivity|].
  split; [exact G1|exact G6].
Defined.

Lemma failed_call_leaves_cell_witness :
  let s := Fixture.at_D2 Sample.untranslated in
  let s' := snd (attempt_translation (Fixture.unreachable (wb s)) Sample.title
                   4 2 Sample.report [] s) in
  wb s' = wb s /\ timeline (trace s') = [Call; Wait 1.5].
Proof.
  intros s s'.
  assert (H1 : call_returns (Fixture.unreachable (wb s)) Sample.report
                 (app_id (task s)) (app_key (task s)) (calls s) None).
  { split; [vm_compute; discriminate | reflexivity]. }
  destruct (failed_call_leaves_cell (Fixture.unreachable (wb s)) Sample.title
              4 2 Sample.report [] None s H1 (or_introl eq_refl))
    as (_ & G2 & _ & _ & _ & G6).
  split; [exact G2|exact G6].
Defined.

(** ** The skip path and the row range *)



(** X9.  When the first row of the range, raised to 1, lies past its last row,
    lowered to the last row of the worksheet, the pass returns [False]
    after assigning the message that names the two rows: it reads no cell,
    sends no request and changes nothing in the workbook. *)
Theorem empty_range_fails_pass W ws columns start_row end_row s :
  let first := clamped_start start_row in
  let last := clamped_end end_row (max_row (sheet ws (wb s))) in
  first > last ->
  translate_worksheet_with_progress W ws columns start_row end_row s
  = (Val false,
     {| wb := wb s;
        task := with_message (MsgBadRange first last) (task s);
        calls := calls s;
        trace := Assign a_message (with_message (MsgBadRange first last) (task s))
                 :: trace s |}).
Proof.
  intros first last H. unfold translate_worksheet_with_progress.
  rewrite bind_get_wb. cbv beta zeta.
  fold (clamped_start start_row). change (if _ >? _ then _ else _) with
    (if first >? last
     then (set_message (MsgBadRange first last);; ret false)
     else
       (let* r := for_each columns (translate_column W ws first last) [] in
        match r with
        | Next columns_to_adjust =>
            adjust_widths ws columns_to_adjust;;
            adjust_heights ws columns first last;; ret true
        | Return v => ret v
        end)).
  replace (first >? last) with true by (symmetry; apply Z.gtb_lt; lia).
  reflexivity.
Qed.

Lemma empty_range_fails_pass_witness :
  fst (translate_worksheet_with_progress
         (Sample.answering [(Sample.title, Sample.half_done)]) Sample.title
         [py "D"] 5 None (Fixture.at_D2 Sample.half_done))
  = Val false.
Proof.
  rewrite empty_range_fails_pass; [reflexivity|].
  vm_compute. reflexivity.
Defined.


(** ** How a run ends *)

Lemma saves_cons e tr :
  saves (e :: tr) = saves tr ++ match e with Save p b => [(p, b)] | _ => [] end.
Proof.
  unfold saves. simpl. rewrite omap_app. simpl. destruct e; reflexivity.
Qed.

Lemma preserves_both {A} (P Q : state -> Prop) (m : M A) :
  preserves P m -> preserves Q m -> preserves (both P Q) m.
Proof. intros HP HQ s [H1 H2]. split; [apply HP, H1|apply HQ, H2]. Qed.

Section Invariants.

Context (W : world).

Lemma nothing_saved_assign a f : preserves nothing_saved (assign a f).
Proof.
  intros s H. unfold nothing_saved in *. simpl. rewrite saves_cons, app_nil_r. exact H.
Qed.

Lemma nothing_saved_sleep d : preserves nothing_saved (sleep d).
Proof.
  intros s H. unfold nothing_saved in *. simpl. rewrite saves_cons, app_nil_r. exact H.
Qed.

Lemma nothing_saved_baidu_translate q i k :
  preserves nothing_saved (baidu_translate W q i k).
Proof.
  intros s H. unfold baidu_translate. destruct (baidu_request _ _ _ _); [|exact H].
  unfold nothing_saved in *. simpl. rewrite saves_cons, app_nil_r. exact H.
Qed.

Lemma nothing_saved_update_sheet ws f : preserves nothing_saved (update_sheet ws f).
Proof. intros s H. exact H. Qed.

Lemma nothing_saved_set_wb b : preserves nothing_saved (set_wb b).
Proof. intros s H. exact H. Qed.

Lemma timeline_is_assign tl a f : preserves (timeline_is tl) (assign a f).
Proof.
  intros s H. unfold timeline_is in *. simpl. rewrite timeline_cons, app_nil_r. exact H.
Qed.

Lemma timeline_is_update_sheet tl ws f : preserves (timeline_is tl) (update_sheet ws f).
Proof. intros s H. exact H. Qed.

Lemma timeline_is_set_wb tl b : preserves (timeline_is tl) (set_wb b).
Proof. intros s H. exact H. Qed.

Lemma task_keeps_assign {X} (f : Task -> X) x a g :
  (forall t, f (g t) = f t) -> preserves (task_keeps f x) (assign a g).
Proof. intros Hg s H. unfold task_keeps in *. simpl. rewrite Hg. exact H. Qed.

Lemma task_keeps_sleep {X} (f : Task -> X) x d : preserves (task_keeps f x) (sleep d).
Proof. intros s H. exact H. Qed.

Lemma task_keeps_save {X} (f : Task -> X) x p b :
  preserves (task_keeps f x) (emit (Save p b)).
Proof. intros s H. exact H. Qed.

Lemma task_keeps_baidu_translate {X} (f : Task -> X) x q i k :
  preserves (task_keeps f x) (baidu_translate W q i k).
Proof.
  intros s H. unfold baidu_translate. destruct (baidu_request _ _ _ _); exact H.
Qed.

Lemma task_keeps_update_sheet {X} (f : Task -> X) x ws g :
  preserves (task_keeps f x) (update_sheet ws g).
Proof. intros s H. exact H. Qed.

Lemma task_keeps_set_wb {X} (f : Task -> X) x b : preserves (task_keeps f x) (set_wb b).
Proof. intros s H. exact H. Qed.

End Invariants.

Hint Resolve nothing_saved_sleep nothing_saved_baidu_translate
  nothing_saved_update_sheet nothing_saved_set_wb timeline_is_update_sheet
  timeline_is_set_wb task_keeps_sleep task_keeps_save task_keeps_baidu_translate
  task_keeps_update_sheet task_keeps_set_wb : pres.

Hint Extern 1 (preserves (unsaved_run _) _) =>
  (unfold unsaved_run; repeat apply preserves_both) : pres.
Hint Extern 1 (preserves (unsaved_pass _ _ _) _) =>
  (unfold unsaved_pass; repeat apply preserves_both) : pres.
Hint Extern 1 (preserves (unsaved _) _) =>
  (unfold unsaved; repeat apply preserves_both) : pres.
Hint Extern 1 (preserves (both _ _) _) => (repeat apply preserves_both) : pres.
(** The assignments to a field of the task record. *)
Ltac is_setter m :=
  lazymatch m with
  | assign _ _ => idtac
  | set_sheet_names _ => idtac
  | set_status _ => idtac
  | set_progress _ => idtac
  | set_total_cells _ => idtac
  | set_translated_cells _ => idtac
  | set_error_cells _ => idtac
  | set_skipped_cells _ => idtac
  | set_current_sheet _ => idtac
  | set_current_cell _ => idtac
  | set_message _ => idtac
  | set_output_file _ => idtac
  | set_start_time _ => idtac
  | set_end_time _ => idtac
  end.

Hint Extern 2 (preserves nothing_saved ?m) =>
  (is_setter m; apply nothing_saved_assign) : pres.
Hint Extern 2 (preserves (timeline_is _) ?m) =>
  (is_setter m; apply timeline_is_assign) : pres.
Hint Extern 2 (preserves (task_keeps _ _) ?m) =>
  (is_setter m; apply task_keeps_assign; intros []; reflexivity) : pres.

(** The statements of a pass and of the pre-scan, taken apart for [pres]. *)
Ltac open_pass :=
  unfold process_sheet, translate_worksheet_with_progress, translate_column,
    translate_cell, skip_translated, attempt_translation, update_progress,
    adjust_widths, adjust_heights, row_lines, count_sheet, count_column,
    count_cell, ws_cell.

Lemma hoare_pre {A} (P P' : state -> Prop) (Q : outcome A -> state -> Prop)
    (m : M A) :
  (forall s, P' s -> P s) -> hoare P m Q -> hoare P' m Q.
Proof. intros HP H s Hs. apply H, HP, Hs. Qed.

(** Reading the task record: what the invariant says of it is known of
    the value read. *)
Lemma hoare_get_task {B} (P : state -> Prop) (F : Task -> Prop)
    (k : Task -> M B) (Q : outcome B -> state -> Prop) :
  (forall s, P s -> F (task s)) ->
  (forall t1, F t1 -> hoare P (k t1) Q) ->
  hoare P (bind get_task k) Q.
Proof.
  intros HF Hk s Hs. rewrite bind_get_task. apply (Hk (task s) (HF s Hs) s Hs).
Qed.

Lemma total_is_set (P : state -> Prop) X :
  preserves P (set_total_cells X) ->
  hoare P (set_total_cells X) (fun _ => both P (task_keeps total_cells X)).
Proof.
  intros HP s Hs. split; [apply HP, Hs|].
  unfold task_keeps. simpl. destruct (task s). reflexivity.
Qed.

Lemma output_file_is_set (P : state -> Prop) p :
  preserves P (set_output_file p) ->
  hoare P (set_output_file p) (fun _ => both P (task_keeps output_file p)).
Proof.
  intros HP s Hs. split; [apply HP, Hs|].
  unfold task_keeps. simpl. destruct (task s). reflexivity.
Qed.

Section Ends.

Context (W : world) (t : Task).

Lemma unsaved_run_unsaved s : unsaved_run t s -> unsaved t s.
Proof. intros [[H _] _]. exact H. Qed.

Lemma unsaved_pass_unsaved X s : unsaved_pass W t X s -> unsaved t s.
Proof. intros [[H _] _]. exact H. Qed.

Lemma ends_failed_unsaved s : ends_failed t s -> unsaved t s.
Proof. intros (_ & H1 & H2). split; assumption. Qed.

Lemma ends_failed_after msg :
  hoare (unsaved t) (set_message msg;; set_status Failed) (fun _ => ends_failed t).
Proof.
  intros s [H1 H2]. unfold nothing_saved, task_keeps in *.
  unfold ends_failed. simpl. rewrite !saves_cons, !app_nil_r.
  destruct (task s). simpl in *. auto.
Qed.

(** A loop over the worksheets that left by [return] has marked the task
    failed. *)
Lemma sheets_loop_ends (P : state -> Prop) names :
  (forall name go, preserves P (process_sheet W name go)) ->
  forall go,
    hoare P (for_each names (process_sheet W) go)
      (fun o s => P s /\ match o with
                         | Val (Return _) => status (task s) = Failed
                         | _ => True
                         end).
Proof.
  intros HP. induction names as [|name names IH]; intros go; cbn [for_each].
  - intros s Hs. split; [exact Hs|exact I].
  - eapply hoare_bind with
      (Q := fun o s => P s /\ match o with
                              | Val (Return _) => status (task s) = Failed
                              | _ => True
                              end).
    + intros s Hs. split; [apply HP, Hs|].
      unfold process_sheet. destruct (negb go); [exact I|].
      rewrite bind_get_task. destruct (status (task s)) eqn:Est; try exact I.
      all: unfold bind; cbn [set_current_sheet set_message assign fst snd];
        match goal with
        | |- context [translate_worksheet_with_progress ?w ?n ?c ?a ?b ?x] =>
            destruct (translate_worksheet_with_progress w n c a b x)
              as [[[]|e] s1]
        end; cbn [fst snd]; try exact I.
      all: unfold set_status, assign, ret; cbn [fst snd task];
        destruct (task s1); reflexivity.
    + intros [go'|[]]; cbv beta.
      * intros s [Hs _]. apply IH, Hs.
      * intros s Hs. exact Hs.
    + intros e s [Hs _]. split; [exact Hs|exact I].
Qed.

Lemma save_result_ends X :
  X <> 0 ->
  hoare (unsaved_pass W t X) (save_result W)
        (fun o s => match o with
                    | Val _ => ends_failed t s \/ ends_saved W t s
                    | Raise _ => False
                    end).
Proof.
  intros HX s [[[H1 H2] H3] H4]. unfold nothing_saved, task_keeps in *.
  unfold save_result. rewrite bind_get_task.
  assert (Hgo : let r :=
     (if writable W (output_file (task s))
      then
        (let* b := get_wb in emit (Save (output_file (task s)) b));;
        set_message MsgSaved;;
        set_status Completed;;
        (let* now := time_time W in set_end_time (Some now));;
        set_progress 100
      else set_message MsgSaveFailed;; set_status Failed) s in
     match fst r with
     | Val _ => ends_failed t (snd r) \/ ends_saved W t (snd r)
     | Raise _ => False
     end).
  { cbv zeta. destruct (writable W (output_file (task s))).
    - right. unfold ends_saved. simpl.
      rewrite !saves_cons, !app_nil_r, H1.
      destruct (task s). simpl in *. repeat split; congruence.
    - left. unfold ends_failed. simpl. rewrite !saves_cons, !app_nil_r.
      destruct (task s). simpl in *. auto. }
  cbv zeta in Hgo.
  destruct (status (task s)) eqn:Est; try exact Hgo.
  left. simpl. unfold ends_failed. auto.
Qed.

Lemma nothing_to_do_ends :
  hoare (both (unsaved_run t) (task_keeps total_cells 0))
        (set_message MsgNothing;; set_status Completed;;
         (let* now := time_time W in set_end_time (Some now)))
        (fun o s => match o with
                    | Val _ => ends_idle t s
                    | Raise _ => False
                    end).
Proof.
  intros s [[[[H1 H2] H3] H5] H4]. unfold nothing_saved, task_keeps in *.
  unfold ends_idle. simpl. rewrite !saves_cons, !app_nil_r.
  destruct (task s). simpl in *. repeat split; congruence.
Qed.

Lemma translate_sheets_ends names :
  hoare (unsaved_run t) (translate_sheets W names)
        (fun o s => match o with
                    | Val _ => ends_failed t s \/ ends_idle t s \/ ends_saved W t s
                    | Raise _ => unsaved t s
                    end).
Proof.
  unfold translate_sheets.
  assert (W1 : forall (e : exn) s, unsaved_run t s -> unsaved t s)
    by (intros e; apply unsaved_run_unsaved).
  apply hoare_pres_then; [solve [pres]|intros _|exact W1].
  apply (hoare_get_task _ (fun t1 => filename t1 = filename t)).
  { intros s [_ H]. exact H. }
  intros t1 Hname.
  apply hoare_pres_then; [solve [open_pass; pres]|intros r|exact W1].
  destruct (match r with Next acc => acc | Return _ => (0, 0) end) as [a b].
  set (X := a + b).
  eapply hoare_bind; [apply total_is_set; solve [pres]|intros ?; cbv beta|].
  2:{ intros e s [H _]. apply (W1 e s H). }
  assert (W3 : forall (e : exn) s,
    both (unsaved_run t) (task_keeps total_cells X) s -> unsaved t s).
  { intros e s [H _]. apply unsaved_run_unsaved, H. }
  do 4 (apply hoare_pres_then; [solve [pres]|intros _|exact W3]).
  destruct (Z.eqb_spec X 0) as [E0|E0].
  - rewrite E0. eapply hoare_post; [apply nothing_to_do_ends|].
    intros [[]|e] s H; cbv beta in H; [right; left; exact H|destruct H].
  - apply hoare_pres_then; [solve [pres]|intros _|exact W3].
    rewrite Hname. fold (output_path W (filename t)).
    eapply hoare_bind with (Q := fun _ => unsaved_pass W t X).
    + eapply hoare_post.
      * apply (hoare_pre (both (unsaved t) (task_keeps total_cells X))).
        { intros s [[[[H1 H2] _] _] H4]. repeat split; assumption. }
        apply output_file_is_set. pres.
      * intros o s [[[H1 H2] H4] H3]. repeat split; assumption.
    + intros ?. cbv beta.
      eapply hoare_bind.
      * apply sheets_loop_ends. intros name go. open_pass. pres.
      * intros [go|[]]; cbv beta.
        -- eapply hoare_post.
           ++ apply (hoare_pre (unsaved_pass W t X));
                [intros s [Hs _]; exact Hs|].
              apply (save_result_ends X E0).
           ++ intros [[]|e] s H; cbv beta in H.
              ** destruct H as [H|H]; [left; exact H|right; right; exact H].
              ** destruct H.
        -- intros s ([[[H1 H2] H3] H4] & Hst). left.
           unfold ends_failed. simpl. auto.
      * intros e s [Hs _]. apply (unsaved_pass_unsaved X s Hs).
    + intros e s Hs. apply (unsaved_pass_unsaved X s Hs).
Qed.

Lemma engine_ends s :
  unsaved_run t s ->
  let s' := snd (translate_excel_with_progress W s) in
  ends_failed t s' \/ ends_idle t s' \/ ends_saved W t s'.
Proof.
  intros Hs. cbv zeta. unfold translate_excel_with_progress, try_except.
  match goal with |- context [?m s] =>
    match type of m with M unit =>
      assert (H : hoare (unsaved_run t) m
                (fun o s => match o with
                            | Val _ =>
                                ends_failed t s \/ ends_idle t s \/ ends_saved W t s
                            | Raise _ => unsaved t s
                            end)); [|
        specialize (H s Hs); destruct (m s) as [[[]|e] s1]; cbn [fst snd] in H |- *]
    end end.
  - assert (W1 : forall (e : exn) s0, unsaved_run t s0 -> unsaved t s0)
      by (intros e; apply unsaved_run_unsaved).
    assert (F : forall msg,
      hoare (unsaved_run t) (set_message msg;; set_status Failed)
            (fun o s => match o with
                        | Val _ =>
                            ends_failed t s \/ ends_idle t s \/ ends_saved W t s
                        | Raise _ => unsaved t s
                        end)).
    { intros msg. eapply hoare_post.
      - apply (hoare_pre (unsaved t)); [apply unsaved_run_unsaved|].
        apply ends_failed_after.
      - intros [[]|e] s0 H0; cbv beta in H0;
          [left; exact H0|apply ends_failed_unsaved, H0]. }
    repeat (apply hoare_pres_then; [solve [pres]|intros ?|exact W1]).
    match goal with |- hoare _ (match ?x with _ => _ end) _ => destruct x as [r|] end.
    2: apply F.
    destruct (str_eqb r ERROR_54003); [apply F|].
    repeat (apply hoare_pres_then; [solve [pres]|intros ?|exact W1]).
    match goal with |- hoare _ (match ?x with _ => _ end) _ => destruct x as [| |b] end.
    1,2: apply F.
    repeat (apply hoare_pres_then; [solve [pres]|intros ?|exact W1]).
    match goal with |- hoare _ (match ?x with _ => _ end) _ => destruct x as [names|] end.
    + match goal with |- hoare _ (match ?x with _ => _ end) _ => destruct x end.
      * apply F.
      * apply hoare_pres_then; [solve [pres]|intros ?|exact W1].
        apply translate_sheets_ends.
    + apply hoare_pres_then; [solve [pres]|intros ?|exact W1].
      apply translate_sheets_ends.
  - exact H.
  - left. apply (ends_failed_after MsgError s1 H).
Qed.

End Ends.

(** X10.  A run ends in one of three ways.  Failed: nothing was saved and
    [end_time] is as it was.  Completed with nothing to translate:
    the total is 0, nothing was saved and [output_file] is as it was.
    Completed after translating: the workbook was saved exactly once, in
    its final state, under the path in [output_file], which is
    [uploads/<input name without extension>_translated_<timestamp>.xlsx],
    and [progress] is 100.  The status is never left at pending or
    running. *)
Theorem run_ends W t :
  let s := run W t in
  ends_failed t s \/ ends_idle t s \/ ends_saved W t s.
Proof.
  apply (engine_ends W t (start t)). repeat split.
Qed.

(** ** The connection test and the first row *)

(** X11.  When the connection test is refused or rate-limited, the run ends
    failed after that one request: no file is opened, no counter or total is
    assigned, and the message is the one of the failed test. *)
Theorem failed_connection_test W t reply :
  call_returns W TEST_TEXT (app_id t) (app_key t) 0 reply ->
  reply = None \/ reply = Some ERROR_54003 ->
  let s := run W t in
  status (task s) = Failed
  /\ message (task s) = MsgTestFailed
  /\ timeline (trace s) = [Call]
  /\ wb s = []
  /\ total_cells (task s) = total_cells t
  /\ progress_values (trace s) = [].
Proof.
  intros H1 Hr. cbv zeta. unfold run, translate_excel_with_progress, try_except.
  do 4 (erewrite bind_run by reflexivity).
  match goal with |- context [bind (baidu_translate W ?q ?i ?k) _ ?x] =>
    destruct (baidu_translate_run W q i k x reply) as [p E]
  end.
  { destruct t. exact H1. }
  erewrite bind_run by exact E.
  destruct Hr as [->| ->]; cbn [str_eqb]; try rewrite bool_decide_eq_true_2 by reflexivity;
    destruct t; cbn; rewrite ?timeline_cons, ?progress_values_cons;
    repeat split.
Qed.

Lemma failed_connection_test_witness :
  let s := run (Fixture.unreachable []) Sample.job in
  status (task s) = Failed /\ timeline (trace s) = [Call].
Proof.
  intros s.
  assert (H1 : call_returns (Fixture.unreachable []) TEST_TEXT
                 (app_id Sample.job) (app_key Sample.job) 0 None).
  { split; [vm_compute; discriminate | reflexivity]. }
  destruct (failed_connection_test (Fixture.unreachable []) Sample.job None H1
              (or_introl eq_refl)) as (G1 & _ & G3 & _).
  split; [exact G1|exact G3].
Defined.

Section LowStart.

Context (W : world) (sr : Z).

Lemma scanned_keeps (P : state -> Prop) e s s' :
  (forall s1 s2, task s2 = task s1 -> trace s2 = trace s1 -> P s1 -> P s2) ->
  scanned e s s' -> P s -> P s'.
Proof. intros HP (H1 & H2 & _). apply HP; assumption. Qed.

(** With a first row below 1 the pre-scan counts nothing, and what
    follows it is the branch for a total of 0. *)
Lemma translate_sheets_low tl names :
  sr < 1 ->
  preserves (both (both nothing_saved (timeline_is tl)) (task_keeps start_row sr))
            (translate_sheets W names).
Proof.
  intros Hsr. unfold translate_sheets.
  apply preserves_bind; [solve [pres]|intros _].
  intros s Hs. rewrite bind_get_task.
  pose proof Hs as [_ Hrow]. unfold task_keeps in Hrow.
  destruct (prescan_run (end_row (task s)) (columns (task s)) (start_row (task s))
              names (0, 0) s) as ([a b] & s2 & E & F & G).
  erewrite bind_run by exact E. cbv beta iota zeta.
  assert (X0 : a + b = 0).
  { simpl in F. rewrite F. unfold scan_total. rewrite Hrow.
    replace (sr <? 1) with true by (symmetry; apply Z.ltb_lt; exact Hsr).
    reflexivity. }
  rewrite X0. cbn [Z.eqb].
  assert (Hs2 : both (both nothing_saved (timeline_is tl)) (task_keeps start_row sr) s2).
  { destruct G as (G1 & G2 & _). destruct Hs as [[A1 A2] A3].
    unfold both, nothing_saved, timeline_is, task_keeps in *. rewrite G1, G2.
    repeat split; assumption. }
  revert s2 Hs2 E G.
  match goal with |- forall s2, _ -> _ -> _ -> ?P (snd (?m s2)) =>
    intros s2 Hs2 _ _; revert s2 Hs2; change (preserves P m)
  end.
  pres.
Qed.

Lemma low_start_engine s :
  sr < 1 ->
  both (both nothing_saved (timeline_is [])) (task_keeps start_row sr) s ->
  let s' := snd (translate_excel_with_progress W s) in
  saves (trace s') = []
  /\ (timeline (trace s') = [] \/ timeline (trace s') = [Call]).
Proof.
  intros Hsr Hs. cbv zeta. unfold translate_excel_with_progress, try_except.
  match goal with |- context [?m s] =>
    match type of m with M unit =>
      assert (H : hoare
                (both (both nothing_saved (timeline_is [])) (task_keeps start_row sr))
                m
                (fun _ s =>
                   both (both nothing_saved (timeline_is [])) (task_keeps start_row sr) s
                   \/ both (both nothing_saved (timeline_is [Call]))
                           (task_keeps start_row sr) s)); [|
        specialize (H s Hs); destruct (m s) as [[[]|e] s1]; cbn [fst snd] in H |- *]
    end end.
  - repeat (apply hoare_pres_then; [solve [pres]|intros ?|intros; left; assumption]).
    eapply hoare_bind with
      (Q := fun o s =>
              match o with
              | Val _ => both (both nothing_saved (timeline_is [Call]))
                              (task_keeps start_row sr) s
              | Raise _ => both (both nothing_saved (timeline_is []))
                                (task_keeps start_row sr) s
              end).
    + intros s0 [[A1 A2] A3]. unfold baidu_translate.
      destruct (baidu_request _ _ _ _); cbn [fst snd]; [|repeat split; assumption].
      unfold both, nothing_saved, timeline_is, task_keeps in *. cbn [trace task].
      rewrite saves_cons, timeline_cons, A1, A2. repeat split. exact A3.
    + intros r. cbv beta.
      assert (Hend : forall {A} (m : M A),
        preserves (both (both nothing_saved (timeline_is [Call]))
                        (task_keeps start_row sr)) m ->
        hoare (both (both nothing_saved (timeline_is [Call]))
                    (task_keeps start_row sr)) m
          (fun _ s =>
             both (both nothing_saved (timeline_is [])) (task_keeps start_row sr) s
             \/ both (both nothing_saved (timeline_is [Call]))
                     (task_keeps start_row sr) s)).
      { intros A m Hm s0 H0. right. apply Hm, H0. }
      apply Hend.
      destruct r as [r|]; [|solve [pres]].
      destruct (str_eqb r ERROR_54003); [solve [pres]|].
      repeat (apply preserves_bind; [solve [pres]|intros ?]).
      match goal with |- preserves _ (match ?x with _ => _ end) => destruct x as [| |b] end.
      1,2: solve [pres].
      repeat (apply preserves_bind; [solve [pres]|intros ?]).
      match goal with |- preserves _ (match ?x with _ => _ end) => destruct x as [names|] end.
      * match goal with |- preserves _ (match ?x with _ => _ end) => destruct x end.
        -- pres.
        -- apply preserves_bind; [solve [pres]|intros ?]. apply translate_sheets_low, Hsr.
      * apply preserves_bind; [solve [pres]|intros ?]. apply translate_sheets_low, Hsr.
    + intros e s0 H0. left. exact H0.
  - destruct H as [[[A1 A2] _]|[[A1 A2] _]]; split; auto.
  - assert (P0 : forall tl,
      preserves (both (both nothing_saved (timeline_is tl)) (task_keeps start_row sr))
                (set_message MsgError;; set_status Failed)) by (intros; pres).
    destruct H as [H|H]; apply P0 in H; destruct H as [[A1 A2] _]; split; auto.
Qed.

End LowStart.

(** X12.  With a first row below 1 nothing is translated: nothing is saved,
    at most the request of the connection test is sent, and there is no
    delay.  (The pre-scan uses the row as given and stops at the first cell
    of every column, so the total is 0; the pass, which would raise the
    first row to 1, is never reached.) *)
Theorem low_start_row_translates_nothing W t :
  start_row t < 1 ->
  let s := run W t in
  saves (trace s) = []
  /\ (timeline (trace s) = [] \/ timeline (trace s) = [Call]).
Proof.
  intros H. apply (low_start_engine W (start_row t) (start t) H). repeat split.
Qed.

Lemma low_start_row_translates_nothing_witness :
  let t := TranslationTask (py "task-1") (py "uploads/cases.xlsx") [py "D"] 0
             None None (py "appid") (py "appkey") in
  saves (trace (run (Sample.answering [(Sample.title, Sample.untranslated)]) t))
  = [].
Proof.
  intros t.
  apply (low_start_row_translates_nothing
           (Sample.answering [(Sample.title, Sample.untranslated)]) t).
  vm_compute. reflexivity.
Defined.

(** * The command-line translator *)

Section CliFacts.

Context (W : world).

Lemma translate_worksheet_empty_range ws app_id app_key columns start_row end_row s :
  clamped_start start_row > clamped_end end_row (max_row (sheet ws (wb s))) ->
  translate_worksheet W ws app_id app_key columns start_row end_row s
  = (Val (Tuple3 false 0 0), s).
Proof.
  intros H. unfold translate_worksheet. rewrite bind_get_wb. cbv beta zeta.
  fold (clamped_start start_row).
  match goal with |- context [if ?a >? ?b then _ else _] =>
    change b with (clamped_end end_row (max_row (sheet ws (wb s))))
  end.
  replace (_ >? _) with true by (symmetry; apply Z.gtb_lt; lia).
  reflexivity.
Qed.

End CliFacts.

(** X13.  In [translate_excel] a worksheet whose row range is empty (its first
    row, raised to 1, lies past its last row) is not reported as failed:
    [translate_worksheet] returns three values for it, the caller unpacks
    four, and the [ValueError] ends [translate_excel] at the first such
    worksheet, before anything is saved. *)
Theorem empty_range_ends_translate_excel W input_file output_file app_id app_key
    columns start_row end_row sheet_names b ws rest reply s :
  call_returns W TEST_TEXT app_id app_key (calls s) (Some reply) ->
  reply <> ERROR_54003 ->
  disk W input_file = Xlsx b ->
  select_sheets (sheetnames b) sheet_names = Some (ws :: rest) ->
  clamped_start start_row > clamped_end end_row (max_row (sheet ws b)) ->
  let r := translate_excel W input_file output_file app_id app_key columns
             start_row end_row sheet_names s in
  fst r = Raise ValueError
  /\ saves (trace (snd r)) = saves (trace s)
  /\ wb (snd r) = b.
Proof.
  intros H1 He Hd Hsel Hrange. cbv zeta.
  destruct (baidu_translate_run W _ _ _ s _ H1) as [p E1].
  unfold translate_excel.
  erewrite bind_run by exact E1.
  unfold str_eqb. rewrite bool_decide_eq_false_2 by exact He.
  rewrite Hd. erewrite bind_run by reflexivity. rewrite Hsel.
  erewrite bind_raise.
  2:{ cbn [for_each]. erewrite bind_raise; [reflexivity|].
      unfold cli_process_sheet.
      erewrite bind_run by (apply translate_worksheet_empty_range; exact Hrange).
      reflexivity. }
  cbn [fst snd trace wb]. rewrite saves_cons, app_nil_r. auto.
Qed.

Lemma empty_range_ends_translate_excel_witness :
  let b := [(Sample.title, Sample.half_done)] in
  fst (translate_excel (Sample.answering b) (py "in.xlsx") (py "out.xlsx")
         (py "appid") (py "appkey") [py "D"] 5 None (Some [Sample.title])
         (start Sample.job))
  = Raise ValueError.
Proof.
  intros b.
  apply (empty_range_ends_translate_excel (Sample.answering b) (py "in.xlsx")
           (py "out.xlsx") (py "appid") (py "appkey") [py "D"] 5 None
           (Some [Sample.title]) b Sample.title [] (py "Report a problem")
           (start Sample.job)).
  - split; [vm_compute; discriminate|reflexivity].
  - vm_compute. discriminate.
  - reflexivity.
  - vm_compute. reflexivity.
  - vm_compute. reflexivity.
Defined.

Section CliColumn.

Context (W : world).

Lemma cells_touch name ws r b :
  cells (sheet name (with_sheet ws (touch r) b)) = cells (sheet name b).
Proof.
  apply (sheet_with_sheet_ind (fun sh sh' => cells sh' = cells sh)); reflexivity.
Qed.

(** The count of a column in which every cell that holds text is taken for
    translated: it reads the cells and counts nothing. *)
Lemma cli_count_settled ws c rows : forall n s,
  1 <= c ->
  (forall r, In r rows -> 1 <= r) ->
  (forall r txt, In r rows ->
     value (cell_at (sheet ws (wb s)) r c) = Text txt ->
     countable (Text txt) = true -> is_already_translated txt = true) ->
  exists s',
    for_each rows (cli_count_cell ws c) n s = (Val (Next n), s')
    /\ (forall name, cells (sheet name (wb s')) = cells (sheet name (wb s)))
    /\ task s' = task s /\ calls s' = calls s /\ trace s' = trace s.
Proof.
  induction rows as [|r rows IH]; intros n s Hc Hr Hset.
  - exists s. repeat split.
  - assert (Er : (r <? 1) || (c <? 1) = false).
    { apply orb_false_iff. split; apply Z.ltb_ge; [apply Hr; left; reflexivity|exact Hc]. }
    set (s1 := {| wb := with_sheet ws (touch r) (wb s); task := task s;
                  calls := calls s; trace := trace s |}).
    assert (E1 : cli_count_cell ws c r n s = (Val (Next n), s1)).
    { unfold cli_count_cell, ws_cell. rewrite Er.
      unfold bind, get_wb, update_sheet, ret. cbv beta iota.
      pose proof (Hset r) as Hv.
      destruct (value (cell_at (sheet ws (wb s)) r c)) as [|txt| |]; try reflexivity.
      specialize (Hv txt (or_introl eq_refl) eq_refl). cbn [countable] in Hv.
      destruct (nonempty txt && nonempty (strip txt)); [|reflexivity].
      rewrite (Hv eq_refl). reflexivity. }
    destruct (IH n s1 Hc) as (s' & E & G1 & G2 & G3 & G4).
    + intros r' Hin. apply Hr. right. exact Hin.
    + intros r' txt Hin. subst s1. cbn [wb]. unfold cell_at. rewrite cells_touch.
      apply (Hset r' txt). right. exact Hin.
    + exists s'. cbn [for_each]. erewrite bind_run by exact E1.
      split; [exact E|]. split; [|auto].
      intros name. rewrite G1. subst s1. cbn [wb]. apply cells_touch.
Qed.

End CliColumn.

(** X14.  The command-line pass leaves a column alone when its count finds no
    cell to translate: every cell of the column keeps its text, also a
    translated cell whose two lines are in the wrong order, and no request
    is sent.  (The pass of the engine puts the order right in such a column
    too.) *)
Theorem cli_leaves_settled_column W ws app_id app_key start_row end_row
    col_letter col_index acc s :
  column_index_from_string col_letter = Some col_index ->
  1 <= start_row ->
  (forall r txt, start_row <= r <= end_row ->
     value (cell_at (sheet ws (wb s)) r col_index) = Text txt ->
     countable (Text txt) = true -> is_already_translated txt = true) ->
  let r := cli_translate_column W ws app_id app_key start_row end_row
             col_letter acc s in
  fst r = Val (Next (with_widths (dict_set col_index 0 (columns_to_adjust acc)) acc))
  /\ (forall name, cells (sheet name (wb (snd r))) = cells (sheet name (wb s)))
  /\ calls (snd r) = calls s
  /\ trace (snd r) = trace s.
Proof.
  intros Hc Hsr Hset. cbv zeta. unfold cli_translate_column. rewrite Hc.
  destruct (cli_count_settled ws col_index (range start_row (end_row + 1)) 0 s)
    as (s' & E & G1 & G2 & G3 & G4).
  - apply column_index_from_string_pos in Hc. exact Hc.
  - intros r Hin. apply range_spec in Hin. lia.
  - intros r txt Hin. apply range_spec in Hin. apply Hset. exact Hin.
  - cbv zeta. erewrite bind_run by exact E. cbn [Z.eqb fst snd ret].
    repeat split; assumption.
Qed.

Lemma cli_leaves_settled_column_witness :
  let s := {| wb := [(Sample.title, Sample.half_done)]; task := Sample.job;
              calls := 1; trace := [] |} in
  calls (snd (cli_translate_column (Sample.answering (wb s)) Sample.title
                (py "appid") (py "appkey") 3 3 (py "D") no_totals s)) = 1%nat.
Proof.
  intros s.
  apply (cli_leaves_settled_column (Sample.answering (wb s)) Sample.title
           (py "appid") (py "appkey") 3 3 (py "D") 4 no_totals s).
  - reflexivity.
  - lia.
  - intros r txt Hr Hv _. assert (r = 3) as -> by lia.
    vm_compute in Hv. injection Hv as <-. vm_compute. reflexivity.
Defined.

(** ** What [translate_excel] returns *)

Ltac open_cli :=
  unfold cli_process_sheet, translate_worksheet, cli_translate_column,
    cli_translate_cell, cli_count_cell, adjust_widths, adjust_heights,
    row_lines, ws_cell.

(** X15.  [translate_excel] returns [True] only after it has saved the workbook,
    once, as it is at the end, under [output_file]; when it returns [False]
    or ends by an exception nothing was saved. *)
Theorem translate_excel_true_iff_saved W input_file output_file app_id app_key
    columns start_row end_row sheet_names s :
  saves (trace s) = [] ->
  let r := translate_excel W input_file output_file app_id app_key columns
             start_row end_row sheet_names s in
  saves (trace (snd r))
  = match fst r with
    | Val true => [(output_file, wb (snd r))]
    | _ => []
    end.
Proof.
  intros Hs. cbv zeta.
  set (post := fun (o : outcome bool) (s' : state) =>
                 saves (trace s')
                 = match o with
                   | Val true => [(output_file, wb s')]
                   | _ => []
                   end).
  enough (H : hoare nothing_saved
                (translate_excel W input_file output_file app_id app_key
                   columns start_row end_row sheet_names) post)
    by (apply (H s Hs)).
  assert (F : hoare nothing_saved (ret false) post).
  { intros s0 H0. exact H0. }
  assert (R : forall (e : exn) s0, nothing_saved s0 -> post (Raise e) s0).
  { intros e s0 H0. exact H0. }
  unfold translate_excel.
  apply hoare_pres_then; [solve [pres]|intros test_result|exact R].
  destruct test_result as [r|]; [|exact F].
  destruct (str_eqb r ERROR_54003); [exact F|].
  destruct (disk W input_file) as [| |b]; try exact F.
  apply hoare_pres_then; [solve [pres]|intros _|exact R].
  destruct (select_sheets (sheetnames b) sheet_names) as [names|]; [|exact F].
  apply hoare_pres_then; [solve [open_cli; pres]|intros r1|exact R].
  destruct (_ >? 0); [|exact F].
  destruct (writable W output_file); [|exact F].
  intros s0 H0. unfold nothing_saved in H0. unfold post. simpl.
  rewrite saves_cons, H0. reflexivity.
Qed.

Lemma translate_excel_true_iff_saved_witness :
  let W := Sample.answering [(Sample.title, Sample.half_done)] in
  let r := translate_excel W (py "cases.xlsx") (py "out.xlsx") (py "appid")
             (py "appkey") [py "D"] 2 (Some 3) None (start Sample.job) in
  fst r = Val true /\ saves (trace (snd r)) = [(py "out.xlsx", wb (snd r))].
Proof.
  intros W r.
  assert (E : fst r = Val true) by (vm_compute; reflexivity).
  split; [exact E|].
  pose proof (translate_excel_true_iff_saved W (py "cases.xlsx") (py "out.xlsx")
                (py "appid") (py "appkey") [py "D"] 2 (Some 3) None
                (start Sample.job) eq_refl) as H.
  cbv zeta in H. fold r in H. rewrite E in H. exact H.
Defined.

(** * The download route *)

Lemma saves_exists tr p b :
  In (p, b) (saves tr) ->
  existsb (fun e => match e with Save q _ => str_eqb q p | _ => false end) tr = true.
Proof.
  induction tr as [|e tr IH]; [intros []|].
  rewrite saves_cons, in_app_iff. cbn [existsb]. intros [H|H].
  - rewrite (IH H). apply orb_true_r.
  - destruct e as [a t0|d|q|q b0]; try (destruct H; fail).
    destruct H as [H|[]]. injection H as -> ->.
    unfold str_eqb. rewrite bool_decide_eq_true_2 by reflexivity. reflexivity.
Qed.

(** X16.  After a run of a task that was created without output file, the
    download route sends the workbook the run saved, under the path it was
    saved to; when the run saved nothing, because it failed or because
    there was nothing to translate, the answer is the error 400, also for a
    task whose status is completed. *)
Theorem download_after_run W t translation_tasks task_id :
  output_file t = [] ->
  let s := run W t in
  translation_tasks !! task_id = Some (task s) ->
  download_file W (trace s) translation_tasks task_id
  = match saves (trace s) with
    | [] => JsonError FileNotReady 400
    | (p, _) :: _ => SendFile p
    end.
Proof.
  intros Hout s Hreg. unfold download_file. rewrite Hreg.
  assert (H : unsaved_run t (start t)) by (repeat split).
  destruct (engine_ends W t (start t) H) as [E|[E|E]]; fold (run W t) in E; fold s in E.
  - destruct E as (E1 & E2 & _). rewrite E1, E2. reflexivity.
  - destruct E as (E1 & E2 & _ & _ & E5 & _). rewrite E1, E2, E5, Hout. reflexivity.
  - destruct E as (E1 & E2 & E3 & _). rewrite E1, E2. cbn [is_completed negb orb].
    assert (Hn : nonempty (output_file (task s)) = true) by (rewrite E3; reflexivity).
    rewrite Hn. cbn [negb].
    unfold path_exists. rewrite (saves_exists (trace s) _ (wb s)).
    + reflexivity.
    + rewrite E2. left. reflexivity.
Qed.

Lemma download_after_run_witness :
  let W := Sample.answering [(Sample.title, Sample.header_only)] in
  download_file W (trace (run W Sample.job))
    {[ py "task-1" := task (run W Sample.job) ]} (py "task-1")
  = JsonError FileNotReady 400.
Proof.
  intros W.
  rewrite (download_after_run W Sample.job
             {[ py "task-1" := task (run W Sample.job) ]} (py "task-1")).
  - reflexivity.
  - reflexivity.
  - vm_compute. reflexivity.
Defined.

(** * Column widths and row heights *)

Lemma column_width_for_bounds v :
  0 <= v -> (5 <= column_width_for v /\ column_width_for v <= 50)%Q.
Proof.
  intros Hv. unfold column_width_for. cbv zeta.
  set (w := Float.add _ _).
  assert (Hw : (5 <= w)%Q).
  { subst w. unfold Float.add, Float.mul, Float.of_int, Float.literal.
    assert (F5 : (5 <= Float.fl 5)%Q) by (vm_compute; discriminate).
    eapply Qle_trans; [exact F5|]. apply fl_mono.
    assert (H0 : (0 <= Float.fl (Float.fl (inject_Z v) * Float.fl 1.2))%Q).
    { apply fl_nonneg. apply Qmult_le_0_compat.
      - apply fl_nonneg. change 0%Q with (inject_Z 0). rewrite <- Zle_Qle. exact Hv.
      - apply fl_nonneg. discriminate. }
    rewrite <- (Qplus_0_l 5) at 1. apply Qplus_le_compat; [exact H0|apply Qle_refl]. }
  destruct (Qle_bool w 50) eqn:E.
  - apply Qle_bool_iff in E. split; assumption.
  - split; [discriminate|apply Qle_refl].
Qed.

Lemma in_dict_set k v d k' v' :
  In (k', v') (dict_set k v d) -> (k' = k /\ v' = v) \/ In (k', v') d.
Proof.
  induction d as [|[k0 v0] d IH]; simpl.
  - intros [[= <- <-]|[]]. left. auto.
  - destruct (k0 =? k) eqn:E.
    + intros [[= <- <-]|H]; [left; auto|right; right; exact H].
    + intros [H|H]; [right; left; exact H|].
      destruct (IH H) as [?|?]; [left; assumption|right; right; assumption].
Qed.

Lemma has_key_dict_set k v d : has_key k (dict_set k v d).
Proof.
  induction d as [|[k0 v0] d IH]; simpl.
  - exists v. left. reflexivity.
  - destruct (k0 =? k) eqn:E.
    + exists v. left. reflexivity.
    + destruct IH as [v' H]. exists v'. right. exact H.
Qed.

Lemma has_key_kept k c v d : has_key k d -> has_key k (dict_set c v d).
Proof.
  intros [v0 H]. induction d as [|[k1 v1] d IH]; [destruct H|]. simpl.
  destruct (k1 =? c) eqn:E.
  - apply Z.eqb_eq in E. subst k1. destruct H as [[= <- <-]|H].
    + exists v. left. reflexivity.
    + exists v0. right. exact H.
  - destruct H as [H|H].
    + exists v0. left. exact H.
    + destruct (IH H) as [v' H']. exists v'. right. exact H'.
Qed.

Lemma nonneg_values_dict_set c v d :
  0 <= v -> nonneg_values d -> nonneg_values (dict_set c v d).
Proof.
  intros Hv Hd k' v' H. apply in_dict_set in H as [[_ ->]|H]; [exact Hv|].
  eapply Hd, H.
Qed.

(** ** What the column loop leaves in [columns_to_adjust] *)

Section Dict.

Context (W : world) (ws : str) (I : widths -> Prop).

Lemma attempt_translation_dict r c cv d :
  (forall k v d0, 0 <= v -> I d0 -> I (dict_set k v d0)) -> I d ->
  returns (val_in I) (attempt_translation W ws c r cv d).
Proof.
  intros HI Hd. unfold attempt_translation.
  eapply returns_bind; [apply returns_any| |exact (fun _ => Logic.I)]. intros t _.
  eapply returns_bind; [apply returns_any| |exact (fun _ => Logic.I)]. intros e _.
  eapply returns_bind; [apply returns_any| |exact (fun _ => Logic.I)]. intros [e' again] _.
  destruct again.
  - repeat (eapply returns_bind; [apply returns_any| |exact (fun _ => Logic.I)]; intros ? _).
    intros s. exact Hd.
  - eapply returns_bind with (V1 := val_in I).
    + destruct e' as [e'|]; [|intros s; exact Hd].
      destruct (nonempty e' && negb (str_eqb e' ERROR_54003)); [|intros s; exact Hd].
      repeat (eapply returns_bind; [apply returns_any| |exact (fun _ => Logic.I)]; intros ? _).
      destruct (_ >? _); intros s; [|exact Hd].
      apply HI; [|exact Hd]. unfold len. lia.
    + intros d' Hd'.
      repeat (eapply returns_bind; [apply returns_any| |exact (fun _ => Logic.I)]; intros ? _).
      intros s. exact Hd'.
    + exact (fun _ => Logic.I).
Qed.

Lemma translate_cell_dict l r c d :
  (forall k v d0, 0 <= v -> I d0 -> I (dict_set k v d0)) -> I d ->
  returns (next_in I) (translate_cell W ws l c r d).
Proof.
  intros HI Hd. unfold translate_cell.
  eapply returns_bind; [apply returns_any| |exact (fun _ => Logic.I)]. intros t _.
  assert (H : returns (next_in (R := bool) I)
    (let* c0 := ws_cell ws r c in
     if countable (value c0) then
       let cell_value := match value c0 with Text s => strip s | _ => [] end in
       set_current_cell (l ++ str_of_int r);;
       if is_already_translated cell_value then
         skip_translated ws c r cell_value;; ret (Next d)
       else
         let* columns_to_adjust := attempt_translation W ws c r cell_value d in
         ret (Next columns_to_adjust)
     else ret (Next d))).
  { eapply returns_bind; [apply returns_any| |exact (fun _ => Logic.I)]. intros c0 _.
    destruct (countable (value c0)); [|intros s; exact Hd].
    eapply returns_bind; [apply returns_any| |exact (fun _ => Logic.I)]. intros _ _.
    destruct (is_already_translated _).
    - eapply returns_bind; [apply returns_any| |exact (fun _ => Logic.I)]. intros _ _.
      intros s. exact Hd.
    - eapply returns_bind;
        [apply attempt_translation_dict; assumption| |exact (fun _ => Logic.I)].
      intros d' Hd' s. exact Hd'. }
  destruct (status t); try exact H. intros s. exact Logic.I.
Qed.

Lemma translate_column_dict start_row end_row l d :
  (forall k v d0, 0 <= v -> I d0 -> I (dict_set k v d0)) -> I d ->
  returns (next_in I) (translate_column W ws start_row end_row l d).
Proof.
  intros HI Hd. unfold translate_column.
  destruct (column_index_from_string l) as [c|]; [|intros s; exact Hd].
  apply returns_for_each.
  - intros r acc _ Hacc. apply translate_cell_dict; assumption.
  - apply HI; [lia|exact Hd].
Qed.

Lemma columns_dict start_row end_row columns d :
  (forall k v d0, 0 <= v -> I d0 -> I (dict_set k v d0)) -> I d ->
  returns (next_in I) (for_each columns (translate_column W ws start_row end_row) d).
Proof.
  intros HI Hd. apply returns_for_each; [|exact Hd].
  intros l acc _ Hacc. apply translate_column_dict; assumption.
Qed.

End Dict.

Section Keys.

Context (W : world) (ws : str).

Lemma translate_column_has_key start_row end_row l c d :
  column_index_from_string l = Some c ->
  returns (next_in (has_key c)) (translate_column W ws start_row end_row l d).
Proof.
  intros Hc. unfold translate_column. rewrite Hc.
  apply returns_for_each.
  - intros r acc _ Hacc. apply translate_cell_dict; [|exact Hacc].
    intros k v d0 _. apply has_key_kept.
  - apply has_key_dict_set.
Qed.

Lemma columns_have_keys start_row end_row columns : forall d l c,
  In l columns -> column_index_from_string l = Some c ->
  returns (next_in (has_key c))
          (for_each columns (translate_column W ws start_row end_row) d).
Proof.
  induction columns as [|x columns IH]; intros d l c Hin Hc; [destruct Hin|].
  cbn [for_each]. destruct Hin as [->|Hin].
  - eapply returns_bind;
      [apply (translate_column_has_key start_row end_row l c d Hc)|
      |exact (fun _ => Logic.I)].
    intros [d'|v] Hd'; [|intros s; exact Logic.I].
    apply columns_dict; [|exact Hd'].
    intros k v d0 _. apply has_key_kept.
  - eapply returns_bind; [apply returns_any| |exact (fun _ => Logic.I)].
    intros [d'|v] _; [|intros s; exact Logic.I].
    apply (IH d' l c Hin Hc).
Qed.

Lemma columns_nonneg start_row end_row columns :
  returns (next_in nonneg_values)
          (for_each columns (translate_column W ws start_row end_row) []).
Proof.
  apply columns_dict.
  - intros k v d0. apply nonneg_values_dict_set.
  - intros k v [].
Qed.

End Keys.

(** ** Statements that keep the dimensions *)

Section Dimensions.

Context (W : world) (ws : str).

Lemma same_wb_preserves {A} (P : state -> Prop) (m : M A) :
  (forall s1 s2, wb s2 = wb s1 -> P s1 -> P s2) ->
  (forall s, wb (snd (m s)) = wb s) -> preserves P m.
Proof. intros HP Hm s Hs. eapply HP; [apply Hm|exact Hs]. Qed.

Lemma has_sheet_wb s1 s2 : wb s2 = wb s1 -> has_sheet ws s1 -> has_sheet ws s2.
Proof. unfold has_sheet. intros ->. auto. Qed.

Lemma width_set_wb c s1 s2 : wb s2 = wb s1 -> width_set ws c s1 -> width_set ws c s2.
Proof. unfold width_set. intros ->. auto. Qed.

Lemma height_set_wb r s1 s2 : wb s2 = wb s1 -> height_set ws r s1 -> height_set ws r s2.
Proof. unfold height_set. intros ->. auto. Qed.

Lemma baidu_translate_wb q i k s : wb (snd (baidu_translate W q i k s)) = wb s.
Proof. unfold baidu_translate. destruct (baidu_request _ _ _ _); reflexivity. Qed.

Lemma has_sheet_assign a f : preserves (has_sheet ws) (assign a f).
Proof. apply same_wb_preserves; [apply has_sheet_wb|reflexivity]. Qed.
Lemma has_sheet_sleep d : preserves (has_sheet ws) (sleep d).
Proof. apply same_wb_preserves; [apply has_sheet_wb|reflexivity]. Qed.
Lemma has_sheet_baidu_translate q i k :
  preserves (has_sheet ws) (baidu_translate W q i k).
Proof. apply same_wb_preserves; [apply has_sheet_wb|apply baidu_translate_wb]. Qed.
Lemma has_sheet_update_sheet ws' f : preserves (has_sheet ws) (update_sheet ws' f).
Proof.
  intros s H. unfold has_sheet in *. simpl. rewrite sheetnames_with_sheet. exact H.
Qed.

Lemma width_set_assign c a f : preserves (width_set ws c) (assign a f).
Proof. apply same_wb_preserves; [apply width_set_wb|reflexivity]. Qed.
Lemma width_set_sleep c d : preserves (width_set ws c) (sleep d).
Proof. apply same_wb_preserves; [apply width_set_wb|reflexivity]. Qed.
Lemma width_set_baidu_translate c q i k :
  preserves (width_set ws c) (baidu_translate W q i k).
Proof. apply same_wb_preserves; [apply width_set_wb|apply baidu_translate_wb]. Qed.

Lemma width_set_update_sheet c ws' f :
  (forall sh, column_width (f sh) = column_width sh) ->
  preserves (width_set ws c) (update_sheet ws' f).
Proof.
  intros Hf s (w & H1 & H2). exists w. split; [|exact H2]. simpl.
  rewrite <- H1.
  apply (sheet_with_sheet_ind
           (fun sh sh' => column_width sh' !! c = column_width sh !! c));
    [reflexivity|intros sh; rewrite Hf; reflexivity].
Qed.

Lemma width_set_touch c ws' r : preserves (width_set ws c) (update_sheet ws' (touch r)).
Proof. apply width_set_update_sheet. reflexivity. Qed.
Lemma width_set_with_height c ws' r h :
  preserves (width_set ws c) (update_sheet ws' (with_height r h)).
Proof. apply width_set_update_sheet. reflexivity. Qed.

Lemma height_set_update_sheet r ws' f :
  (forall sh, row_height (f sh) = row_height sh) ->
  preserves (height_set ws r) (update_sheet ws' f).
Proof.
  intros Hf s (h & H1 & H2). exists h. split; [|exact H2]. simpl.
  rewrite <- H1.
  apply (sheet_with_sheet_ind
           (fun sh sh' => row_height sh' !! r = row_height sh !! r));
    [reflexivity|intros sh; rewrite Hf; reflexivity].
Qed.

Lemma height_set_touch r ws' r' : preserves (height_set ws r) (update_sheet ws' (touch r')).
Proof. apply height_set_update_sheet. reflexivity. Qed.

(** Writing the width of a column, the height of a row. *)
Lemma width_written c v s :
  has_sheet ws s -> 0 <= v ->
  width_set ws c (snd (update_sheet ws (with_width c (column_width_for v)) s)).
Proof.
  intros Hs Hv. exists (column_width_for v). split; [|apply column_width_for_bounds, Hv].
  simpl. rewrite sheet_with_sheet_eq. unfold has_sheet in Hs.
  rewrite bool_decide_eq_true_2 by exact Hs. simpl. apply lookup_insert_eq.
Qed.

Lemma width_kept c c' v s :
  0 <= v -> width_set ws c s ->
  width_set ws c (snd (update_sheet ws (with_width c' (column_width_for v)) s)).
Proof.
  intros Hv (w & H1 & H2). simpl. unfold width_set. simpl.
  rewrite sheet_with_sheet_eq. destruct (bool_decide _); [|exists w; auto].
  simpl. destruct (decide (c' = c)) as [->|Hne].
  - exists (column_width_for v). rewrite lookup_insert_eq.
    split; [reflexivity|apply column_width_for_bounds, Hv].
  - exists w. rewrite lookup_insert_ne by exact Hne. auto.
Qed.

Lemma height_written r h s :
  has_sheet ws s -> 15 <= h <= 100 ->
  height_set ws r (snd (update_sheet ws (with_height r h) s)).
Proof.
  intros Hs Hh. exists h. split; [|exact Hh].
  simpl. rewrite sheet_with_sheet_eq. unfold has_sheet in Hs.
  rewrite bool_decide_eq_true_2 by exact Hs. simpl. apply lookup_insert_eq.
Qed.

Lemma height_kept r r' h s :
  15 <= h <= 100 -> height_set ws r s ->
  height_set ws r (snd (update_sheet ws (with_height r' h) s)).
Proof.
  intros Hh (h0 & H1 & H2). unfold height_set. simpl.
  rewrite sheet_with_sheet_eq. destruct (bool_decide _); [|exists h0; auto].
  simpl. destruct (decide (r' = r)) as [->|Hne].
  - exists h. rewrite lookup_insert_eq. auto.
  - exists h0. rewrite lookup_insert_ne by exact Hne. auto.
Qed.

End Dimensions.

Hint Resolve has_sheet_sleep has_sheet_baidu_translate has_sheet_update_sheet
  width_set_sleep width_set_baidu_translate width_set_touch width_set_with_height
  height_set_touch : pres.
Hint Extern 2 (preserves (has_sheet _) ?m) =>
  (is_setter m; apply has_sheet_assign) : pres.
Hint Extern 2 (preserves (width_set _ _) ?m) =>
  (is_setter m; apply width_set_assign) : pres.

Section Adjust.

Context (W : world) (ws : str).

(** [adjust_widths]: every column of [columns_to_adjust] gets its width,
    and a column that had one keeps one. *)
Lemma adjust_widths_loop d : forall (D : Z -> Prop) u,
  nonneg_values d ->
  hoare (fun s => has_sheet ws s /\ forall k, D k -> width_set ws k s)
        (for_each d
           (fun entry (_ : unit) =>
              update_sheet ws (with_width (fst entry) (column_width_for (snd entry)));;
              ret (Next (R := unit) tt)) u)
        (fun _ s => has_sheet ws s
                    /\ forall k, D k \/ has_key k d -> width_set ws k s).
Proof.
  induction d as [|[k0 v0] d IH]; intros D u Hd.
  - intros s [H1 H2]. split; [exact H1|].
    intros k [Hk|[v []]]. apply H2, Hk.
  - cbn [for_each]. intros s [H1 H2].
    assert (Hv0 : 0 <= v0) by (eapply Hd; left; reflexivity).
    erewrite bind_run by reflexivity. cbn [fst snd].
    set (s1 := snd (update_sheet ws (with_width k0 (column_width_for v0)) s)).
    assert (G : has_sheet ws s1 /\ forall k, (D k \/ k = k0) -> width_set ws k s1).
    { split; [apply has_sheet_update_sheet, H1|].
      intros k [Hk| ->]; [apply width_kept; auto|apply width_written; auto]. }
    assert (Hd' : nonneg_values d) by (intros k v H; eapply Hd; right; exact H).
    destruct (IH (fun k => D k \/ k = k0) tt Hd' s1 G) as [R1 R2].
    split; [exact R1|].
    intros k [Hk|[v [[= -> ->]|Hin]]]; apply R2.
    + left. left. exact Hk.
    + left. right. reflexivity.
    + right. exists v. exact Hin.
Qed.

Lemma row_lines_returns r l n :
  1 <= n -> returns (next_in (fun n' => 1 <= n')) (row_lines ws r l n).
Proof.
  intros Hn s. unfold row_lines, try_except, ws_cell.
  destruct (column_index_from_string l) as [c|]; [|exact Hn].
  destruct ((r <? 1) || (c <? 1)); [exact Hn|].
  unfold bind, get_wb, update_sheet, ret. cbn [fst snd].
  destruct (value _); try exact Hn.
  destruct (nonempty _); [|exact Hn].
  destruct (_ >? n) eqn:E; [|exact Hn]. cbn [fst next_in]. lia.
Qed.

Lemma row_lines_keeps (P : state -> Prop) r l n :
  (forall r', preserves P (update_sheet ws (touch r'))) ->
  preserves P (row_lines ws r l n).
Proof. intros HP. unfold row_lines, ws_cell. pres. Qed.

(** [adjust_heights]: every row of the range gets its height. *)
Lemma adjust_heights_loop columns rows : forall (D : Z -> Prop) u,
  hoare (fun s => has_sheet ws s /\ forall r, D r -> height_set ws r s)
        (for_each rows
           (fun row_idx (_ : unit) =>
              let* r := for_each columns (row_lines ws row_idx) 1 in
              let max_lines := match r with Next n => n | Return _ => 1 end in
              let height := 15 + (max_lines - 1) * 10 in
              update_sheet ws (with_height row_idx (Z.min height 100));;
              ret (Next (R := unit) tt)) u)
        (fun o s => match o with
                    | Val _ => has_sheet ws s
                               /\ forall r, D r \/ In r rows -> height_set ws r s
                    | Raise _ => True
                    end).
Proof.
  induction rows as [|r0 rows IH]; intros D u.
  - intros s [H1 H2]. split; [exact H1|].
    intros r [Hr|[]]. apply H2, Hr.
  - cbn [for_each]. cbv zeta.
    eapply hoare_bind with
      (Q := fun o s => match o with
                       | Val (Next _) =>
                           has_sheet ws s
                           /\ forall r, (D r \/ r = r0) -> height_set ws r s
                       | Val (Return _) => False
                       | Raise _ => True
                       end).
    + intros s [H1 H2].
      pose proof (returns_for_each (fun n => 1 <= n) columns (row_lines ws r0)
                    (fun l n _ Hn => row_lines_returns r0 l n Hn) 1 (Z.le_refl 1) s)
        as V.
      assert (K1 : has_sheet ws (snd (for_each columns (row_lines ws r0) 1 s))).
      { revert s H1 H2 V. intros s H1 _ _. revert s H1.
        apply preserves_for_each. intros l n _. apply row_lines_keeps.
        intros r'. apply has_sheet_update_sheet. }
      assert (K2 : forall r, D r ->
                height_set ws r (snd (for_each columns (row_lines ws r0) 1 s))).
      { intros r Hr. specialize (H2 r Hr). revert s H2 H1 V K1.
        intros s H2 _ _ _. revert s H2.
        apply preserves_for_each. intros l n _. apply row_lines_keeps.
        intros r'. apply height_set_touch. }
      unfold bind.
      destruct (for_each columns (row_lines ws r0) 1 s) as [[[n|v]|e] s1];
        cbn [fst snd next_in] in *; [| |exact I].
      * assert (Hh : 15 <= Z.min (15 + (n - 1) * 10) 100 <= 100) by lia.
        split; [apply has_sheet_update_sheet, K1|].
        intros r [Hr| ->]; [apply height_kept; auto|apply height_written; auto].
      * assert (Hh : 15 <= Z.min (15 + (1 - 1) * 10) 100 <= 100) by lia.
        split; [apply has_sheet_update_sheet, K1|].
        intros r [Hr| ->]; [apply height_kept; auto|apply height_written; auto].
    + intros [u'|v]; cbv beta.
      * eapply hoare_post; [apply (IH (fun r => D r \/ r = r0) u')|].
        intros [a|e] s H; cbv beta in H; [|exact I].
        destruct H as [H1 H2]. split; [exact H1|].
        intros r [Hr|[<-|Hin]]; apply H2; auto.
      * intros s [].
    + intros e s _. exact I.
Qed.

End Adjust.

(** ** The pass sets the dimensions *)

(** A loop whose body never returns [v] never returns [v]. *)
Lemma for_each_never {A S R} (v : R) (l : list A) (body : A -> S -> M (flow S R)) :
  (forall x acc, returns (fun o => o <> Val (Return v)) (body x acc)) ->
  forall acc, returns (fun o => o <> Val (Return v)) (for_each l body acc).
Proof.
  intros Hb. induction l as [|x l IH]; intros acc s; cbn [for_each].
  - discriminate.
  - unfold bind. specialize (Hb x acc s).
    destruct (body x acc s) as [[[acc'|v']|e] s1]; cbn [fst] in *.
    + apply IH.
    + exact Hb.
    + discriminate.
Qed.

Lemma translate_cell_never_true W ws l c r d :
  returns (fun o => o <> Val (Return true)) (translate_cell W ws l c r d).
Proof.
  intros s. unfold translate_cell. unfold bind at 1. cbn [get_task fst snd].
  assert (H : forall (m : M (flow widths bool)),
             (forall s', exists d' s'', m s' = (Val (Next d'), s'') \/
                                        exists e, m s' = (Raise e, s'')) ->
             fst (m s) <> Val (Return true)).
  { intros m Hm. destruct (Hm s) as (d' & s'' & [E|[e E]]); rewrite E; discriminate. }
  assert (G : fst ((let* c0 := ws_cell ws r c in
     if countable (value c0) then
       let cell_value := match value c0 with Text s => strip s | _ => [] end in
       set_current_cell (l ++ str_of_int r);;
       if is_already_translated cell_value then
         skip_translated ws c r cell_value;; ret (Next d)
       else
         let* columns_to_adjust := attempt_translation W ws c r cell_value d in
         ret (Next (R := bool) columns_to_adjust)
     else ret (Next d)) s) <> Val (Return true)).
  { unfold bind at 1.
    destruct (ws_cell ws r c s) as [[c0|e] s1]; cbn [fst snd]; [|discriminate].
    destruct (countable (value c0)); [|discriminate].
    unfold bind at 1.
    destruct (set_current_cell _ s1) as [[u|e] s2]; cbn [fst snd]; [|discriminate].
    destruct (is_already_translated _).
    - unfold bind at 1.
      destruct (skip_translated _ _ _ _ s2) as [[u'|e] s3]; cbn [fst snd]; discriminate.
    - unfold bind at 1.
      destruct (attempt_translation _ _ _ _ _ _ s2) as [[d'|e] s3]; cbn [fst snd];
        discriminate. }
  destruct (status (task s)); try exact G. discriminate.
Qed.

Lemma columns_never_true W ws start_row end_row columns d :
  returns (fun o => o <> Val (Return true))
          (for_each columns (translate_column W ws start_row end_row) d).
Proof.
  apply for_each_never. intros l acc. unfold translate_column.
  destruct (column_index_from_string l) as [c|]; [|intros s; discriminate].
  apply for_each_never. intros r acc'. apply translate_cell_never_true.
Qed.

Section Pass.

Context (W : world) (ws : str).

Lemma has_sheet_columns start_row end_row columns d :
  preserves (has_sheet ws)
            (for_each columns (translate_column W ws start_row end_row) d).
Proof. open_pass. pres. Qed.

Lemma width_set_adjust_heights c columns start_row end_row :
  preserves (width_set ws c) (adjust_heights ws columns start_row end_row).
Proof. unfold adjust_heights, row_lines, ws_cell. pres. Qed.

Lemma has_sheet_adjust_widths d :
  preserves (has_sheet ws) (adjust_widths ws d).
Proof. unfold adjust_widths. pres. Qed.

(** The state after the column loop, when the pass returns [True]. *)
Lemma pass_true_runs columns start_row end_row s :
  fst (translate_worksheet_with_progress W ws columns start_row end_row s) = Val true ->
  let s1 := clamped_start start_row in
  let e1 := clamped_end end_row (max_row (sheet ws (wb s))) in
  exists d s2,
    for_each columns (translate_column W ws s1 e1) [] s = (Val (Next d), s2)
    /\ translate_worksheet_with_progress W ws columns start_row end_row s =
       (adjust_widths ws d;; adjust_heights ws columns s1 e1;; ret true) s2.
Proof.
  intros H s1 e1.
  assert (E : translate_worksheet_with_progress W ws columns start_row end_row s =
              (if s1 >? e1 then set_message (MsgBadRange s1 e1);; ret false
               else
                 let* r := for_each columns (translate_column W ws s1 e1) [] in
                 match r with
                 | Return v => ret v
                 | Next d =>
                     adjust_widths ws d;; adjust_heights ws columns s1 e1;; ret true
                 end) s) by reflexivity.
  rewrite E in H |- *. clear E.
  destruct (s1 >? e1); [discriminate H|].
  pose proof (columns_never_true W ws s1 e1 columns [] s) as N. cbv beta in N.
  destruct (for_each columns (translate_column W ws s1 e1) [] s)
    as [[[d|v]|e] s2] eqn:E; cbn [fst] in N.
  - exists d, s2. split; [reflexivity|]. rewrite (bind_run _ _ _ _ _ E). reflexivity.
  - rewrite (bind_run _ _ _ _ _ E) in H.
    destruct v; [exfalso; apply N; reflexivity|discriminate H].
  - rewrite (bind_raise _ _ _ _ _ E) in H. discriminate H.
Qed.

End Pass.

(** X17.  When the pass over a worksheet of the workbook returns [True],
    every valid column letter of [columns] has a width, and it lies between
    5 and 50: also a column in which nothing was translated. *)
Theorem pass_sets_column_widths W ws columns start_row end_row s c :
  has_sheet ws s ->
  fst (translate_worksheet_with_progress W ws columns start_row end_row s) = Val true ->
  target_column columns c ->
  width_set ws c (snd (translate_worksheet_with_progress W ws columns start_row end_row s)).
Proof.
  intros Hs Ht (l & Hl & Hc).
  destruct (pass_true_runs W ws columns start_row end_row s Ht) as (d & s2 & E1 & E2).
  cbv zeta in E1, E2. rewrite E2. clear E2.
  set (s1 := clamped_start start_row) in *.
  set (e1 := clamped_end end_row _) in *.
  assert (K : has_sheet ws s2).
  { pose proof (has_sheet_columns W ws s1 e1 columns [] s Hs) as P. rewrite E1 in P.
    exact P. }
  assert (Hk : has_key c d).
  { pose proof (columns_have_keys W ws s1 e1 columns [] l c
                  (proj1 (list_elem_of_In _ _) Hl) Hc s) as P.
    rewrite E1 in P. exact P. }
  assert (Hn : nonneg_values d).
  { pose proof (columns_nonneg W ws s1 e1 columns s) as P. rewrite E1 in P. exact P. }
  assert (A : width_set ws c (snd (adjust_widths ws d s2))).
  { unfold adjust_widths. unfold bind at 1.
    pose proof (adjust_widths_loop ws d (fun _ => False) tt Hn s2
                  (conj K (fun k (F : False) => match F with end))) as [_ P].
    destruct (for_each d _ tt s2) as [[u|e] s3]; cbn [fst snd] in *;
      apply P; right; exact Hk. }
  unfold bind at 1.
  destruct (adjust_widths ws d s2) as [[u|e] s3]; cbn [fst snd] in *; [|exact A].
  apply (preserves_bind (width_set ws c)); [apply width_set_adjust_heights|
                                           intros _; apply preserves_ret|exact A].
Qed.

(** X18.  When the pass over a worksheet of the workbook returns [True],
    every row of the clamped range has a height, and it lies between 15 and
    100. *)
Theorem pass_sets_row_heights W ws columns start_row end_row s r :
  has_sheet ws s ->
  fst (translate_worksheet_with_progress W ws columns start_row end_row s) = Val true ->
  target_row start_row end_row (max_row (sheet ws (wb s))) r ->
  height_set ws r (snd (translate_worksheet_with_progress W ws columns start_row end_row s)).
Proof.
  intros Hs Ht Hr.
  destruct (pass_true_runs W ws columns start_row end_row s Ht) as (d & s2 & E1 & E2).
  cbv zeta in E1, E2. rewrite E2 in Ht |- *. clear E2.
  unfold target_row in Hr.
  set (s1 := clamped_start start_row) in *.
  set (e1 := clamped_end end_row _) in *.
  assert (K : has_sheet ws s2).
  { pose proof (has_sheet_columns W ws s1 e1 columns [] s Hs) as P. rewrite E1 in P.
    exact P. }
  pose proof (has_sheet_adjust_widths ws d s2 K) as K3.
  revert Ht. unfold bind at 1 3.
  destruct (adjust_widths ws d s2) as [[u|e] s3]; cbn [fst snd] in *; [|discriminate].
  unfold adjust_heights. cbv zeta. unfold bind at 1 2 5 6.
  pose proof (adjust_heights_loop ws columns (range s1 (e1 + 1)) (fun _ => False) tt s3
                (conj K3 (fun k (F : False) => match F with end))) as P.
  destruct (for_each (range s1 (e1 + 1)) _ tt s3) as [[u'|e] s4]; cbn [fst snd] in *;
    [|discriminate].
  intros _. destruct P as [_ P]. apply P. right. apply range_spec. exact Hr.
Qed.

Lemma pass_sets_column_widths_witness :
  let s := Fixture.at_D2 Sample.half_done in
  width_set Sample.title 4
    (snd (translate_worksheet_with_progress (Sample.answering (wb s)) Sample.title
            [py "D"] 2 (Some 3) s)).
Proof.
  intros s.
  apply (pass_sets_column_widths (Sample.answering (wb s)) Sample.title [py "D"] 2
           (Some 3) s 4).
  - left.
  - vm_compute. reflexivity.
  - exists (py "D"). split; [left|vm_compute; reflexivity].
Defined.

Lemma pass_sets_row_heights_witness :
  let s := Fixture.at_D2 Sample.half_done in
  height_set Sample.title 3
    (snd (translate_worksheet_with_progress (Sample.answering (wb s)) Sample.title
            [py "D"] 2 (Some 3) s)).
Proof.
  intros s.
  apply (pass_sets_row_heights (Sample.answering (wb s)) Sample.title [py "D"] 2
           (Some 3) s 3).
  - left.
  - vm_compute. reflexivity.
  - vm_compute. split; discriminate.
Defined.

(** * The limits of a cell text *)

(** X19.  When the translate call for a cell returns a text and
    ["<english>\n<chinese>"], cut at 32767 characters, holds a control
    character, the assignment to the cell raises [IllegalCharacterError]
    right after the request: the workbook and the task record are as they
    were, and no progress update and no pacing delay follow. *)
Theorem illegal_text_raises W ws col_index row_idx cell_value columns_to_adjust
    english_text s :
  call_returns W cell_value (app_id (task s)) (app_key (task s)) (calls s)
    (Some english_text) ->
  nonempty english_text = true -> english_text <> ERROR_54003 ->
  check_string (english_text ++ [NL] ++ cell_value) = None ->
  let r := attempt_translation W ws col_index row_idx cell_value
             columns_to_adjust s in
  fst r = Raise IllegalCharacterError
  /\ wb (snd r) = wb s
  /\ task (snd r) = task s
  /\ timeline (trace (snd r)) = timeline (trace s) ++ [Call].
Proof.
  intros H1 Hn He Hc r. subst r.
  destruct (usable_text english_text Hn He) as [U1 U2].
  destruct (baidu_translate_run W _ _ _ s _ H1) as [p1 E1].
  unfold attempt_translation.
  erewrite bind_run by reflexivity.
  erewrite bind_run by exact E1.
  rewrite U1.
  erewrite bind_run by reflexivity. cbv beta iota.
  rewrite U2. unfold assign_cell_text. rewrite Hc.
  erewrite bind_raise.
  2:{ erewrite bind_raise by reflexivity. reflexivity. }
  cbn [fst snd wb task trace]. rewrite timeline_cons.
  repeat split.
Qed.

Lemma illegal_text_raises_witness :
  let s := Fixture.at_D2 Sample.untranslated in
  let W := Fixture.garbling (wb s) in
  let r := attempt_translation W Sample.title 4 2 Sample.report [] s in
  (fst r = Raise IllegalCharacterError /\ wb (snd r) = wb s
   /\ timeline (trace (snd r)) = [Call])
  /\ status (task (run W Sample.job)) = Failed
  /\ saves (trace (run W Sample.job)) = []
  /\ timeline (trace (run W Sample.job)) = [Call; Call].
Proof.
  intros s W r. split; [|vm_compute; repeat split].
  assert (H1 : call_returns W Sample.report (app_id (task s)) (app_key (task s))
                 (calls s) (Some (py "Bell" ++ [7%N]))).
  { split; [vm_compute; discriminate | reflexivity]. }
  destruct (illegal_text_raises W Sample.title 4 2 Sample.report []
              (py "Bell" ++ [7%N]) s H1 eq_refl)
    as (G1 & G2 & _ & G4); [vm_compute; discriminate|vm_compute; reflexivity|].
  split; [exact G1|]. split; [exact G2|exact G4].
Defined.

(** * The skip path and the limits of a cell text

    The order check returns pieces of its argument, joined by a newline:
    a text within the limits of a cell text gives one. *)

Section Within.

(** A text the setter stores as it is. *)
Lemma check_string_as_is text :
  check_string text = Some text <->
  (length text <= Z.to_nat 32767)%nat /\ existsb illegal_character text = false.
Proof.
  unfold check_string. cbv zeta. split.
  - destruct (existsb _ (take _ _)) eqn:E; [discriminate|]. intros [= H].
    rewrite H in E. split; [|exact E].
    rewrite <- H at 1. rewrite length_take. lia.
  - intros [Hl Hc]. rewrite take_ge by exact Hl. rewrite Hc. reflexivity.
Qed.

Lemma lstrip_length s : (length (lstrip s) <= length s)%nat.
Proof.
  induction s as [|c s IH]; simpl; [lia|].
  destruct (Unicode.isspace c); simpl; lia.
Qed.

Lemma strip_length s : (length (strip s) <= length s)%nat.
Proof.
  unfold strip, rstrip. rewrite length_rev.
  etransitivity; [apply lstrip_length|]. rewrite length_rev. apply lstrip_length.
Qed.

(** A text made of pieces of a text within the limits, and not longer. *)
Lemma pieces_as_is text t :
  check_string text = Some text ->
  (length t <= length text)%nat ->
  (forall x, List.In x t -> x = NL \/ List.In x text) ->
  check_string t = Some t.
Proof.
  intros [Hl Hc]%check_string_as_is Ht Hin. apply check_string_as_is.
  split; [lia|].
  destruct (existsb illegal_character t) eqn:E; [|reflexivity].
  apply existsb_exists in E as (x & Hx & Ix).
  destruct (Hin x Hx) as [->|H]; [discriminate Ix|].
  assert (existsb illegal_character text = true); [|congruence].
  apply existsb_exists. eauto.
Qed.

(** What [bracket_re] accepts, and its two groups. *)
Lemma bracket_inv s e ms :
  Re.rmatch bracket_re s = Some (e, ms) ->
  exists G1 W c G2 T,
    s = G1 ++ W ++ LPAREN :: c :: G2 ++ RPAREN :: T
    /\ Re.group s ms 1 = G1 /\ Re.group s ms 2 = c :: G2.
Proof.
  unfold Re.rmatch, bracket_re. rewrite run_AtBeginning, run_Mark.
  intros (G1 & B & -> & _ & H)%run_MinRepeat_inv.
  rewrite run_Mark in H.
  apply run_MaxRepeat_inv in H as (W & B1 & -> & _ & H).
  apply run_In in H as (x & B2 & -> & Hx & H). apply N.eqb_eq in Hx as <-.
  rewrite run_Mark in H.
  apply run_In in H as (c & B3 & -> & _ & H).
  apply run_MinRepeat_inv in H as (G2 & B4 & -> & _ & H).
  rewrite run_Mark in H.
  apply run_In in H as (x & B5 & -> & Hx & H). apply N.eqb_eq in Hx as <-.
  apply run_MaxRepeat_inv in H as (W2 & B6 & -> & _ & H).
  apply run_AtEnd in H as [_ H]. rewrite run_nil in H. injection H as <- <-.
  exists G1, W, c, G2, (W2 ++ B6). split; [reflexivity|]. split.
  - unfold Re.group. simpl. rewrite drop_0, Nat.sub_0_r. apply take_app_length.
  - unfold Re.group. cbn [Re.slot Nat.eqb Nat.mul Nat.sub Nat.add].
    rewrite (app_assoc G1 W).
    apply (take_drop_middle (G1 ++ W) LPAREN (c :: G2) (RPAREN :: W2 ++ B6)).
    + rewrite length_app. reflexivity.
    + rewrite ?length_app. cbn [length]. lia.
Qed.

(** The pieces of [split]. *)
Lemma split_pieces sep s :
  (fold_right (fun p n => S (length p) + n) 0 (split sep s) = S (length s))%nat
  /\ forall p x, List.In p (split sep s) -> List.In x p -> List.In x s.
Proof.
  induction s as [|c s [IH1 IH2]]; cbn [split].
  - split; [reflexivity|]. intros p x [<-|[]] [].
  - destruct (c =? sep)%N.
    + split.
      * cbn [fold_right length]. rewrite IH1. cbn [length]. lia.
      * intros p x [<-|H] Hx; [destruct Hx|].
        right. eapply IH2; eassumption.
    + pose proof (split_nonempty sep s) as Hne.
      destruct (split sep s) as [|l ls]; [congruence|].
      split.
      * cbn [fold_right length] in *. lia.
      * intros p x [<-|H] Hx.
        -- destruct Hx as [->|Hx]; [left; reflexivity|].
           right. apply (IH2 l x); [left; reflexivity|exact Hx].
        -- right. apply (IH2 p x); [right; exact H|exact Hx].
Qed.

Lemma nonblank_pieces (ps : list str) :
  (fold_right (fun p n => S (length p) + n) 0
     (filter (fun part => nonempty part = true) (map strip ps))
   <= fold_right (fun p n => S (length p) + n) 0 ps)%nat
  /\ forall q x, List.In q (filter (fun part => nonempty part = true) (map strip ps)) ->
       List.In x q -> exists p, List.In p ps /\ List.In x p.
Proof.
  induction ps as [|p ps [IH1 IH2]]; [split; [simpl; lia|intros q x []]|].
  cbn [map]. rewrite filter_cons.
  pose proof (strip_length p) as Hp.
  destruct (decide (nonempty (strip p) = true)) as [E|E]; cbn [fold_right].
  - split; [apply Nat.add_le_mono; [lia|exact IH1]|]. intros q x [<-|H] Hx.
    + exists p. split; [left; reflexivity|apply strip_incl, Hx].
    + destruct (IH2 q x H Hx) as (p' & H1 & H2). exists p'. split; [right|]; auto.
  - split; [etransitivity; [exact IH1|apply Nat.le_add_l]|]. intros q x H Hx.
    destruct (IH2 q x H Hx) as (p' & H1 & H2). exists p'. split; [right|]; auto.
Qed.

(** X20.  The text the skip path assigns is within the limits of a cell
    text whenever the text it was made from is: the setter stores it as it
    is, without cutting it and without raising. *)
Theorem adjusted_within_limits cell_value :
  check_string cell_value = Some cell_value ->
  check_string (check_and_adjust_translation_order cell_value)
  = Some (check_and_adjust_translation_order cell_value).
Proof.
  intros H. unfold check_and_adjust_translation_order.
  destruct (Re.rmatch bracket_re cell_value) as [[e ms]|] eqn:R.
  - apply bracket_inv in R as (G1 & W & c & G2 & T & E & -> & ->).
    cbv zeta. apply (pieces_as_is cell_value); [exact H| |].
    + rewrite !length_app. pose proof (strip_length (c :: G2)).
      pose proof (strip_length G1). rewrite E, !length_app. simpl in *.
      rewrite !length_app. simpl. lia.
    + intros x [Hx|[<-|Hx]]%in_app_or; [|left; reflexivity|].
      * right. apply strip_incl in Hx. rewrite E.
        apply in_or_app. right. apply in_or_app. right. right.
        destruct Hx as [->|Hx]; [left; reflexivity|].
        right. apply in_or_app. left. exact Hx.
      * right. apply strip_incl in Hx. rewrite E. apply in_or_app. left. exact Hx.
  - destruct (contains NL cell_value); [|exact H].
    destruct (split_pieces NL cell_value) as [S1 S2].
    destruct (nonblank_pieces (split NL cell_value)) as [N1 N2].
    destruct (filter _ _) as [|part1 [|part2 [|part3 parts]]]; try exact H.
    destruct (_ && _); [|destruct (_ && _); exact H].
    apply (pieces_as_is cell_value); [exact H| |].
    + rewrite !length_app. simpl in *. lia.
    + intros x [Hx|[<-|Hx]]%in_app_or; [|left; reflexivity|].
      * destruct (N2 part2 x) as (p & P1 & P2);
          [right; left; reflexivity|exact Hx|].
        right. eapply S2; eassumption.
      * destruct (N2 part1 x) as (p & P1 & P2); [left; reflexivity|exact Hx|].
        right. eapply S2; eassumption.
Qed.

(** The same for the stripped text of a cell, which is what the pass hands
    to the order check. *)
Lemma stripped_within_limits text :
  check_string text = Some text -> check_string (strip text) = Some (strip text).
Proof.
  intros H. apply (pieces_as_is text); [exact H|apply strip_length|].
  intros x Hx. right. apply strip_incl, Hx.
Qed.

End Within.

Lemma adjusted_within_limits_witness :
  check_string (check_and_adjust_translation_order (py "ab (cd)"))
  = Some (py "cd" ++ [NL] ++ py "ab").
Proof. apply (adjusted_within_limits (py "ab (cd)")). vm_compute. reflexivity. Defined.
